(** * js-joda: Period and the DateTimeFormatter facade

    A shallow embedding of [src/Period.js] and of the [DateTimeFormatter]
    class, with the properties of the specification proved over it. *)

From Stdlib Require Import ZArith String Ascii List Bool Lia.
From Stdlib Require Import Decimal DecimalString DecimalZ.
From stdpp Require Import base option gmap strings.

Local Open Scope Z_scope.

(* [simpl] may unfold string concatenation on a known prefix *)
#[local] Arguments String.append !_ _ / : simpl nomatch.

(** ** JavaScript values and operators used by the sources *)

Module JS.

(** The 32-bit view of a number, which the bitwise operators take of
    their operands ([ToInt32] on an integral number). *)
Definition toInt32 (z : Z) : Z := (z + 2 ^ 31) mod 2 ^ 32 - 2 ^ 31.

(** [a | b] *)
Definition bitor (a b : Z) : Z := Z.lor (toInt32 a) (toInt32 b).

(** [~a] *)
Definition bitnot (a : Z) : Z := Z.lnot (toInt32 a).

(** ['' + n] for an integral number below 10^21 in magnitude: the
    decimal numeral, with a minus sign when negative. *)
Definition number_to_string (z : Z) : string :=
  NilEmpty.string_of_int (Z.to_int z).

(** [s.length], in code units; one [ascii] stands for one code unit. *)
Definition string_length (s : string) : Z := Z.of_nat (String.length s).

(** A value of type [A] where the source may also hold [undefined] or
    [null]. *)
Inductive jsval (A : Type) : Type :=
| undefined
| null
| object (a : A).
Arguments undefined {A}.
Arguments null {A}.
Arguments object {A} a.

(** [v != null]: false of both [null] and [undefined]. *)
Definition not_null {A} (v : jsval A) : bool :=
  match v with object _ => true | _ => false end.

(** [s.substring(from, to)]: both indices are clamped to the string and
    swapped when out of order. *)
Definition substring (s : string) (from to : Z) : string :=
  let clamp i := Z.max 0 (Z.min i (string_length s)) in
  let lo := Z.min (clamp from) (clamp to) in
  let hi := Z.max (clamp from) (clamp to) in
  String.substring (Z.to_nat lo) (Z.to_nat (hi - lo)) s.

(** [s.substr(from, n)]: [n] characters from [from], which counts from the
    end when negative. *)
Definition substr (s : string) (from n : Z) : string :=
  let start :=
    if from <? 0 then Z.max (string_length s + from) 0
    else Z.min from (string_length s) in
  let len := Z.max 0 (Z.min n (string_length s - start)) in
  String.substring (Z.to_nat start) (Z.to_nat len) s.

(** [s.indexOf(t)]: the index of the first occurrence, or -1. *)
Definition indexOf (s t : string) : Z :=
  match String.index 0 t s with
  | Some i => Z.of_nat i
  | None => -1
  end.

(** The errors the sources throw, with the fields they set. *)
#[warnings="-register-all"]
Inductive error : Type :=
| ArithmeticException (message : string)
| DateTimeException (message : string)
| DateTimeParseException
    (message : string) (text : string) (index : Z) (cause : option error)
| IllegalArgumentException (message : string)
| IllegalStateException (message : string)
| NullPointerException (message : string)
| TypeError (message : string).

(** How an evaluation ends: with a value, or abruptly by [throw]. *)
Inductive completion (A : Type) : Type :=
| Return (a : A)
| Throw (e : error).
Arguments Return {A} a.
Arguments Throw {A} e.

(** The methods with two index arguments that a string has, by property
    name.  Property names are case sensitive, and a name that
    [String.prototype] lacks evaluates to [undefined]. *)
Definition string_method (name : string)
    : option (string -> Z -> Z -> string) :=
  if String.eqb name "substring" then Some substring
  else if String.eqb name "substr" then Some substr
  else None.

(** [s.name(a, b)]: calling a property that is [undefined] throws a
    [TypeError]. *)
Definition invoke (s : string) (name : string) (a b : Z)
    : completion string :=
  match string_method name with
  | Some f => Return (f s a b)
  | None => Throw (TypeError ("text." +:+ name +:+ " is not a function"))
  end.

(** [x != null] for a value that may be [undefined]. *)
Definition defined {A} (x : option A) : bool :=
  match x with Some _ => true | None => false end.

(** [ex.message] *)
Definition message_of (e : error) : string :=
  match e with
  | ArithmeticException m | DateTimeException m
  | DateTimeParseException m _ _ _ | IllegalArgumentException m
  | IllegalStateException m | NullPointerException m
  | TypeError m => m
  end.

(** [ex instanceof DateTimeParseException] *)
Definition instanceof_DateTimeParseException (e : error) : bool :=
  match e with DateTimeParseException _ _ _ _ => true | _ => false end.

(** Sequencing of evaluations: a [throw] skips the rest. *)
#[global] Instance completion_ret : MRet completion := @Return.
#[global] Instance completion_bind : MBind completion :=
  fun A B f c => match c with Return a => f a | Throw e => Throw e end.
#[global] Instance completion_throw : MThrow error completion := @Throw.
#[global] Instance completion_fmap : FMap completion :=
  fun A B f c => match c with Return a => Return (f a) | Throw e => Throw e end.

(** Evaluations that also allocate or update objects thread a store of
    type [S]; a [throw] abandons the store of the aborted evaluation. *)
Definition eval (S A : Type) : Type := S -> completion (A * S).
#[global] Instance eval_ret {S} : MRet (eval S) :=
  fun A a st => Return (a, st).
#[global] Instance eval_bind {S} : MBind (eval S) :=
  fun A B f c st =>
    match c st with Return (a, st') => f a st' | Throw e => Throw e end.
#[global] Instance eval_throw {S} : MThrow error (eval S) :=
  fun A e st => Throw e.

(** A store-free evaluation run inside a stateful one. *)
Definition lift {S A} (c : completion A) : eval S A :=
  fun st => match c with Return a => Return (a, st) | Throw e => Throw e end.

End JS.
Import JS.

(** ** MathUtil

    [src/Period.js] imports [MathUtil], whose code is not available; the
    four functions of it that [Period] calls are taken as an interface.
    Each either returns an integer or throws. *)

Class MathUtil : Type := {
  safeToInt : Z -> completion Z;
  safeAdd : Z -> Z -> completion Z;
  safeMultiply : Z -> Z -> completion Z;
  parseInt : string -> completion Z
}.

(** The numbers of the [int] range of the documentation
    ("exceeds an int", "must parse to an int"). *)
Definition is_int (z : Z) : Prop := - 2 ^ 31 < z < 2 ^ 31.

(** The value of a signed decimal numeral [[-+]?[0-9]+]. *)
Definition numeral_value (s : string) : option Z :=
  match s with
  | EmptyString => None
  | String a s' =>
      if Ascii.eqb a "-" then
        match s' with
        | EmptyString => None
        | _ => (fun d => Z.opp (Z.of_uint d)) <$> NilEmpty.uint_of_string s'
        end
      else if Ascii.eqb a "+" then
        match s' with
        | EmptyString => None
        | _ => Z.of_uint <$> NilEmpty.uint_of_string s'
        end
      else Z.of_uint <$> NilEmpty.uint_of_string s
  end.

(** What the callers in [Period] rely on: inside the [int] range the safe
    operations are the plain ones, and [parseInt] reads a decimal numeral. *)
Class MathUtilContract (MU : MathUtil) : Prop := {
  safeToInt_int : forall v, is_int v -> safeToInt v = Return v;
  safeAdd_int : forall a b,
    is_int a -> is_int b -> is_int (a + b) -> safeAdd a b = Return (a + b);
  safeMultiply_int : forall a b,
    is_int a -> is_int b -> is_int (a * b) ->
    safeMultiply a b = Return (a * b);
  parseInt_numeral : forall s v,
    numeral_value s = Some v -> is_int v -> parseInt s = Return v
}.

(** ** Regular expressions

    The fragment of the JavaScript regular expressions that [PATTERN] of
    [src/Period.js] is written in, with the backtracking matcher of
    [RegExp.prototype.exec]: greedy quantifiers, alternatives tried in
    order, the first match from the left returned. *)

Module RegExp.

Inductive regex : Type :=
| Chr (c : ascii)                 (* a literal character *)
| Cls (cs : list ascii)           (* a character class [...] *)
| Seq (r1 r2 : regex)             (* r1 r2 *)
| Opt (r : regex)                 (* r? *)
| Plus (cs : list ascii)          (* [...]+ *)
| Grp (i : nat) (r : regex).      (* the i-th capturing group ( r ) *)

(** [matches[i]]: the captured text, absent ([undefined]) for a group that
    did not take part in the match. *)
Abbreviation captures := (gmap nat string).

Definition in_class (cs : list ascii) (c : ascii) : bool :=
  existsb (Ascii.eqb c) cs.

(** The characters of [s] consumed on the way to its suffix [s']. *)
Definition consumed (s s' : string) : string :=
  String.substring 0 (String.length s - String.length s') s.

Section Matcher.
Context {R : Type}.

(** [[...]*] then the continuation: the longest run first, backing off one
    character at a time while the continuation fails. *)
Fixpoint star (cs : list ascii) (s : string)
    (k : string -> option R) : option R :=
  match s with
  | String c s' =>
      if in_class cs c then
        match star cs s' k with
        | Some r => Some r
        | None => k s
        end
      else k s
  | EmptyString => k s
  end.

(** [m r s caps k]: match [r] at the head of [s], then the continuation [k]
    on the rest, backtracking into [r] when [k] fails. *)
Fixpoint m (r : regex) (s : string) (caps : captures)
    (k : string -> captures -> option R) : option R :=
  match r with
  | Chr c =>
      match s with
      | String c' s' => if Ascii.eqb c' c then k s' caps else None
      | EmptyString => None
      end
  | Cls cs =>
      match s with
      | String c' s' => if in_class cs c' then k s' caps else None
      | EmptyString => None
      end
  | Seq r1 r2 => m r1 s caps (fun s' caps' => m r2 s' caps' k)
  | Opt r1 =>
      match m r1 s caps k with
      | Some res => Some res
      | None => k s caps
      end
  | Plus cs =>
      match s with
      | String c' s' =>
          if in_class cs c' then star cs s' (fun s'' => k s'' caps) else None
      | EmptyString => None
      end
  | Grp i r1 =>
      m r1 s caps (fun s' caps' => k s' (<[i := consumed s s']> caps'))
  end.

End Matcher.

(** [r.exec(text)] for a regular expression without flags: the match is
    tried at index 0, 1, ... and the first success wins; [None] is the
    [null] result. *)
Fixpoint exec (r : regex) (text : string) : option captures :=
  match m r text ∅ (fun _ caps => Some caps) with
  | Some caps => Some caps
  | None =>
      match text with
      | String _ rest => exec r rest
      | EmptyString => None
      end
  end.

End RegExp.

(** ** Period ([src/Period.js]) *)

Module Period.
Import RegExp.

(** A [Period] object.  The three fields are written once, by the
    constructor or by [makeZeroPeriod], and never again, so an object is
    its identity [oid] (what [===] compares) and its fields. *)
Record period : Type := mk_period {
  oid : nat;
  _years : Z;
  _months : Z;
  _days : Z
}.

(** The store counts the objects allocated so far; the next one gets that
    number as its identity.  An object that is dropped again has used its
    number up. *)
Abbreviation store := nat.

(** [a === b] on objects. *)
Definition same (a b : period) : bool := Nat.eqb (oid a) (oid b).

(** [makeZeroPeriod()]: [Object.create(Period.prototype)] with the three
    fields set to 0. *)
Definition makeZeroPeriod : eval store period :=
  fun n => Return ({| oid := n; _years := 0; _months := 0; _days := 0 |}, S n).

(** [_init()] runs once, when the module is loaded, on the empty store. *)
Definition _init : completion (period * store) := makeZeroPeriod 0%nat.

(** [Period.ZERO], and the store that [_init] leaves. *)
Definition ZERO : period :=
  {| oid := 0; _years := 0; _months := 0; _days := 0 |}.
Definition initial_store : store := 1%nat.

(** A store of a program in which [_init] has run. *)
Definition initialised (st : store) : Prop := (initial_store <= st)%nat.

(** [/([-+]?)P(?:([-+]?[0-9]+)Y)?(?:([-+]?[0-9]+)M)?(?:([-+]?[0-9]+)W)?(?:([-+]?[0-9]+)D)?/] *)
Definition sign_class : list ascii := ["-"; "+"]%char.
Definition digit_class : list ascii :=
  ["0"; "1"; "2"; "3"; "4"; "5"; "6"; "7"; "8"; "9"]%char.
Definition part (i : nat) (suffix : ascii) : regex :=
  Opt (Seq (Grp i (Seq (Opt (Cls sign_class)) (Plus digit_class)))
           (Chr suffix)).
Definition PATTERN : regex :=
  Seq (Grp 1 (Opt (Cls sign_class)))
    (Seq (Chr "P")
       (Seq (part 2 "Y") (Seq (part 3 "M") (Seq (part 4 "W") (part 5 "D"))))).

Section WithMathUtil.
Context {MU : MathUtil}.

(** [Period._validate]; the three [requireNonNull] calls pass on numbers. *)
Definition _validate (years month days : Z) : completion unit :=
  safeToInt years ;; safeToInt month ;; safeToInt days ;; mret tt.

(** [new Period(years, months, days)]: [super()] has made the new object
    when the bitwise or of the arguments is tested.  When that is 0,
    [Period.ZERO] is returned in place of the new object, which is dropped;
    otherwise the arguments are validated and stored in the new object. *)
Definition new_Period (years months days : Z) : eval store period :=
  fun st =>
    if bitor (bitor years months) days =? 0 then Return (ZERO, S st)
    else
      _validate years months days ;;
      Return ({| oid := st; _years := years; _months := months;
                 _days := days |}, S st).

Definition create (years months days : Z) : eval store period :=
  new_Period years months days.

(** [Period.of] ([of] is a keyword here). *)
Definition of_ (years months days : Z) : eval store period :=
  create years months days.

Definition ofYears (years : Z) : eval store period := create years 0 0.

Definition ofMonths (months : Z) : eval store period := create 0 months 0.

Definition ofWeeks (weeks : Z) : eval store period :=
  days ← lift (safeMultiply weeks 7); create 0 0 days.

Definition ofDays (days : Z) : eval store period := create 0 0 days.

(** [_parseNumber(text, str, negate)]; [None] is an [undefined] group. *)
Definition _parseNumber (text : string) (str : option string) (negate : Z)
    : completion Z :=
  match str with
  | None => Return 0
  | Some str => val ← parseInt str; safeMultiply val negate
  end.

Definition _parse (text : string) : eval store period :=
  let failure :=
    mthrow (DateTimeParseException "Text cannot be parsed to a Period"
              text 0 None) in
  match exec PATTERN text with
  | Some matches =>
      let negate := if decide (matches !! 1%nat = Some "-") then -1 else 1 in
      let yearMatch := matches !! 2%nat in
      let monthMatch := matches !! 3%nat in
      let weekMatch := matches !! 4%nat in
      let dayMatch := matches !! 5%nat in
      if defined yearMatch || defined monthMatch
         || defined weekMatch || defined dayMatch
      then
        years ← lift (_parseNumber text yearMatch negate);
        months ← lift (_parseNumber text monthMatch negate);
        weeks ← lift (_parseNumber text weekMatch negate);
        days ← lift (_parseNumber text dayMatch negate);
        weekDays ← lift (safeMultiply weeks 7);
        days ← lift (safeAdd days weekDays);
        create years months days
      else failure
  | None => failure
  end.

(** [Period.parse]: an [ArithmeticException] of [_parse] is wrapped, any
    other error is thrown on. *)
Definition parse (text : string) : eval store period :=
  fun st =>
    match _parse text st with
    | Throw (ArithmeticException msg) =>
        Throw (DateTimeParseException "Text cannot be parsed to a Period"
                 text 0 (Some (ArithmeticException msg)))
    | res => res
    end.

End WithMathUtil.

Definition isZero (this : period) : bool := same this ZERO.

Definition years (this : period) : Z := _years this.
Definition months (this : period) : Z := _months this.
Definition days (this : period) : Z := _days this.

(** [equals(obj)] for an [obj] that is a [Period]. *)
Definition equals (this obj : period) : bool :=
  if same this obj then true
  else (_years this =? _years obj) && (_months this =? _months obj)
       && (_days this =? _days obj).

Definition toString (this : period) : string :=
  if same this ZERO then "P0D"
  else
    let buf := "P" in
    let buf :=
      if negb (_years this =? 0)
      then buf +:+ number_to_string (_years this) +:+ "Y" else buf in
    let buf :=
      if negb (_months this =? 0)
      then buf +:+ number_to_string (_months this) +:+ "M" else buf in
    let buf :=
      if negb (_days this =? 0)
      then buf +:+ number_to_string (_days this) +:+ "D" else buf in
    buf.

End Period.

(** A [MathUtil] that checks the [int] range, for running the embedding
    on concrete inputs. *)
Definition checked_int (what : string) (z : Z) : completion Z :=
  if (- 2 ^ 31 <? z) && (z <? 2 ^ 31) then Return z
  else Throw (ArithmeticException what).

Definition int_MathUtil : MathUtil := {|
  safeToInt := checked_int "Calculation overflows an int";
  safeAdd := fun a b => checked_int "Invalid addition beyond an int" (a + b);
  safeMultiply :=
    fun a b => checked_int "Multiplication overflows an int" (a * b);
  parseInt := fun s =>
    match numeral_value s with
    | Some v => checked_int "Calculation overflows an int" v
    | None => Throw (ArithmeticException "Invalid int value")
    end
|}.

(** ** DateTimeFormatter ([src/unnamed/part_000])

    The class works on objects of classes that it imports: the
    printer-parser tree, the parse context, the parsed fields, the
    [DateTimeBuilder] and the chronology.  They are taken as an interface,
    [Collaborators]; the engine modelled further down is one instance. *)

Class Types : Type := {
  PrinterParser : Type;
  Locale : Type;
  DecimalStyle : Type;
  ResolverStyle : Type;
  ResolverFields : Type;
  Chronology : Type;
  Zone : Type;
  ParseContext : Type;       (* DateTimeParseContext *)
  Parsed : Type;             (* what [context.toParsed()] returns *)
  DateTimeBuilder : Type;
  Resolved : Type;           (* what [builder.build(type)] returns *)
  Query : Type;              (* TemporalQuery *)
  OtherTemporal : Type       (* temporal objects other than DateTimeBuilder *)
}.

(** Modelled from the spec: [ParsePosition] (its file is missing), section
    6, "Mutable cursor object with index: usize and errorIndex: isize (-1
    when unset)". *)
Record ParsePosition : Type := {
  index : Z;
  errorIndex : Z
}.

(** Modelled from the spec: [new ParsePosition(index)], the error index
    unset. *)
Definition new_ParsePosition (i : Z) : ParsePosition :=
  {| index := i; errorIndex := -1 |}.

(** Modelled from the spec: the accessors of the cursor, which
    [DateTimeFormatter] calls; a setter gives the object after the call. *)
Definition getIndex (p : ParsePosition) : Z := index p.
Definition getErrorIndex (p : ParsePosition) : Z := errorIndex p.
Definition setIndex (p : ParsePosition) (i : Z) : ParsePosition :=
  {| index := i; errorIndex := errorIndex p |}.
Definition setErrorIndex (p : ParsePosition) (e : Z) : ParsePosition :=
  {| index := index p; errorIndex := e |}.

Module DateTimeFormatter.

Section Class.
Context {T : Types}.

(** The fields that the constructor sets. *)
Record formatter : Type := {
  _printerParser : PrinterParser;
  _locale : Locale;
  _decimalStyle : DecimalStyle;
  _resolverStyle : ResolverStyle;
  _resolverFields : jsval ResolverFields;
  _chrono : jsval Chronology;
  _zone : jsval Zone
}.

(** A temporal object, as the two queries look at it. *)
Inductive temporal : Type :=
| a_DateTimeBuilder (b : DateTimeBuilder)
| another (t : OtherTemporal).

(** [temporal instanceof DateTimeBuilder] *)
Definition instanceof_DateTimeBuilder (t : temporal) : bool :=
  match t with a_DateTimeBuilder _ => true | another _ => false end.

Class Collaborators : Type := {
  (** [printerParser.parse(context, text, pos)]: the position reached, or
      the complement of the error position; the context is updated *)
  pp_parse : PrinterParser -> ParseContext -> string -> Z ->
             completion (ParseContext * Z);
  (** [printerParser.toString()] *)
  pp_toString : PrinterParser -> string;
  (** [new DateTimeParseContext(formatter)] *)
  new_DateTimeParseContext : formatter -> ParseContext;
  (** [context.toParsed()] *)
  toParsed : ParseContext -> Parsed;
  (** [parsed.toBuilder()] *)
  toBuilder : Parsed -> DateTimeBuilder;
  (** [builder.resolve(resolverStyle, resolverFields)] *)
  resolve : DateTimeBuilder -> ResolverStyle -> jsval ResolverFields ->
            completion DateTimeBuilder;
  (** [builder.build(type)] *)
  build : DateTimeBuilder -> Query -> completion Resolved;
  (** the fields [excessDays] and [leapSecond] of a [DateTimeBuilder] *)
  excessDays : DateTimeBuilder -> jsval Period.period;
  leapSecond : DateTimeBuilder -> jsval bool
}.

(** [IsoChronology.INSTANCE] and [chronology.equals(other)] *)
Class Chronologies : Type := {
  IsoChronology_INSTANCE : Chronology;
  chrono_equals : Chronology -> jsval Chronology -> bool
}.

Context {C : Collaborators} {CH : Chronologies}.

(** *** Construction, on a heap of formatters *)

(** Formatter objects live in a heap; a reference is a key of it. *)
Abbreviation ref := positive.
Abbreviation heap := (gmap positive formatter).

(** [new DateTimeFormatter(printerParser, locale, decimalStyle,
    resolverStyle, resolverFields, chrono = IsoChronology.INSTANCE, zone)]:
    the default stands in for a [chrono] that is [undefined]; the three
    asserts pass, their arguments being objects.  The fields are written
    to a fresh object. *)
Definition constructor (printerParser : PrinterParser) (locale : Locale)
    (decimalStyle : DecimalStyle) (resolverStyle : ResolverStyle)
    (resolverFields : jsval ResolverFields) (chrono : jsval Chronology)
    (zone : jsval Zone) : formatter :=
  let chrono :=
    match chrono with
    | undefined => object IsoChronology_INSTANCE
    | _ => chrono
    end in
  {| _printerParser := printerParser; _locale := locale;
     _decimalStyle := decimalStyle; _resolverStyle := resolverStyle;
     _resolverFields := resolverFields; _chrono := chrono; _zone := zone |}.

Definition new_DateTimeFormatter (h : heap) (printerParser : PrinterParser)
    (locale : Locale) (decimalStyle : DecimalStyle)
    (resolverStyle : ResolverStyle) (resolverFields : jsval ResolverFields)
    (chrono : jsval Chronology) (zone : jsval Zone) : ref * heap :=
  let r := fresh (dom h) in
  (r, <[r := constructor printerParser locale decimalStyle resolverStyle
               resolverFields chrono zone]> h).

(** [this._chrono != null && this._chrono.equals(chrono)] *)
Definition same_chronology (this : formatter) (chrono : jsval Chronology)
    : bool :=
  match _chrono this with
  | object c => chrono_equals c chrono
  | _ => false
  end.

(** [withChronology(chrono)], called on the object at [this]; [None] when
    [this] is not an object of the heap. *)
Definition withChronology (h : heap) (this : ref) (chrono : jsval Chronology)
    : option (ref * heap) :=
  o ← h !! this;
  if same_chronology o chrono then Some (this, h)
  else Some (new_DateTimeFormatter h (_printerParser o) (_locale o)
               (_decimalStyle o) (_resolverStyle o) (_resolverFields o)
               chrono (_zone o)).

(** [withLocal()] *)
Definition withLocal (h : heap) (this : ref) : ref * heap := (this, h).

Definition locale (this : formatter) : Locale := _locale this.
Definition decimalStyle (this : formatter) : DecimalStyle :=
  _decimalStyle this.
Definition chronology (this : formatter) : jsval Chronology := _chrono this.

(** *** Parsing *)

(** [_parseUnresolved0(text, position)]: the two asserts pass, [text] and
    [position] being objects.  The result is what is returned ([None] for
    [null]) and the position object as the call leaves it. *)
Definition _parseUnresolved0 (this : formatter) (text : string)
    (position : ParsePosition) : completion (option Parsed * ParsePosition) :=
  let context := new_DateTimeParseContext this in
  let pos := getIndex position in
  '(context, pos) ← pp_parse (_printerParser this) context text pos;
  if pos <? 0 then
    Return (None, setErrorIndex position (bitnot pos))
  else
    Return (Some (toParsed context), setIndex position pos).

Definition parseUnresolved (this : formatter) (text : string)
    (position : ParsePosition) : completion (option Parsed * ParsePosition) :=
  _parseUnresolved0 this text position.

(** The text as the two error messages quote it; [how] is the method that
    the source calls to cut a long text. *)
Definition abbreviate (how : string) (text : string) : completion string :=
  if string_length text >? 64 then
    head ← invoke text how 0 64; Return (head +:+ "...")
  else Return text.

(** [_parseToBuilder(text, position)], with [None] for a [position] that
    is [null]. *)
Definition _parseToBuilder (this : formatter) (text : string)
    (position : option ParsePosition)
    : completion (DateTimeBuilder * ParsePosition) :=
  let pos :=
    match position with Some p => p | None => new_ParsePosition 0 end in
  '(result, pos) ← _parseUnresolved0 this text pos;
  if negb (defined result) || (getErrorIndex pos >=? 0)
     || (negb (defined position) && (getIndex pos <? string_length text))
  then
    abbr ← abbreviate "substr" text;
    if getErrorIndex pos >=? 0 then
      Throw (DateTimeParseException
               ("Text '" +:+ abbr +:+ "' could not be parsed at index "
                +:+ number_to_string (getErrorIndex pos))
               text (getErrorIndex pos) None)
    else
      Throw (DateTimeParseException
               ("Text '" +:+ abbr
                +:+ "' could not be parsed, unparsed text found at index "
                +:+ number_to_string (getIndex pos))
               text (getIndex pos) None)
  else
    match result with
    | Some parsed => Return (toBuilder parsed, pos)
    | None => Throw (TypeError "result is null")
    end.

(** [_createError(text, ex)] *)
Definition _createError (text : string) (ex : error) : completion error :=
  abbr ← abbreviate "subString" text;
  Return (DateTimeParseException
            ("Text '" +:+ abbr +:+ "' could not be parsed: "
             +:+ message_of ex)
            text 0 (Some ex)).

(** The [catch] clause that [parse1] and [parse2] share: a
    [DateTimeParseException] is thrown on, any other error is replaced by
    what [_createError] makes of it. *)
Definition rethrow {A} (text : string) (c : completion A) : completion A :=
  match c with
  | Return a => Return a
  | Throw ex =>
      if instanceof_DateTimeParseException ex then Throw ex
      else e ← _createError text ex; Throw e
  end.

(** [parse1(text)]: the [requireNonNull] in front of the [try] passes,
    [text] being a string. *)
Definition parse1 (this : formatter) (text : string)
    : completion DateTimeBuilder :=
  rethrow text
    ('(builder, _) ← _parseToBuilder this text None;
     resolve builder (_resolverStyle this) (_resolverFields this)).

(** [parse2(text, type)]: the two [requireNonNull] in front of the [try]
    pass, [text] being a string and [type] an object. *)
Definition parse2 (this : formatter) (text : string) (type : Query)
    : completion Resolved :=
  rethrow text
    ('(builder, _) ← _parseToBuilder this text None;
     builder ← resolve builder (_resolverStyle this) (_resolverFields this);
     build builder type).

(** [parse(text, type)]: [parse1] when called with one argument. *)
Definition parse (this : formatter) (text : string) (type : option Query)
    : completion (DateTimeBuilder + Resolved) :=
  match type with
  | None => inl <$> parse1 this text
  | Some type => inr <$> parse2 this text type
  end.

(** *** Printing the formatter *)

Definition toString (this : formatter) : string :=
  let pattern := pp_toString (_printerParser this) in
  if indexOf pattern "[" =? 0 then pattern
  else substring pattern 1 (string_length pattern - 1).

(** *** The two queries *)

(** The functions given to [createTemporalQuery] in [_init]. *)
Definition PARSED_EXCESS_DAYS (t : temporal) : jsval Period.period :=
  match t with
  | a_DateTimeBuilder b => excessDays b
  | another _ => object Period.ZERO
  end.

Definition PARSED_LEAP_SECOND (t : temporal) : jsval bool :=
  match t with
  | a_DateTimeBuilder b => leapSecond b
  | another _ => object false
  end.

Definition parsedExcessDays : temporal -> jsval Period.period :=
  PARSED_EXCESS_DAYS.

Definition parsedLeapSecond : temporal -> jsval bool :=
  PARSED_LEAP_SECOND.

End Class.

Abbreviation ref := positive.
Abbreviation heap := (gmap positive formatter).

End DateTimeFormatter.

(** ** The printer-parser engine

    The code of [DateTimeFormatterBuilder] and of the classes of its tree
    is not available; the tests of the builder are.  This module models
    them from the specification, for the node kinds that the properties
    below exercise: literals, numeric values, reduced values, the two
    parse settings, and composites with their optional form. *)

Module Engine.

(** Modelled from the spec: the field registry ([ChronoField] is missing),
    section 3, "Field. Identified by a stable name"; the names are the
    ones in the expected texts of the builder tests. *)
Inductive ChronoField : Type :=
| YEAR | YEAR_OF_ERA | MONTH_OF_YEAR | DAY_OF_MONTH | DAY_OF_YEAR
| DAY_OF_WEEK | ALIGNED_DAY_OF_WEEK_IN_MONTH | HOUR_OF_DAY
| CLOCK_HOUR_OF_DAY | HOUR_OF_AMPM | CLOCK_HOUR_OF_AMPM | MINUTE_OF_HOUR
| SECOND_OF_MINUTE | NANO_OF_SECOND | NANO_OF_DAY | MILLI_OF_DAY
| QUARTER_OF_YEAR.

Definition field_name (f : ChronoField) : string :=
  match f with
  | YEAR => "Year" | YEAR_OF_ERA => "YearOfEra"
  | MONTH_OF_YEAR => "MonthOfYear" | DAY_OF_MONTH => "DayOfMonth"
  | DAY_OF_YEAR => "DayOfYear" | DAY_OF_WEEK => "DayOfWeek"
  | ALIGNED_DAY_OF_WEEK_IN_MONTH => "AlignedDayOfWeekInMonth"
  | HOUR_OF_DAY => "HourOfDay" | CLOCK_HOUR_OF_DAY => "ClockHourOfDay"
  | HOUR_OF_AMPM => "HourOfAmPm" | CLOCK_HOUR_OF_AMPM => "ClockHourOfAmPm"
  | MINUTE_OF_HOUR => "MinuteOfHour" | SECOND_OF_MINUTE => "SecondOfMinute"
  | NANO_OF_SECOND => "NanoOfSecond" | NANO_OF_DAY => "NanoOfDay"
  | MILLI_OF_DAY => "MilliOfDay" | QUARTER_OF_YEAR => "QuarterOfYear"
  end.

#[global] Instance ChronoField_eq_dec : EqDecision ChronoField.
Proof. solve_decision. Defined.

Definition field_code (f : ChronoField) : nat :=
  match f with
  | YEAR => 0 | YEAR_OF_ERA => 1 | MONTH_OF_YEAR => 2 | DAY_OF_MONTH => 3
  | DAY_OF_YEAR => 4 | DAY_OF_WEEK => 5 | ALIGNED_DAY_OF_WEEK_IN_MONTH => 6
  | HOUR_OF_DAY => 7 | CLOCK_HOUR_OF_DAY => 8 | HOUR_OF_AMPM => 9
  | CLOCK_HOUR_OF_AMPM => 10 | MINUTE_OF_HOUR => 11 | SECOND_OF_MINUTE => 12
  | NANO_OF_SECOND => 13 | NANO_OF_DAY => 14 | MILLI_OF_DAY => 15
  | QUARTER_OF_YEAR => 16
  end%nat.

Definition field_of_code (n : nat) : ChronoField :=
  match n with
  | 0 => YEAR | 1 => YEAR_OF_ERA | 2 => MONTH_OF_YEAR | 3 => DAY_OF_MONTH
  | 4 => DAY_OF_YEAR | 5 => DAY_OF_WEEK | 6 => ALIGNED_DAY_OF_WEEK_IN_MONTH
  | 7 => HOUR_OF_DAY | 8 => CLOCK_HOUR_OF_DAY | 9 => HOUR_OF_AMPM
  | 10 => CLOCK_HOUR_OF_AMPM | 11 => MINUTE_OF_HOUR | 12 => SECOND_OF_MINUTE
  | 13 => NANO_OF_SECOND | 14 => NANO_OF_DAY | 15 => MILLI_OF_DAY
  | _ => QUARTER_OF_YEAR
  end%nat.

#[global] Instance ChronoField_countable : Countable ChronoField.
Proof.
  apply (inj_countable' field_code field_of_code). now intros [].
Defined.

(** Modelled from the spec: section 3, "signStyle in {NEVER, NORMAL,
    ALWAYS, EXCEEDS_PAD, NOT_NEGATIVE}". *)
Inductive SignStyle : Type :=
| NORMAL | ALWAYS | NEVER | NOT_NEGATIVE | EXCEEDS_PAD.

#[global] Instance SignStyle_eq_dec : EqDecision SignStyle.
Proof. solve_decision. Defined.

Definition sign_style_name (s : SignStyle) : string :=
  match s with
  | NORMAL => "NORMAL" | ALWAYS => "ALWAYS" | NEVER => "NEVER"
  | NOT_NEGATIVE => "NOT_NEGATIVE" | EXCEEDS_PAD => "EXCEEDS_PAD"
  end.

(** Modelled from the spec: the base of a reduced value, section 4.1,
    "baseValue|baseDate": a number, or a date whose year is the base. *)
Inductive reduced_base : Type :=
| BaseValue (v : Z)
| BaseDate (year month day : Z).

Definition base_year (b : reduced_base) : Z :=
  match b with BaseValue v => v | BaseDate y _ _ => y end.

(** Modelled from the spec: the printer-parser nodes (the classes of the
    tree are missing), section 3.  [Value] carries the total width of the
    fixed-width values that follow it, the mark of section 4.1; the
    Optional of the spec is the composite whose flag is set. *)
#[warnings="-register-all"]
Inductive node : Type :=
| Literal (literal : string)
| Value (field : ChronoField) (minWidth maxWidth : nat)
        (signStyle : SignStyle) (subsequentWidth : nat)
| ReducedValue (field : ChronoField) (width maxWidth : nat)
               (base : reduced_base)
| ParseCaseSensitive (caseSensitive : bool)
| ParseStrict (strict : bool)
| Composite (nodes : list node) (optional : bool).

(** *** Parse context *)

(** Modelled from the spec: the parse context ([DateTimeParseContext] is
    missing), section 2, "case-sensitivity flag, strict flag, ... and a
    stack of partial binding frames (for optional-group rollback)"; a frame
    is a binding set, section 3. *)
Record context : Type := {
  caseSensitive : bool;
  strict : bool;
  frames : list (gmap ChronoField Z)
}.

(** Modelled from the spec: the context of a parse that starts (strict
    mode is the default, section 4.4), with one empty binding frame. *)
Definition new_context : context :=
  {| caseSensitive := true; strict := true; frames := [∅] |}.

Definition currentParsed (ctx : context) : gmap ChronoField Z :=
  match frames ctx with
  | top :: _ => top
  | [] => ∅
  end.

Definition toParsed (ctx : context) : gmap ChronoField Z := currentParsed ctx.

Definition setCaseSensitive (ctx : context) (b : bool) : context :=
  {| caseSensitive := b; strict := strict ctx; frames := frames ctx |}.

Definition setStrict (ctx : context) (b : bool) : context :=
  {| caseSensitive := caseSensitive ctx; strict := b; frames := frames ctx |}.

(** Modelled from the spec: entering an optional group, section 4.4, "the
    context snapshots its binding-frame stack": a copy of the current
    frame is pushed. *)
Definition startOptional (ctx : context) : context :=
  {| caseSensitive := caseSensitive ctx; strict := strict ctx;
     frames := currentParsed ctx :: frames ctx |}.

(** Modelled from the spec: leaving an optional group, "on failure the
    snapshot is restored": on success the copy replaces the frame below,
    on failure it is dropped and the frame below is current again. *)
Definition endOptional (ctx : context) (successful : bool) : context :=
  {| caseSensitive := caseSensitive ctx; strict := strict ctx;
     frames :=
       match frames ctx with
       | top :: below :: rest => if successful then top :: rest
                                 else below :: rest
       | other => other
       end |}.

(** Modelled from the spec: binding a field ([setParsedField] is missing),
    section 4.4, "Duplicate field. If a field is already bound and the new
    value differs, error at the current position; if identical,
    accepted." *)
Definition setParsedField (ctx : context) (field : ChronoField) (value : Z)
    (errorPos successPos : Z) : context * Z :=
  match currentParsed ctx !! field with
  | Some old =>
      if old =? value then (ctx, successPos) else (ctx, bitnot errorPos)
  | None =>
      ({| caseSensitive := caseSensitive ctx; strict := strict ctx;
          frames := <[field := value]> (currentParsed ctx)
                    :: tail (frames ctx) |},
       successPos)
  end.

(** *** Parsing

    Modelled from the spec: the parse methods of the nodes (missing),
    section 4.4.  A node gets the context, the text and a position, and
    gives back the position reached, or the bitwise complement of the
    position of the error. *)

(** The text from position [n] on. *)
Fixpoint skip (n : nat) (s : string) : string :=
  match n, s with
  | O, _ => s
  | S n', String _ s' => skip n' s'
  | S _, EmptyString => EmptyString
  end.

Definition digit_value (c : ascii) : option Z :=
  let n := Z.of_nat (nat_of_ascii c) in
  if (48 <=? n) && (n <=? 57) then Some (n - 48) else None.

(** The length of the run of digits at the head of [s], up to [limit]. *)
Fixpoint digit_run (limit : nat) (s : string) : nat :=
  match limit, s with
  | S limit', String c s' =>
      match digit_value c with
      | Some _ => S (digit_run limit' s')
      | None => O
      end
  | _, _ => O
  end.

(** The number that the first [n] characters of [s] write, after [acc]. *)
Fixpoint digits_value (n : nat) (s : string) (acc : Z) : Z :=
  match n, s with
  | S n', String c s' =>
      match digit_value c with
      | Some d => digits_value n' s' (acc * 10 + d)
      | None => acc
      end
  | _, _ => acc
  end.

Definition lower (c : ascii) : ascii :=
  let n := nat_of_ascii c in
  if (65 <=? n)%nat && (n <=? 90)%nat then ascii_of_nat (n + 32) else c.

Definition char_matches (caseSensitive : bool) (a b : ascii) : bool :=
  if caseSensitive then Ascii.eqb a b else Ascii.eqb (lower a) (lower b).

(** [literal] is at the head of [s]. *)
Fixpoint literal_at (caseSensitive : bool) (literal s : string) : bool :=
  match literal, s with
  | EmptyString, _ => true
  | String a l', String b s' =>
      char_matches caseSensitive a b && literal_at caseSensitive l' s'
  | String _ _, EmptyString => false
  end.

(** Modelled from the spec: the parse method of a literal, section 4.4,
    "Case sensitivity. Literal matching ... honour[s] the current
    case-sensitivity flag." *)
Definition parse_Literal (literal : string) (ctx : context) (text : string)
    (position : Z) : context * Z :=
  if literal_at (caseSensitive ctx) literal (skip (Z.to_nat position) text)
  then (ctx, position + string_length literal)
  else (ctx, bitnot position).

(** Modelled from the spec: the signs that a value takes, section 4.4,
    "Sign handling for V0 obeys its signStyle", read off the printer of
    section 4.3: a minus sign is taken where the printer writes one, a plus
    sign where it writes one ([ALWAYS], and [EXCEEDS_PAD] when the digits
    exceed the minimum width), and a sign is demanded where the printer
    always writes one. *)
Definition takes_minus (s : SignStyle) : bool :=
  match s with NORMAL | ALWAYS | EXCEEDS_PAD => true | _ => false end.

Definition takes_plus (s : SignStyle) : bool :=
  match s with ALWAYS | EXCEEDS_PAD => true | _ => false end.

(** Modelled from the spec: the parse method of a value, section 4.4,
    "Subsequent-width / adjacent-value parsing", steps 1 to 4, for the
    value [V0] at cursor [position] with [subsequentWidth] the total width
    [F] of the fixed-width values after it (0 when there are none):
    the run of digits is scanned over up to [maxWidth + F] characters; a
    run shorter than [minWidth + F] is an error at the cursor; [V0] takes
    the run less [F]. *)
Definition parse_Value (field : ChronoField) (minWidth maxWidth : nat)
    (signStyle : SignStyle) (subsequentWidth : nat)
    (ctx : context) (text : string) (position : Z) : context * Z :=
  let failure := (ctx, bitnot position) in
  match skip (Z.to_nat position) text with
  | EmptyString => failure
  | String c after =>
      let negative := Ascii.eqb c "-" in
      let positive := Ascii.eqb c "+" in
      let signed := negative || positive in
      let sign_ok :=
        if negative then takes_minus signStyle
        else if positive then takes_plus signStyle
        else negb (bool_decide (signStyle = ALWAYS)) in
      let digits := if signed then after else String c after in
      let start := if signed then position + 1 else position in
      let run := digit_run (maxWidth + subsequentWidth) digits in
      if negb sign_ok then failure
      else if (run <? minWidth + subsequentWidth)%nat then failure
      else
        let taken := (run - subsequentWidth)%nat in
        let magnitude := digits_value taken digits 0 in
        let exceeds := (minWidth <? taken)%nat in
        if bool_decide (signStyle = EXCEEDS_PAD) && positive && negb exceeds
        then failure
        else if bool_decide (signStyle = EXCEEDS_PAD) && negb signed && exceeds
        then failure
        else
          setParsedField ctx field
            (if negative then - magnitude else magnitude)
            position (start + Z.of_nat taken)
  end.

(** Modelled from the spec: the parse method of a reduced value, section
    4.4, "Reduced value parsing. Consumes exactly [width] digits. Let [d] be
    the parsed unsigned integer. Let [base = baseValue] (or the year of
    [baseDate]). Compute the base cycle [C = base - (base mod 10^width)]
    and set the candidate [v = C + d]. If [v < base], add [10^width]." *)
Definition reduced_value (width : nat) (base d : Z) : Z :=
  let range := 10 ^ Z.of_nat width in
  let cycle := base - base mod range in
  let v := cycle + d in
  if v <? base then v + range else v.

(** Modelled from the spec: as above, "Consumes exactly [width] digits";
    fewer digits at the cursor are an error there. *)
Definition parse_ReducedValue (field : ChronoField) (width maxWidth : nat)
    (base : reduced_base) (ctx : context) (text : string) (position : Z)
    : context * Z :=
  let digits := skip (Z.to_nat position) text in
  if (digit_run width digits <? width)%nat then (ctx, bitnot position)
  else
    setParsedField ctx field
      (reduced_value width (base_year base) (digits_value width digits 0))
      position (position + Z.of_nat width).

(** Modelled from the spec: the tree walk, section 4.4, "a cursor-returning
    tree walk".  A composite runs its nodes in order and stops at the
    first failure.  "Optional groups. Evaluated speculatively: ... on
    failure the snapshot is restored and the Optional reports success at
    the entry position." *)
Fixpoint parse (n : node) (ctx : context) (text : string) (position : Z)
    {struct n} : context * Z :=
  match n with
  | Literal literal => parse_Literal literal ctx text position
  | Value field minWidth maxWidth signStyle subsequentWidth =>
      parse_Value field minWidth maxWidth signStyle subsequentWidth
        ctx text position
  | ReducedValue field width maxWidth base =>
      parse_ReducedValue field width maxWidth base ctx text position
  | ParseCaseSensitive b => (setCaseSensitive ctx b, position)
  | ParseStrict b => (setStrict ctx b, position)
  | Composite nodes optional =>
      let fix sequence (ns : list node) (ctx : context) (pos : Z)
          : context * Z :=
        match ns with
        | [] => (ctx, pos)
        | n' :: ns' =>
            let '(ctx', pos') := parse n' ctx text pos in
            if pos' <? 0 then (ctx', pos') else sequence ns' ctx' pos'
        end in
      if optional then
        let '(ctx', pos') := sequence nodes (startOptional ctx) position in
        if pos' <? 0 then (endOptional ctx' false, position)
        else (endOptional ctx' true, pos')
      else sequence nodes ctx position
  end.

(** *** Pretty-printing

    Modelled from the spec: the [toString] methods of the nodes (missing),
    section 4.6: "literals in single quotes (doubling internal
    apostrophes), values as Value(Field[,min[,max,Style]]), reduced as
    ReducedValue(Field,w,max,base), ... optional as [inner], context
    modifiers as ParseCaseSensitive(bool) / ParseStrict(bool)".  A
    composite that is not optional is written in round brackets: the
    "outer composite brackets" that the formatter strips.  The builder
    tests expect [''] for the literal that is one apostrophe. *)

Fixpoint double_apostrophes (s : string) : string :=
  match s with
  | EmptyString => EmptyString
  | String c s' =>
      if Ascii.eqb c "'" then String "'" (String "'" (double_apostrophes s'))
      else String c (double_apostrophes s')
  end.

Definition nat_to_string (n : nat) : string := number_to_string (Z.of_nat n).

(** A number of a date, with zeros in front up to [width] characters. *)
Definition zero_padded (width : nat) (v : Z) : string :=
  let text := number_to_string v in
  String.concat "" (replicate (width - String.length text) "0") +:+ text.

Definition base_toString (b : reduced_base) : string :=
  match b with
  | BaseValue v => number_to_string v
  | BaseDate y mo d =>
      zero_padded 4 y +:+ "-" +:+ zero_padded 2 mo +:+ "-" +:+ zero_padded 2 d
  end.

Definition bool_toString (b : bool) : string :=
  if b then "true" else "false".

(** Modelled from the spec: the widest numeric value, section 4.1, "both
    in [1,15]". *)
Definition MAX_WIDTH : nat := 15.

(** Modelled from the spec: [toString] of a node, section 4.6, as
    described at the head of this part. *)
Fixpoint toString (n : node) : string :=
  match n with
  | Literal literal =>
      if decide (literal = "'") then "''"
      else "'" +:+ double_apostrophes literal +:+ "'"
  | Value field minWidth maxWidth signStyle _ =>
      if (minWidth =? 1)%nat && (maxWidth =? MAX_WIDTH)%nat
         && bool_decide (signStyle = NORMAL)
      then "Value(" +:+ field_name field +:+ ")"
      else if (minWidth =? maxWidth)%nat
              && bool_decide (signStyle = NOT_NEGATIVE)
      then "Value(" +:+ field_name field +:+ "," +:+ nat_to_string minWidth
           +:+ ")"
      else "Value(" +:+ field_name field +:+ "," +:+ nat_to_string minWidth
           +:+ "," +:+ nat_to_string maxWidth +:+ ","
           +:+ sign_style_name signStyle +:+ ")"
  | ReducedValue field width maxWidth base =>
      "ReducedValue(" +:+ field_name field +:+ "," +:+ nat_to_string width
      +:+ "," +:+ nat_to_string maxWidth +:+ "," +:+ base_toString base
      +:+ ")"
  | ParseCaseSensitive b => "ParseCaseSensitive(" +:+ bool_toString b +:+ ")"
  | ParseStrict b => "ParseStrict(" +:+ bool_toString b +:+ ")"
  | Composite nodes optional =>
      let fix all (ns : list node) : string :=
        match ns with
        | [] => ""
        | n' :: ns' => toString n' +:+ all ns'
        end in
      (if optional then "[" else "(") +:+ all nodes
      +:+ (if optional then "]" else ")")
  end.

(** *** The engine as the formatter's collaborators *)

(** Modelled from the spec: "Resolver style: ... (STRICT | SMART |
    LENIENT)". *)
Inductive resolver_style : Type := STRICT | SMART | LENIENT.

(** Modelled from the spec: the [DateTimeBuilder] (missing), the binding
    set with its side channels for the excess days and the leap second,
    both unset in a builder fresh from a parse. *)
Record builder_object : Type := {
  fieldValues : gmap ChronoField Z;
  builder_excessDays : jsval Period.period;
  builder_leapSecond : jsval bool
}.

#[global] Instance types : Types := {|
  PrinterParser := node;
  Locale := unit;
  DecimalStyle := unit;
  ResolverStyle := resolver_style;
  ResolverFields := list ChronoField;
  Chronology := unit;
  Zone := unit;
  ParseContext := context;
  Parsed := gmap ChronoField Z;
  DateTimeBuilder := builder_object;
  Resolved := gmap ChronoField Z;
  Query := unit;
  OtherTemporal := unit
|}.

(** Modelled from the spec: the objects around a parse, section 4.5: the
    parsed bindings become the builder, and [build] hands out its
    bindings.  The resolver is outside the engine (section 1), and is a
    parameter. *)
Definition collaborators
    (resolver : builder_object -> resolver_style -> jsval (list ChronoField) ->
                completion builder_object)
    : @DateTimeFormatter.Collaborators types := {|
  DateTimeFormatter.pp_parse :=
    fun pp ctx text pos => Return (parse pp ctx text pos);
  DateTimeFormatter.pp_toString := toString;
  DateTimeFormatter.new_DateTimeParseContext := fun _ => new_context;
  DateTimeFormatter.toParsed := toParsed;
  DateTimeFormatter.toBuilder := fun parsed =>
    {| fieldValues := parsed; builder_excessDays := null;
       builder_leapSecond := null |};
  DateTimeFormatter.resolve := resolver;
  DateTimeFormatter.build := fun b _ => Return (fieldValues b);
  DateTimeFormatter.excessDays := builder_excessDays;
  DateTimeFormatter.leapSecond := builder_leapSecond
|}.

(** One chronology, the ISO one. *)
#[global] Instance chronologies : @DateTimeFormatter.Chronologies types := {|
  DateTimeFormatter.IsoChronology_INSTANCE := tt;
  DateTimeFormatter.chrono_equals := fun _ other => not_null other
|}.

(** Modelled from the spec: the one thing it says of the resolver's
    results, section 8, that "2012-13-01" under the STRICT resolver raises
    an error: a month-of-year outside 1..12 is rejected, all else is let
    through. *)
Definition month_resolver (b : builder_object) (style : resolver_style)
    (fields : jsval (list ChronoField)) : completion builder_object :=
  match style, fieldValues b !! MONTH_OF_YEAR with
  | STRICT, Some month =>
      if (1 <=? month) && (month <=? 12) then Return b
      else Throw (DateTimeException
                    ("Invalid value for MonthOfYear: "
                     +:+ number_to_string month))
  | _, _ => Return b
  end.

(** The collaborators that the examples run on. *)
#[global] Instance engine : @DateTimeFormatter.Collaborators types :=
  collaborators month_resolver.

(** *** The builder

    Modelled from the spec: [DateTimeFormatterBuilder] (missing), section
    4.1.  The builder keeps the sequence being appended to, the sequences
    of the optional groups still open around it, and "a pointer to the
    active variable-width node and the running total of fixed-width digits
    that follow it", the total being the node's own mark. *)

(** Modelled from the spec: one sequence under construction, with the
    pointer to its active value. *)
Record frame : Type := {
  frame_nodes : list node;
  frame_optional : bool;
  valueParserIndex : option nat
}.

(** Modelled from the spec: the builder, "pushes/pops an optional frame;
    nested arbitrarily": the sequence appended to and the open ones
    around it, innermost first. *)
Record builder : Type := {
  active : frame;
  parents : list frame
}.

Definition empty_frame (optional : bool) : frame :=
  {| frame_nodes := []; frame_optional := optional;
     valueParserIndex := None |}.

Definition new_DateTimeFormatterBuilder : builder :=
  {| active := empty_frame false; parents := [] |}.

(** Modelled from the spec: a node other than a numeric value is appended (a
    literal, a setting, a closed group): no value is active
    after it. *)
Definition appendInternal (b : builder) (n : node) : builder :=
  {| active := {| frame_nodes := frame_nodes (active b) ++ [n];
                  frame_optional := frame_optional (active b);
                  valueParserIndex := None |};
     parents := parents b |}.

Definition add_subsequent (w : nat) (n : node) : node :=
  match n with
  | Value f lo hi s sub => Value f lo hi s (sub + w)
  | other => other
  end.

(** Modelled from the spec: "Subsequent-width patching", section 4.1, with
    the groups of section 4.4 ([V0] of variable width, then values of fixed
    width). A numeric node [v] is appended; [fixed] is its width when it is
    of fixed width. After an active value, a fixed-width node adds its width
    to the total of the active value, which stays active. A variable-width
    value becomes the active one. *)
Definition append_numeric (b : builder) (v : node) (fixed : option nat)
    (variable_value : bool) : builder :=
  let a := active b in
  match valueParserIndex a, fixed with
  | Some i, Some w =>
      {| active := {| frame_nodes :=
                        alter (add_subsequent w) i (frame_nodes a) ++ [v];
                      frame_optional := frame_optional a;
                      valueParserIndex := Some i |};
         parents := parents b |}
  | _, _ =>
      {| active := {| frame_nodes := frame_nodes a ++ [v];
                      frame_optional := frame_optional a;
                      valueParserIndex :=
                        if variable_value
                        then Some (List.length (frame_nodes a)) else None |};
         parents := parents b |}
  end.

Definition width_ok (w : nat) : bool := (1 <=? w)%nat && (w <=? MAX_WIDTH)%nat.

(** Modelled from the spec: [appendValue(field)], printed as
    [Value(Field)]: the widths 1 to 15 and the sign style NORMAL. *)
Definition appendValue1 (b : builder) (field : ChronoField) : builder :=
  append_numeric b (Value field 1 MAX_WIDTH NORMAL 0) None true.

(** Modelled from the spec: [appendValue(field, width)], "fixed-width form
    uses [width, width] with signStyle=NOT_NEGATIVE". *)
Definition appendValue2 (b : builder) (field : ChronoField) (width : nat)
    : completion builder :=
  if width_ok width then
    Return (append_numeric b (Value field width width NOT_NEGATIVE 0)
              (Some width) false)
  else Throw (IllegalArgumentException "The width must be from 1 to 15").

(** Modelled from the spec: [appendValue(field, min, max, signStyle)],
    "validates ranges; min <= max; both in [1,15]". *)
Definition appendValue4 (b : builder) (field : ChronoField)
    (minWidth maxWidth : nat) (signStyle : SignStyle) : completion builder :=
  if negb (width_ok minWidth) then
    Throw (IllegalArgumentException "The minimum width must be from 1 to 15")
  else if negb (width_ok maxWidth) then
    Throw (IllegalArgumentException "The maximum width must be from 1 to 15")
  else if (maxWidth <? minWidth)%nat then
    Throw (IllegalArgumentException
             "The maximum width must exceed or equal the minimum width")
  else
    Return (append_numeric b (Value field minWidth maxWidth signStyle 0)
              (if (minWidth =? maxWidth)%nat then Some maxWidth else None)
              (minWidth <? maxWidth)%nat).

(** Modelled from the spec: [appendValueReduced(field, width, maxWidth,
    base)], "width <= maxWidth <= 10". In the builder tests a reduced value
    of fixed width after a variable-width value is parsed as one of its
    fixed-width followers. *)
Definition appendValueReduced (b : builder) (field : ChronoField)
    (width maxWidth : nat) (base : reduced_base) : completion builder :=
  if negb ((1 <=? width)%nat && (width <=? 10)%nat) then
    Throw (IllegalArgumentException "The width must be from 1 to 10")
  else if negb ((1 <=? maxWidth)%nat && (maxWidth <=? 10)%nat) then
    Throw (IllegalArgumentException "The maxWidth must be from 1 to 10")
  else if (maxWidth <? width)%nat then
    Throw (IllegalArgumentException
             "The maxWidth must be greater than the width")
  else
    Return (append_numeric b (ReducedValue field width maxWidth base)
              (if (width =? maxWidth)%nat then Some width else None) false).

(** Modelled from the spec: [appendLiteral(literal)], "empty string is a
    no-op". *)
Definition appendLiteral (b : builder) (literal : string) : builder :=
  if decide (literal = "") then b else appendInternal b (Literal literal).

(** Modelled from the spec: "parseCaseSensitive(), parseCaseInsensitive(),
    parseStrict(), parseLenient() - each appends a context-modifier
    node". *)
Definition parseCaseSensitive (b : builder) : builder :=
  appendInternal b (ParseCaseSensitive true).
Definition parseCaseInsensitive (b : builder) : builder :=
  appendInternal b (ParseCaseSensitive false).
Definition parseStrict (b : builder) : builder :=
  appendInternal b (ParseStrict true).
Definition parseLenient (b : builder) : builder :=
  appendInternal b (ParseStrict false).

(** Modelled from the spec: [optionalStart()], "pushes ... an optional
    frame". *)
Definition optionalStart (b : builder) : builder :=
  {| active := empty_frame true;
     parents := {| frame_nodes := frame_nodes (active b);
                   frame_optional := frame_optional (active b);
                   valueParserIndex := None |} :: parents b |}.

(** Modelled from the spec: "pops an optional frame". The open group is
    closed into its parent; a group without nodes leaves nothing (the
    builder tests). *)
Definition close_into (inner parent : frame) : frame :=
  match frame_nodes inner with
  | [] => parent
  | ns => {| frame_nodes :=
               frame_nodes parent ++ [Composite ns (frame_optional inner)];
             frame_optional := frame_optional parent;
             valueParserIndex := None |}
  end.

(** Modelled from the spec: [optionalEnd()], "optionalEnd without a matching
    start fails ... with an illegal-state error". *)
Definition optionalEnd (b : builder) : completion builder :=
  match parents b with
  | [] =>
      Throw (IllegalStateException
               "Cannot call optionalEnd() as there was no previous call to optionalStart()")
  | parent :: rest =>
      Return {| active := close_into (active b) parent; parents := rest |}
  end.

(** Modelled from the spec: "An unmatched optionalStart at this point: the
    tree is closed implicitly by a terminal optionalEnd." *)
Fixpoint close_all (inner : frame) (outer : list frame) : frame :=
  match outer with
  | [] => inner
  | parent :: rest => close_all (close_into inner parent) rest
  end.

(** Modelled from the spec: [toFormatter(resolverStyle)], "returns the
    composite", in a formatter without overrides. *)
Definition toFormatter (b : builder) (style : resolver_style)
    : @DateTimeFormatter.formatter types :=
  DateTimeFormatter.constructor
    (Composite (frame_nodes (close_all (active b) (parents b))) false)
    tt tt style null null null.

(** *** The pattern compiler

    Modelled from the spec: [appendPattern] (missing), section 4.2, with
    the counts that the builder tests accept and refuse.  The pattern is
    cut into runs of one letter, quoted literals and single characters,
    and each is handed to the builder.  A run that asks for a node outside
    the kinds modelled here (fractions, offsets, zone ids, padding, text
    forms) has no result in this model: [None]. *)

(** Modelled from the spec: the pieces of a pattern, section 4.2: a run of
    one letter, a quoted literal, a quote left open, any other
    character. *)
Inductive token : Type :=
| Letters (letter : ascii) (count : nat)
| Quoted (text : string)
| Unterminated
| Other (c : ascii).

Inductive scan : Type :=
| Plain
| Run (letter : ascii) (count : nat)
| Quote (text : string).

Definition is_letter (c : ascii) : bool :=
  let n := nat_of_ascii c in
  ((65 <=? n) && (n <=? 90) || (97 <=? n) && (n <=? 122))%nat.

(** What a character starts outside a run and outside quotes. *)
Definition start (c : ascii) : scan + token :=
  if is_letter c then inl (Run c 1)
  else if Ascii.eqb c "'" then inl (Quote "")
  else inr (Other c).

(** Modelled from the spec: cutting the pattern, "counts of the repeated
    letter determine the node", "doubled '' inside a literal is a single
    apostrophe; unquoted ' opens a literal that must close". *)
Fixpoint tokens (pattern : string) (state : scan) : list token :=
  match pattern, state with
  | EmptyString, Plain => []
  | EmptyString, Run l n => [Letters l n]
  | EmptyString, Quote _ => [Unterminated]
  | String c rest, Plain =>
      match start c with
      | inl state' => tokens rest state'
      | inr t => t :: tokens rest Plain
      end
  | String c rest, Run l n =>
      if Ascii.eqb c l then tokens rest (Run l (S n))
      else
        Letters l n ::
        match start c with
        | inl state' => tokens rest state'
        | inr t => t :: tokens rest Plain
        end
  | String c rest, Quote text =>
      if Ascii.eqb c "'" then
        match rest with
        | String "'" rest' => tokens rest' (Quote (text +:+ "'"))
        | _ => Quoted text :: tokens rest Plain
        end
      else tokens rest (Quote (text +:+ String c ""))
  end.

Definition too_many (letter : ascii) : option (completion builder) :=
  Some (Throw (IllegalArgumentException
                 ("Too many pattern letters: " +:+ String letter ""))).

(** Modelled from the spec: a run of [count] letters for a field with the
    forms 1 and 2, "(1-2)". *)
Definition one_or_two (b : builder) (letter : ascii) (field : ChronoField)
    (count : nat) : option (completion builder) :=
  match count with
  | 1 => Some (Return (appendValue1 b field))
  | 2 => Some (appendValue2 b field 2)
  | _ => too_many letter
  end%nat.

(** Modelled from the spec: a run for a year, "1 -> Value, 2 ->
    Reduced(2,2,base), 3-5 -> Value(n,15, NORMAL/EXCEEDS_PAD)", the base
    being the date 2000-01-01 of the builder tests. *)
Definition year_letters (b : builder) (letter : ascii) (field : ChronoField)
    (count : nat) : option (completion builder) :=
  match count with
  | 1 => Some (Return (appendValue1 b field))
  | 2 => Some (appendValueReduced b field 2 2 (BaseDate 2000 1 1))
  | 3 => Some (appendValue4 b field 3 MAX_WIDTH NORMAL)
  | 4 | 5 => Some (appendValue4 b field count MAX_WIDTH EXCEEDS_PAD)
  | _ => too_many letter
  end%nat.

(** Modelled from the spec: a run for a field whose count is the width
    (the letters A, n and N of the table). *)
Definition any_width (b : builder) (field : ChronoField) (count : nat)
    : option (completion builder) :=
  match count with
  | 1%nat => Some (Return (appendValue1 b field))
  | _ => Some (appendValue2 b field count)
  end.

(** Modelled from the spec: the table of section 4.2, letter by letter. *)
Definition append_letters (b : builder) (letter : ascii) (count : nat)
    : option (completion builder) :=
  match letter with
  | "y" => year_letters b letter YEAR_OF_ERA count
  | "u" => year_letters b letter YEAR count
  | "M" | "L" =>
      if (3 <=? count)%nat && (count <=? 5)%nat then None
      else one_or_two b letter MONTH_OF_YEAR count
  | "d" => one_or_two b letter DAY_OF_MONTH count
  | "D" =>
      if (count =? 3)%nat then Some (appendValue2 b DAY_OF_YEAR 3)
      else one_or_two b letter DAY_OF_YEAR count
  | "H" => one_or_two b letter HOUR_OF_DAY count
  | "K" => one_or_two b letter HOUR_OF_AMPM count
  | "k" => one_or_two b letter CLOCK_HOUR_OF_DAY count
  | "h" => one_or_two b letter CLOCK_HOUR_OF_AMPM count
  | "m" => one_or_two b letter MINUTE_OF_HOUR count
  | "s" => one_or_two b letter SECOND_OF_MINUTE count
  | "A" => any_width b MILLI_OF_DAY count
  | "n" => any_width b NANO_OF_SECOND count
  | "N" => any_width b NANO_OF_DAY count
  | "F" =>
      if (count =? 1)%nat
      then Some (Return (appendValue1 b ALIGNED_DAY_OF_WEEK_IN_MONTH))
      else too_many letter
  | "q" =>
      if (3 <=? count)%nat && (count <=? 5)%nat then None
      else one_or_two b letter QUARTER_OF_YEAR count
  | "S" | "V" | "Z" | "X" | "x" | "p" => None
  | _ =>
      Some (Throw (IllegalArgumentException
                     ("Unknown pattern letter: " +:+ String letter "")))
  end%char.

(** Modelled from the spec: what the builder is asked for a piece: "[ / ]:
    optionalStart / optionalEnd", "Any non-letter: Literal", "Unbalanced
    brackets/quotes are errors"; the builder tests refuse the characters
    [{], [}] and [#]. *)
Definition append_token (b : builder) (t : token)
    : option (completion builder) :=
  match t with
  | Letters letter count => append_letters b letter count
  | Quoted text =>
      Some (Return (appendLiteral b (if decide (text = "") then "'" else text)))
  | Unterminated =>
      Some (Throw (IllegalArgumentException
                     "Pattern ends with an incomplete string literal"))
  | Other c =>
      if Ascii.eqb c "[" then Some (Return (optionalStart b))
      else if Ascii.eqb c "]" then
        match parents b with
        | [] =>
            Some (Throw (IllegalArgumentException
                           "Pattern invalid as it contains ] without previous ["))
        | _ => Some (optionalEnd b)
        end
      else if Ascii.eqb c "{" || Ascii.eqb c "}" || Ascii.eqb c "#" then
        Some (Throw (IllegalArgumentException
                       ("Pattern includes reserved character: "
                        +:+ String c "")))
      else Some (Return (appendLiteral b (String c "")))
  end.

Fixpoint append_tokens (b : builder) (ts : list token)
    : option (completion builder) :=
  match ts with
  | [] => Some (Return b)
  | t :: ts' =>
      match append_token b t with
      | Some (Return b') => append_tokens b' ts'
      | other => other
      end
  end.

(** Modelled from the spec: [appendPattern(string)], "delegates to the
    pattern compiler". *)
Definition appendPattern (b : builder) (pattern : string)
    : option (completion builder) :=
  append_tokens b (tokens pattern Plain).

End Engine.

(** ** Auxiliary definitions of the statements and proofs *)

(** Every character of [s] satisfies [p]. *)
Fixpoint all_chars (p : ascii -> bool) (s : string) : bool :=
  match s with
  | EmptyString => true
  | String c s' => p c && all_chars p s'
  end.

Definition is_digit (c : ascii) : bool :=
  RegExp.in_class Period.digit_class c.


(** [t] is what is left of [s] after some of its characters. *)
Definition is_suffix (t s : string) : Prop := exists pre, s = pre +:+ t.

(** The character [x] does not occur in [s]. *)
Definition absent (x : ascii) (s : string) : bool :=
  all_chars (fun c => negb (Ascii.eqb c x)) s.

(** The text that [toString] writes for one unit: nothing for 0, else the
    numeral and the unit's letter. *)
Definition unit_text (v : Z) (letter : ascii) : string :=
  if v =? 0 then "" else number_to_string v +:+ String letter "".

(** The group that a part of [PATTERN] captures on [unit_text]. *)
Definition unit_group (i : nat) (v : Z) (caps : RegExp.captures)
    : RegExp.captures :=
  if v =? 0 then caps else <[i := number_to_string v]> caps.

(** A continuation that accepts wherever it is called. *)
Definition accepting {R} (k : string -> RegExp.captures -> option R) : Prop :=
  forall s caps, is_Some (k s caps).

(** The groups of [PATTERN] on the text of a period with the given units. *)
Definition period_groups (y mo d : Z) : RegExp.captures :=
  unit_group 5 d (unit_group 3 mo (unit_group 2 y (<[1%nat := ""]> ∅))).

(** The calls that obtain a period from numbers. *)
Inductive factory : Type :=
| Of (years months days : Z)
| OfYears (years : Z)
| OfMonths (months : Z)
| OfWeeks (weeks : Z)
| OfDays (days : Z).

Definition call `{MathUtil} (f : factory) : eval Period.store Period.period :=
  match f with
  | Of y mo d => Period.of_ y mo d
  | OfYears y => Period.ofYears y
  | OfMonths mo => Period.ofMonths mo
  | OfWeeks w => Period.ofWeeks w
  | OfDays d => Period.ofDays d
  end.

(** The arguments, and the units they give, are [int]s. *)
Definition in_range (f : factory) : Prop :=
  match f with
  | Of y mo d => is_int y /\ is_int mo /\ is_int d
  | OfYears y => is_int y
  | OfMonths mo => is_int mo
  | OfWeeks w => is_int w /\ is_int (w * 7)
  | OfDays d => is_int d
  end.

(** The contract of a node's parse method (section 4.4): "a new pos >= 0
    on success, or ~errorPos ... on failure", with the error position an
    index into a text. *)
Definition cursor_result (pos : Z) : Prop :=
  0 <= pos \/ exists errorPos, 0 <= errorPos < 2 ^ 31 /\ pos = bitnot errorPos.

(** The text as an error message quotes it: whole up to 64 characters,
    else its first 64 characters and three dots. *)
Definition abbreviated (text : string) : string :=
  if string_length text >? 64 then String.substring 0 64 text +:+ "..."
  else text.

(** The builders of the examples. *)

(** [appendValue(MonthOfYear, 1, 2, NORMAL).appendValue(DayOfMonth, 2)] *)
Definition month_day_builder : completion Engine.builder :=
  b ← Engine.appendValue4 Engine.new_DateTimeFormatterBuilder
        Engine.MONTH_OF_YEAR 1 2 Engine.NORMAL;
  Engine.appendValue2 b Engine.DAY_OF_MONTH 2.

(** [appendValueReduced(Year, 2, 2, 2000)] *)
Definition reduced_year_builder : completion Engine.builder :=
  Engine.appendValueReduced Engine.new_DateTimeFormatterBuilder
    Engine.YEAR 2 2 (Engine.BaseValue 2000).

(** A literal of sixty characters, and the builder of
    [appendLiteral(sixty).appendPattern("uuuu-MM-dd")]. *)
Definition sixty : string :=
  "------------------------------------------------------------".

Definition long_date_builder : option (completion Engine.builder) :=
  Engine.appendPattern
    (Engine.appendLiteral Engine.new_DateTimeFormatterBuilder sixty)
    "uuuu-MM-dd".

(** What a formatter made from a builder gives for a text: the bindings
    and the final index of [parseUnresolved] from index 0. *)
Definition unresolved (b : completion Engine.builder) (text : string)
    : completion (option (gmap Engine.ChronoField Z) * ParsePosition) :=
  b ← b;
  DateTimeFormatter.parseUnresolved (Engine.toFormatter b Engine.SMART) text
    (new_ParsePosition 0).

(** The nodes of a composite run in order from [pos], stopping at the
    first failure: the loop inside [Engine.parse], by name. *)
Fixpoint parse_sequence (ns : list Engine.node) (text : string)
    (ctx : Engine.context) (pos : Z) : Engine.context * Z :=
  match ns with
  | [] => (ctx, pos)
  | n :: ns' =>
      let '(ctx', pos') := Engine.parse n ctx text pos in
      if pos' <? 0 then (ctx', pos') else parse_sequence ns' text ctx' pos'
  end.

(** What a parse from the cursor [position] may return on a text: a cursor
    further on, or the complement of a cursor as the error. *)
Definition within (text : string) (position result : Z) : Prop :=
  position <= result <= string_length text \/
  exists errorPos,
    position <= errorPos <= string_length text /\ result = bitnot errorPos.

(** The formatter of the empty builder, a heap that holds it at 1, and the
    one chronology of the engine as an argument. *)
Definition plain_formatter : DateTimeFormatter.formatter :=
  Engine.toFormatter Engine.new_DateTimeFormatterBuilder Engine.SMART.

Definition plain_heap : DateTimeFormatter.heap :=
  {[ 1%positive := plain_formatter ]}.

Definition iso_chronology : jsval unit := object tt.

(** The formatter of [appendValue(DayOfMonth)]. *)
Definition day_formatter : DateTimeFormatter.formatter :=
  Engine.toFormatter
    (Engine.appendValue1 Engine.new_DateTimeFormatterBuilder
       Engine.DAY_OF_MONTH) Engine.SMART.

(** ** Period: the other methods ([src/Period.js]) *)

(** The functions of [MathUtil] that these methods call besides the four
    above.  [intDiv] and [intMod] are used on the total of months. *)
Class MathUtilArith : Type := {
  safeSubtract : Z -> Z -> completion Z;
  intDiv : Z -> Z -> Z;
  intMod : Z -> Z -> Z
}.

(** What [Period] relies on: inside the [int] range [safeSubtract] is the
    plain subtraction; [intDiv] and [intMod] are the quotient and the
    remainder that go with the sign of the dividend, as the example of
    [normalized] has it ("1 year and -25 months" gives "-1 year and -1
    month"). *)
Class MathUtilArithContract (MA : MathUtilArith) : Prop := {
  safeSubtract_int : forall a b,
    is_int a -> is_int b -> is_int (a - b) ->
    safeSubtract a b = Return (a - b);
  intDiv_quot : forall a b, b <> 0 -> intDiv a b = Z.quot a b;
  intMod_rem : forall a b, b <> 0 -> intMod a b = Z.rem a b
}.

(** A [MathUtilArith] that checks the [int] range, for running the
    embedding on concrete inputs. *)
Definition int_MathUtilArith : MathUtilArith := {|
  safeSubtract :=
    fun a b => checked_int "Invalid subtraction beyond an int" (a - b);
  intDiv := Z.quot;
  intMod := Z.rem
|}.

(** [ChronoUnit]: the three units of a period, and the others by name. *)
Inductive ChronoUnit : Type :=
| YEARS
| MONTHS
| DAYS
| other_unit (name : string).

(** ['' + unit] *)
Definition unit_toString (u : ChronoUnit) : string :=
  match u with
  | YEARS => "Years"
  | MONTHS => "Months"
  | DAYS => "Days"
  | other_unit name => name
  end.

(** A [TemporalAmount] that is not a [Period], as [Period.from] uses it:
    [amount.units()] and [amount.get(unit)]. *)
Record amount_object : Type := {
  amount_units : list ChronoUnit;
  amount_get : ChronoUnit -> completion Z
}.

(** The argument of [from], [plus] and [minus]. *)
Inductive temporal_amount : Type :=
| a_Period (p : Period.period)
| an_amount (a : amount_object).

(** The temporal objects that [addTo] and [subtractFrom] adjust:
    [temporal.plus(amount, unit)] and [temporal.minus(amount, unit)]. *)
Class TemporalOps (Temporal : Type) : Type := {
  temporal_plus : Temporal -> Z -> ChronoUnit -> completion Temporal;
  temporal_minus : Temporal -> Z -> ChronoUnit -> completion Temporal
}.

Module PeriodOps.
Import Period.

(** [units()] *)
Definition units (this : period) : list ChronoUnit := [YEARS; MONTHS; DAYS].

(** [get(unit)]: the amount, or on the left the message of the
    [UnsupportedTemporalTypeException] that is thrown. *)
Definition get (this : period) (unit : ChronoUnit) : string + Z :=
  match unit with
  | YEARS => inr (_years this)
  | MONTHS => inr (_months this)
  | DAYS => inr (_days this)
  | _ => inl ("Unsupported unit: " +:+ unit_toString unit)
  end.

(** [isNegative()] *)
Definition isNegative (this : period) : bool :=
  (_years this <? 0) || (_months this <? 0) || (_days this <? 0).

(** [toTotalMonths()] *)
Definition toTotalMonths (this : period) : Z :=
  _years this * 12 + _months this.

Section WithMathUtil.
Context {MU : MathUtil} {MA : MathUtilArith}.

(** The loop of [from] over [amount.units()], with the three variables
    [years], [months] and [days]. *)
Fixpoint from_units (a : amount_object) (units : list ChronoUnit)
    (years months days : Z) : completion (Z * Z * Z) :=
  match units with
  | [] => Return (years, months, days)
  | unit :: rest =>
      unitAmount ← amount_get a unit;
      match unit with
      | YEARS =>
          years ← safeToInt unitAmount; from_units a rest years months days
      | MONTHS =>
          months ← safeToInt unitAmount; from_units a rest years months days
      | DAYS =>
          days ← safeToInt unitAmount; from_units a rest years months days
      | _ =>
          Throw (DateTimeException
                   ("Unit must be Years, Months or Days, but was "
                    +:+ unit_toString unit))
      end
  end.

(** [Period.from(amount)]; [requireNonNull] passes, [amount] being an
    object. *)
Definition from (amount : temporal_amount) : eval store period :=
  match amount with
  | a_Period p => mret p
  | an_amount a =>
      '(years, months, days) ← lift (from_units a (amount_units a) 0 0 0);
      create years months days
  end.

(** [withYears(years)], [withMonths(months)], [withDays(days)] *)
Definition withYears (this : period) (years : Z) : eval store period :=
  if years =? _years this then mret this
  else create years (_months this) (_days this).

Definition withMonths (this : period) (months : Z) : eval store period :=
  if months =? _months this then mret this
  else create (_years this) months (_days this).

Definition withDays (this : period) (days : Z) : eval store period :=
  if days =? _days this then mret this
  else create (_years this) (_months this) days.

(** [plus(amountToAdd)] *)
Definition plus (this : period) (amountToAdd : temporal_amount)
    : eval store period :=
  amount ← from amountToAdd;
  years ← lift (safeAdd (_years this) (_years amount));
  months ← lift (safeAdd (_months this) (_months amount));
  days ← lift (safeAdd (_days this) (_days amount));
  create years months days.

(** [plusYears(yearsToAdd)], [plusMonths(monthsToAdd)],
    [plusDays(daysToAdd)] *)
Definition plusYears (this : period) (yearsToAdd : Z) : eval store period :=
  if yearsToAdd =? 0 then mret this
  else
    years ← lift (sum ← safeAdd (_years this) yearsToAdd; safeToInt sum);
    create years (_months this) (_days this).

Definition plusMonths (this : period) (monthsToAdd : Z)
    : eval store period :=
  if monthsToAdd =? 0 then mret this
  else
    months ← lift (sum ← safeAdd (_months this) monthsToAdd; safeToInt sum);
    create (_years this) months (_days this).

Definition plusDays (this : period) (daysToAdd : Z) : eval store period :=
  if daysToAdd =? 0 then mret this
  else
    days ← lift (sum ← safeAdd (_days this) daysToAdd; safeToInt sum);
    create (_years this) (_months this) days.

(** [minus(amountToSubtract)] *)
Definition minus (this : period) (amountToSubtract : temporal_amount)
    : eval store period :=
  amount ← from amountToSubtract;
  years ← lift (safeSubtract (_years this) (_years amount));
  months ← lift (safeSubtract (_months this) (_months amount));
  days ← lift (safeSubtract (_days this) (_days amount));
  create years months days.

(** [minusYears(yearsToSubtract)] and its two siblings *)
Definition minusYears (this : period) (yearsToSubtract : Z)
    : eval store period :=
  plusYears this (-1 * yearsToSubtract).

Definition minusMonths (this : period) (monthsToSubtract : Z)
    : eval store period :=
  plusMonths this (-1 * monthsToSubtract).

Definition minusDays (this : period) (daysToSubtract : Z)
    : eval store period :=
  plusDays this (-1 * daysToSubtract).

(** [multipliedBy(scalar)] *)
Definition multipliedBy (this : period) (scalar : Z) : eval store period :=
  if same this ZERO || (scalar =? 1) then mret this
  else
    years ← lift (safeMultiply (_years this) scalar);
    months ← lift (safeMultiply (_months this) scalar);
    days ← lift (safeMultiply (_days this) scalar);
    create years months days.

(** [negated()] *)
Definition negated (this : period) : eval store period :=
  multipliedBy this (-1).

(** [normalized()] *)
Definition normalized (this : period) : eval store period :=
  let totalMonths := toTotalMonths this in
  let splitYears := intDiv totalMonths 12 in
  let splitMonths := intMod totalMonths 12 in
  if (splitYears =? _years this) && (splitMonths =? _months this)
  then mret this
  else
    years ← lift (safeToInt splitYears);
    create years splitMonths (_days this).

End WithMathUtil.

Section WithTemporal.
Context {Temporal : Type} {TO : TemporalOps Temporal}.

(** [addTo(temporal)]; [requireNonNull] passes, [temporal] being an
    object. *)
Definition addTo (this : period) (temporal : Temporal)
    : completion Temporal :=
  temporal ←
    (if negb (_years this =? 0) then
       if negb (_months this =? 0)
       then temporal_plus temporal (toTotalMonths this) MONTHS
       else temporal_plus temporal (_years this) YEARS
     else if negb (_months this =? 0)
     then temporal_plus temporal (_months this) MONTHS
     else Return temporal);
  if negb (_days this =? 0) then temporal_plus temporal (_days this) DAYS
  else Return temporal.

(** [subtractFrom(temporal)] *)
Definition subtractFrom (this : period) (temporal : Temporal)
    : completion Temporal :=
  temporal ←
    (if negb (_years this =? 0) then
       if negb (_months this =? 0)
       then temporal_minus temporal (toTotalMonths this) MONTHS
       else temporal_minus temporal (_years this) YEARS
     else if negb (_months this =? 0)
     then temporal_minus temporal (_months this) MONTHS
     else Return temporal);
  if negb (_days this =? 0) then temporal_minus temporal (_days this) DAYS
  else Return temporal.

End WithTemporal.

End PeriodOps.

(** *** The texts that [Period.parse] reads *)

Definition is_sign (c : ascii) : bool :=
  RegExp.in_class Period.sign_class c.

(** The sign in front of the [P]: none, a minus or a plus. *)
Definition sign_text (sg : string) : Prop :=
  sg = "" \/ sg = "-" \/ sg = "+".

(** The factor that [_parse] takes from the sign. *)
Definition sign_factor (sg : string) : Z :=
  if String.eqb sg "-" then -1 else 1.

(** A section of the text: a numeral and the letter of its unit, or
    nothing. *)
Definition section_text (o : option string) (letter : ascii) : string :=
  match o with
  | Some n => n +:+ String letter ""
  | None => ""
  end.

Definition sections_text (oy om ow od : option string) : string :=
  section_text oy "Y" +:+ section_text om "M" +:+ section_text ow "W"
  +:+ section_text od "D".

(** The number that a section stands for: 0 when it is not there. *)
Definition section_value (o : option string) : option Z :=
  match o with
  | Some n => numeral_value n
  | None => Some 0
  end.

(** The group that a part of [PATTERN] captures on a section. *)
Definition section_group (i : nat) (o : option string)
    (caps : RegExp.captures) : RegExp.captures :=
  match o with
  | Some n => <[i := n]> caps
  | None => caps
  end.

(** The groups of [PATTERN] on a sign, a [P] and four sections. *)
Definition text_groups (sg : string) (oy om ow od : option string)
    : RegExp.captures :=
  section_group 5 od
    (section_group 4 ow
       (section_group 3 om (section_group 2 oy (<[1%nat := sg]> ∅)))).

(** The text does not begin with a digit or a sign. *)
Definition no_numeral_start (s : string) : bool :=
  match s with
  | String c _ => negb (is_digit c) && negb (is_sign c)
  | EmptyString => true
  end.

(** The last character of the text is a sign. *)
Fixpoint ends_with_sign (s : string) : bool :=
  match s with
  | EmptyString => false
  | String c EmptyString => is_sign c
  | String _ s' => ends_with_sign s'
  end.

(** A numeral, or no section. *)
Definition numeral_or_none (o : option string) : Prop :=
  match o with
  | Some n => is_Some (numeral_value n)
  | None => True
  end.

(** A part [(?:([-+]?[0-9]+)X)?] of the pattern has nothing to take from
    the text: the text does not begin with a digit or a sign, or it begins
    with a numeral that another letter follows. *)
Definition not_for (x : ascii) (s : string) : Prop :=
  no_numeral_start s = true \/
  exists sg c ds l rest,
    s = (sg +:+ String c ds) +:+ String l rest /\
    sign_text sg /\ is_digit c = true /\ all_chars is_digit ds = true /\
    is_digit l = false /\ l <> x.

(** *** Periods as the operations meet them *)

(** The three units are [int]s, as the constructor validates them. *)
Definition valid (p : Period.period) : Prop :=
  is_int (Period._years p) /\ is_int (Period._months p)
  /\ is_int (Period._days p).

(** The three units of a period. *)
Definition has_units (p : Period.period) (y mo d : Z) : Prop :=
  Period._years p = y /\ Period._months p = mo /\ Period._days p = d.

(** A period object of a store: [Period.ZERO], or an object that the
    constructor has made, and then not all its units are 0. *)
Definition allocated (st : Period.store) (p : Period.period) : Prop :=
  p = Period.ZERO \/
  ((0 < Period.oid p < st)%nat /\
   ~ (Period._years p = 0 /\ Period._months p = 0 /\ Period._days p = 0)).

(** *** Objects of the instances *)

(** A period object of a store of four objects. *)
Definition sample_period : Period.period := Period.mk_period 3 1 (-25) 4.

Definition other_period : Period.period := Period.mk_period 2 (-2) 5 6.

(** An amount that answers as [sample_period] does. *)
Definition sample_amount : amount_object := {|
  amount_units := [YEARS; MONTHS; DAYS];
  amount_get := fun unit =>
    match unit with
    | YEARS => Return 1
    | MONTHS => Return (-25)
    | DAYS => Return 4
    | other_unit name =>
        Throw (DateTimeException ("Unsupported unit: " +:+ name))
    end
|}.


(** Days counted from some day, with months of 30 and years of 360 days;
    [minus] is [plus] of the opposite amount. *)
Definition day_count_plus (t n : Z) (unit : ChronoUnit) : completion Z :=
  match unit with
  | YEARS => Return (t + 360 * n)
  | MONTHS => Return (t + 30 * n)
  | DAYS => Return (t + n)
  | other_unit name =>
      Throw (DateTimeException ("Unsupported unit: " +:+ name))
  end.

Definition day_count : TemporalOps Z := {|
  temporal_plus := day_count_plus;
  temporal_minus := fun t n unit => day_count_plus t (- n) unit
|}.

(** The copy of [plain_formatter] that [withChronology] makes for the ISO
    chronology, and the heap that holds it at 2. *)
Definition iso_formatter : DateTimeFormatter.formatter :=
  DateTimeFormatter.constructor
    (DateTimeFormatter._printerParser plain_formatter)
    (DateTimeFormatter._locale plain_formatter)
    (DateTimeFormatter._decimalStyle plain_formatter)
    (DateTimeFormatter._resolverStyle plain_formatter)
    (DateTimeFormatter._resolverFields plain_formatter)
    iso_chronology
    (DateTimeFormatter._zone plain_formatter).

Definition iso_heap : DateTimeFormatter.heap :=
  <[2%positive := iso_formatter]> plain_heap.

(** The formatter of [appendValue(MonthOfYear)] under the strict
    resolver. *)
Definition strict_month_formatter : DateTimeFormatter.formatter :=
  Engine.toFormatter
    (Engine.appendValue1 Engine.new_DateTimeFormatterBuilder
       Engine.MONTH_OF_YEAR) Engine.STRICT.

(** * Properties *)

(** ** Bitwise operators *)

Lemma toInt32_small z : - 2 ^ 31 <= z < 2 ^ 31 -> toInt32 z = z.
Proof.
  intros Hz. unfold toInt32.
  rewrite Z.mod_small; lia.
Qed.

Lemma toInt32_range z : - 2 ^ 31 <= toInt32 z < 2 ^ 31.
Proof.
  unfold toInt32.
  pose proof (Z.mod_pos_bound (z + 2 ^ 31) (2 ^ 32) ltac:(lia)). lia.
Qed.

Lemma bitnot_nonneg z : - 2 ^ 31 <= z < 0 -> 0 <= bitnot z.
Proof.
  intros Hz. unfold bitnot.
  rewrite toInt32_small by lia. unfold Z.lnot. lia.
Qed.

Lemma int32_shiftr a :
  - 2 ^ 31 <= a < 2 ^ 31 <-> Z.shiftr a 31 = 0 \/ Z.shiftr a 31 = -1.
Proof.
  rewrite Z.shiftr_div_pow2 by lia.
  change (2 ^ 31) with 2147483648.
  pose proof (Z.div_mod a 2147483648 ltac:(lia)).
  pose proof (Z.mod_pos_bound a 2147483648 ltac:(lia)).
  lia.
Qed.

(** The bitwise or of two 32-bit integers is a 32-bit integer. *)
Lemma lor_int32 a b :
  - 2 ^ 31 <= a < 2 ^ 31 -> - 2 ^ 31 <= b < 2 ^ 31 ->
  - 2 ^ 31 <= Z.lor a b < 2 ^ 31.
Proof.
  rewrite !int32_shiftr, Z.shiftr_lor.
  intros [-> | ->] [-> | ->]; simpl; auto.
Qed.

(** ** MathUtil *)

Lemma checked_int_int what z : is_int z -> checked_int what z = Return z.
Proof.
  intros [Hlo Hhi]. unfold checked_int.
  apply Z.ltb_lt in Hlo, Hhi. now rewrite Hlo, Hhi.
Qed.

(** The range-checking [MathUtil] honours the contract. *)
Lemma int_MathUtil_contract : MathUtilContract int_MathUtil.
Proof.
  split; simpl.
  - intros v Hv. now apply checked_int_int.
  - intros a b _ _ Hab. now apply checked_int_int.
  - intros a b _ _ Hab. now apply checked_int_int.
  - intros s v -> Hv. now apply checked_int_int.
Qed.

(** ** Period: construction *)

Section PeriodConstruction.
Context {MU : MathUtil} {MUC : MathUtilContract MU}.
Import Period.

(** [_init] makes [Period.ZERO] and leaves the initial store. *)
Lemma init_ZERO : _init = Return (ZERO, initial_store).
Proof. reflexivity. Qed.

Lemma is_int_abs z : Z.abs z < 2 ^ 31 <-> is_int z.
Proof. unfold is_int. lia. Qed.

(** On [int]s the constructor's test [(years | months | days) === 0] holds
    exactly when the three are 0. *)
Lemma zero_test_int y mo d :
  is_int y -> is_int mo -> is_int d ->
  (bitor (bitor y mo) d =? 0) = true <-> y = 0 /\ mo = 0 /\ d = 0.
Proof.
  unfold is_int. intros Hy Hm Hd.
  rewrite Z.eqb_eq. unfold bitor.
  rewrite (toInt32_small y), (toInt32_small mo), (toInt32_small d) by lia.
  rewrite toInt32_small by (apply lor_int32; lia).
  rewrite !Z.lor_eq_0_iff. tauto.
Qed.

Lemma validate_int y mo d :
  is_int y -> is_int mo -> is_int d -> _validate y mo d = Return tt.
Proof.
  intros Hy Hm Hd. unfold _validate.
  rewrite !safeToInt_int by assumption. reflexivity.
Qed.

(** What [new Period] does on [int]s, case by case. *)
Lemma new_Period_int y mo d st :
  is_int y -> is_int mo -> is_int d ->
  new_Period y mo d st =
    if decide (y = 0 /\ mo = 0 /\ d = 0) then Return (ZERO, S st)
    else Return (mk_period st y mo d, S st).
Proof.
  intros Hy Hm Hd. unfold new_Period.
  pose proof (zero_test_int y mo d Hy Hm Hd) as Hz.
  destruct (bitor (bitor y mo) d =? 0) eqn:E.
  - rewrite decide_True by (now apply Hz). reflexivity.
  - rewrite decide_False by (intros Hall; apply Hz in Hall; congruence).
    now rewrite validate_int.
Qed.

(** C8.  For integers [y], [m], [d] of absolute value below 2^31,
    [Period.of(y, m, d)] returns the shared [Period.ZERO] exactly when the
    three are 0, and otherwise a new instance whose [years()], [months()]
    and [days()] are [y], [m] and [d]; [isZero()] holds of the result only
    when it is the singleton. *)
Theorem Period_of_zero_singleton (y mo d : Z) (st : store) :
  Z.abs y < 2 ^ 31 -> Z.abs mo < 2 ^ 31 -> Z.abs d < 2 ^ 31 ->
  initialised st ->
  exists p st',
    of_ y mo d st = Return (p, st') /\
    (p = ZERO <-> y = 0 /\ mo = 0 /\ d = 0) /\
    (~ (y = 0 /\ mo = 0 /\ d = 0) ->
       years p = y /\ months p = mo /\ days p = d) /\
    (isZero p = true <-> p = ZERO).
Proof.
  intros Hy Hm Hd Hst. apply is_int_abs in Hy, Hm, Hd.
  unfold of_, create. rewrite new_Period_int by assumption.
  unfold initialised, initial_store in Hst.
  destruct (decide (y = 0 /\ mo = 0 /\ d = 0)) as [Hall | Hnot].
  - exists ZERO, (S st).
    split; [reflexivity|]. split; [tauto|]. split; [tauto|]. tauto.
  - exists (mk_period st y mo d), (S st).
    split; [reflexivity|]. split; [|split].
    + split; [|tauto]. intros Heq. inversion Heq. lia.
    + intros _. now cbn.
    + unfold isZero, same. cbn. rewrite Nat.eqb_eq.
      split; [lia|]. intros Heq. inversion Heq. lia.
Qed.

End PeriodConstruction.

Lemma Period_of_zero_singleton_witness :
  exists p st',
    @Period.of_ int_MathUtil 1 (-2) 0 Period.initial_store = Return (p, st') /\
    (p = Period.ZERO <-> 1 = 0 /\ -2 = 0 /\ 0 = 0) /\
    (~ (1 = 0 /\ -2 = 0 /\ 0 = 0) ->
       Period.years p = 1 /\ Period.months p = -2 /\ Period.days p = 0) /\
    (Period.isZero p = true <-> p = Period.ZERO).
Proof.
  apply (@Period_of_zero_singleton int_MathUtil int_MathUtil_contract
           1 (-2) 0 Period.initial_store).
  - reflexivity.
  - reflexivity.
  - reflexivity.
  - unfold Period.initialised. lia.
Defined.

(** ** Decimal numerals *)

Lemma string_app_assoc (s t u : string) : (s +:+ t) +:+ u = s +:+ t +:+ u.
Proof. induction s as [|c s IH]; simpl; [reflexivity|]. now rewrite IH. Qed.

Lemma string_app_nil_r (s : string) : s +:+ "" = s.
Proof. induction s as [|c s IH]; simpl; [reflexivity|]. now rewrite IH. Qed.

Lemma string_length_app (s t : string) :
  String.length (s +:+ t) = (String.length s + String.length t)%nat.
Proof. induction s as [|c s IH]; simpl; [reflexivity|]. now rewrite IH. Qed.

Lemma all_chars_app p s t :
  all_chars p (s +:+ t) = all_chars p s && all_chars p t.
Proof.
  induction s as [|c s IH]; simpl; [reflexivity|].
  now rewrite IH, andb_assoc.
Qed.

Lemma all_chars_weaken (p q : ascii -> bool) s :
  (forall c, p c = true -> q c = true) ->
  all_chars p s = true -> all_chars q s = true.
Proof.
  intros Hpq. induction s as [|c s IH]; simpl; [reflexivity|].
  rewrite !andb_true_iff. intros [Hc Hs]. auto.
Qed.

Lemma uint_digits u : all_chars is_digit (NilEmpty.string_of_uint u) = true.
Proof. induction u; simpl; auto. Qed.

Lemma uint_nonempty u :
  u <> Nil -> exists c ds, NilEmpty.string_of_uint u = String c ds.
Proof. destruct u; simpl; [congruence | eauto ..]. Qed.

(** The numeral of an integer is an optional minus sign and a non-empty run
    of digits. *)
Lemma number_to_string_shape v :
  exists sg c ds,
    number_to_string v = sg +:+ String c ds /\
    (sg = "" \/ sg = "-") /\
    is_digit c = true /\ all_chars is_digit ds = true.
Proof.
  unfold number_to_string.
  assert (Hu : forall u, u <> Nil ->
            exists c ds, NilEmpty.string_of_uint u = String c ds /\
              is_digit c = true /\ all_chars is_digit ds = true).
  { intros u Hne. destruct (uint_nonempty u Hne) as (c & ds & E).
    exists c, ds. split; [exact E|].
    pose proof (uint_digits u) as Hd. rewrite E in Hd. simpl in Hd.
    now apply andb_true_iff in Hd. }
  destruct v as [|p|p]; simpl.
  - exists "", "0"%char, "". auto.
  - destruct (Hu _ (DecimalPos.Unsigned.to_uint_nonnil p)) as (c & ds & E & H).
    exists "", c, ds. rewrite E. auto.
  - destruct (Hu _ (DecimalPos.Unsigned.to_uint_nonnil p)) as (c & ds & E & H).
    exists "-", c, ds. rewrite E. auto.
Qed.

Lemma of_uint_to_uint p : Z.of_uint (Pos.to_uint p) = Z.pos p.
Proof.
  unfold Z.of_uint. now rewrite DecimalPos.Unsigned.of_to.
Qed.

(** Reading the numeral of [v] gives [v] back. *)
Lemma numeral_value_number_to_string v :
  numeral_value (number_to_string v) = Some v.
Proof.
  unfold number_to_string.
  destruct v as [|p|p]; simpl; [reflexivity| |].
  - destruct (uint_nonempty _ (DecimalPos.Unsigned.to_uint_nonnil p))
      as (c & ds & E).
    pose proof (uint_digits (Pos.to_uint p)) as Hd.
    pose proof (NilEmpty.usu (Pos.to_uint p)) as Hu.
    rewrite E in *. unfold numeral_value.
    simpl in Hd. apply andb_true_iff in Hd as [Hc _].
    assert (Ascii.eqb c "-" = false /\ Ascii.eqb c "+" = false) as [-> ->].
    { unfold is_digit, RegExp.in_class, Period.digit_class in Hc. simpl in Hc.
      repeat (apply orb_true_iff in Hc as [Hc | Hc];
              [apply Ascii.eqb_eq in Hc; subst c; auto|]).
      discriminate. }
    rewrite Hu. simpl. now rewrite of_uint_to_uint.
  - destruct (uint_nonempty _ (DecimalPos.Unsigned.to_uint_nonnil p))
      as (c & ds & E).
    pose proof (NilEmpty.usu (Pos.to_uint p)) as Hu.
    rewrite E in *. rewrite Hu. simpl. now rewrite of_uint_to_uint.
Qed.

(** ** The matcher *)

Section MatcherFacts.
Import RegExp.
Context {R : Type}.

Lemma is_suffix_refl s : is_suffix s s.
Proof. now exists "". Qed.

Lemma is_suffix_tail t c s : is_suffix t s -> is_suffix t (String c s).
Proof. intros [pre ->]. now exists (String c pre). Qed.

Lemma is_suffix_trans t u s : is_suffix t u -> is_suffix u s -> is_suffix t s.
Proof.
  intros [p1 ->] [p2 ->]. exists (p2 +:+ p1).
  now rewrite string_app_assoc.
Qed.

(** A continuation that fails on every suffix of the input makes the
    match fail, whatever the expression. *)
Lemma star_none cs s (k : string -> option R) :
  (forall t, is_suffix t s -> k t = None) -> star cs s k = None.
Proof.
  induction s as [|c s IH]; intros Hk; simpl.
  - apply Hk, is_suffix_refl.
  - destruct (in_class cs c).
    + rewrite IH.
      * apply Hk, is_suffix_refl.
      * intros t Ht. apply Hk. now apply is_suffix_tail.
    + apply Hk, is_suffix_refl.
Qed.

Lemma m_none r : forall s caps (k : string -> captures -> option R),
  (forall t c, is_suffix t s -> k t c = None) -> m r s caps k = None.
Proof.
  induction r as [c | cs | r1 IH1 r2 IH2 | r1 IH1 | cs | i r1 IH1];
    intros s caps k Hk; simpl.
  - destruct s as [|c' s']; [reflexivity|].
    destruct (Ascii.eqb c' c); [|reflexivity].
    apply Hk. apply is_suffix_tail, is_suffix_refl.
  - destruct s as [|c' s']; [reflexivity|].
    destruct (in_class cs c'); [|reflexivity].
    apply Hk. apply is_suffix_tail, is_suffix_refl.
  - apply IH1. intros t c Ht. apply IH2.
    intros u c' Hu. apply Hk. eapply is_suffix_trans; eauto.
  - rewrite IH1 by assumption. apply Hk, is_suffix_refl.
  - destruct s as [|c' s']; [reflexivity|].
    destruct (in_class cs c'); [|reflexivity].
    apply star_none. intros t Ht. apply Hk. now apply is_suffix_tail.
  - apply IH1. intros t c Ht. now apply Hk.
Qed.

(** On a run [ds] of class characters followed by a character outside the
    class, [[...]*] hands the continuation the longest run first. *)
Lemma star_run cs ds c rest (k : string -> option R) res :
  all_chars (in_class cs) ds = true -> in_class cs c = false ->
  k (String c rest) = Some res ->
  star cs (ds +:+ String c rest) k = Some res.
Proof.
  intros Hds Hc Hk. induction ds as [|d ds IH]; simpl.
  - now rewrite Hc.
  - simpl in Hds. apply andb_true_iff in Hds as [Hd Hds].
    now rewrite Hd, IH.
Qed.

Lemma consumed_app pre t : consumed (pre +:+ t) t = pre.
Proof.
  unfold consumed.
  replace (String.length (pre +:+ t) - String.length t)%nat
    with (String.length pre) by (rewrite string_length_app; lia).
  induction pre as [|c pre IH]; simpl.
  - now destruct t.
  - now rewrite IH.
Qed.

Lemma absent_suffix x t s :
  is_suffix t s -> absent x s = true -> absent x t = true.
Proof.
  intros [pre ->]. unfold absent. rewrite all_chars_app.
  now intros [_ H]%andb_true_iff.
Qed.

(** [r X] fails on a text in which [X] does not occur. *)
Lemma seq_chr_none r x s caps (k : string -> captures -> option R) :
  absent x s = true -> m (Seq r (Chr x)) s caps k = None.
Proof.
  intros Hx. simpl. apply m_none. intros t c Ht.
  pose proof (absent_suffix x t s Ht Hx) as Hxt.
  destruct t as [|c' t']; [reflexivity|]. simpl in *.
  apply andb_true_iff in Hxt as [Hc _].
  now destruct (Ascii.eqb c' x).
Qed.

(** A part [(?:([-+]?[0-9]+)X)?] of the pattern is skipped on a text
    without [X], leaving its group undefined. *)
Lemma part_skip i x s caps (k : string -> captures -> option R) :
  absent x s = true -> m (Period.part i x) s caps k = k s caps.
Proof.
  intros Hx. unfold Period.part.
  change (m (Opt ?r) s caps k)
    with (match m r s caps k with Some res => Some res | None => k s caps end).
  now rewrite seq_chr_none.
Qed.

Lemma digit_not_sign c :
  is_digit c = true -> in_class Period.sign_class c = false.
Proof.
  unfold is_digit, in_class, Period.digit_class. simpl. intros Hc.
  repeat (apply orb_true_iff in Hc as [Hc | Hc];
          [apply Ascii.eqb_eq in Hc; subst c; reflexivity|]).
  discriminate.
Qed.

#[local] Arguments in_class : simpl never.

(** A part of the pattern takes a numeral followed by its letter, and
    captures the numeral. *)
Lemma part_match i x sg c ds rest caps
    (k : string -> captures -> option R) res :
  sg = "" \/ sg = "-" ->
  is_digit c = true -> all_chars is_digit ds = true -> is_digit x = false ->
  k rest (<[i := sg +:+ String c ds]> caps) = Some res ->
  m (Period.part i x) ((sg +:+ String c ds) +:+ String x rest) caps k
  = Some res.
Proof.
  intros Hsg Hc Hds Hx Hk. unfold Period.part.
  set (s := (sg +:+ String c ds) +:+ String x rest).
  assert (Hrun : forall caps0,
    star Period.digit_class (ds +:+ String x rest)
      (fun s'' => m (Chr x) s'' (<[i := consumed s s'']> caps0) k)
    = k rest (<[i := sg +:+ String c ds]> caps0) \/
    k rest (<[i := sg +:+ String c ds]> caps0) = None).
  { intros caps0.
    destruct (k rest (<[i := sg +:+ String c ds]> caps0)) as [res0|] eqn:E;
      [left | now right].
    apply star_run; [exact Hds | exact Hx |].
    simpl. rewrite Ascii.eqb_refl.
    unfold s. now rewrite consumed_app. }
  destruct (Hrun caps) as [Hr | Hr]; [|congruence].
  rewrite Hk in Hr.
  pose proof (digit_not_sign c Hc) as Hnosign.
  unfold is_digit in Hc.
  destruct Hsg as [-> | ->]; subst s; simpl in *.
  - now rewrite Hnosign, Hc, Hr.
  - change (in_class Period.sign_class "-") with true. cbv iota.
    now rewrite Hc, Hr.
Qed.

Lemma part_accepting i x (k : string -> captures -> option R) :
  accepting k -> accepting (fun s caps => m (Period.part i x) s caps k).
Proof.
  intros Hk s caps. unfold Period.part.
  change (m (Opt ?r) s caps k)
    with (match m r s caps k with Some res => Some res | None => k s caps end).
  destruct (m _ s caps k); [eauto | apply Hk].
Qed.

Lemma absent_number x v :
  is_digit x = false -> x <> "-"%char ->
  absent x (number_to_string v) = true.
Proof.
  intros Hx Hm.
  destruct (number_to_string_shape v) as (sg & c & ds & -> & Hsg & Hc & Hds).
  assert (Hd : forall c0, is_digit c0 = true -> negb (Ascii.eqb c0 x) = true).
  { intros c0 Hc0. destruct (Ascii.eqb_spec c0 x); [congruence | reflexivity]. }
  assert (Hs : negb (Ascii.eqb "-" x) = true).
  { destruct (Ascii.eqb_spec "-" x); [congruence | reflexivity]. }
  unfold absent. rewrite all_chars_app.
  cbn [all_chars].
  rewrite (Hd c Hc), (all_chars_weaken _ _ ds Hd Hds).
  destruct Hsg as [-> | ->]; cbn [all_chars]; [reflexivity|].
  now rewrite Hs.
Qed.

Lemma absent_unit_text x v letter :
  is_digit x = false -> x <> "-"%char -> x <> letter ->
  absent x (unit_text v letter) = true.
Proof.
  intros Hx Hm Hl. unfold unit_text.
  destruct (v =? 0); [reflexivity|].
  unfold absent. rewrite all_chars_app.
  fold (absent x (number_to_string v)). rewrite absent_number by assumption.
  cbn [all_chars].
  destruct (Ascii.eqb_spec letter x); [congruence | reflexivity].
Qed.

(** A part of [PATTERN] on the text of its unit: the numeral is captured
    when the unit is written, and the group stays undefined when not. *)
Lemma part_unit_text i x v rest caps (k : string -> captures -> option R) :
  accepting k -> is_digit x = false -> absent x rest = true ->
  m (Period.part i x) (unit_text v x +:+ rest) caps k
  = k rest (unit_group i v caps).
Proof.
  intros Hk Hx Hrest. unfold unit_text, unit_group.
  destruct (v =? 0).
  - simpl. now apply part_skip.
  - destruct (number_to_string_shape v) as (sg & c & ds & E & Hsg & Hc & Hds).
    rewrite E, string_app_assoc. simpl.
    destruct (Hk rest (<[i := sg +:+ String c ds]> caps)) as [res Hres].
    rewrite Hres. now apply part_match.
Qed.

End MatcherFacts.

(** ** Period: text form *)

Section PeriodText.
Context {MU : MathUtil} {MUC : MathUtilContract MU}.
Import RegExp Period.

Lemma toString_ZERO : toString ZERO = "P0D".
Proof. reflexivity. Qed.

Lemma toString_units p :
  same p ZERO = false ->
  toString p =
    String "P" (unit_text (_years p) "Y" +:+ unit_text (_months p) "M"
                +:+ unit_text (_days p) "D").
Proof.
  intros Hp. unfold toString, unit_text. rewrite Hp.
  destruct (_years p =? 0), (_months p =? 0), (_days p =? 0); simpl;
    rewrite ?string_app_assoc, ?string_app_nil_r; simpl;
    rewrite ?string_app_assoc; reflexivity.
Qed.

(** [PATTERN.exec] on the text of a period: group 1 is empty, groups 2, 3
    and 5 hold the numerals of the units written, group 4 is undefined. *)
Lemma exec_units y mo d :
  exec PATTERN
    (String "P" (unit_text y "Y" +:+ unit_text mo "M" +:+ unit_text d "D"))
  = Some (period_groups y mo d).
Proof.
  set (k0 := fun (_ : string) (caps : captures) => Some caps).
  assert (Hk0 : accepting k0) by (intros s c; unfold k0; eauto).
  assert (HD : forall caps,
    m (part 5 "D") (unit_text d "D" +:+ "") caps k0
    = Some (unit_group 5 d caps)).
  { intros caps. now rewrite part_unit_text. }
  assert (HW : forall caps,
    m (part 4 "W") (unit_text d "D") caps
      (fun s c => m (part 5 "D") s c k0)
    = Some (unit_group 5 d caps)).
  { intros caps. rewrite part_skip.
    - rewrite <- (string_app_nil_r (unit_text d "D")). now apply HD.
    - now apply absent_unit_text. }
  assert (HM : forall caps,
    m (part 3 "M") (unit_text mo "M" +:+ unit_text d "D") caps
      (fun s c => m (part 4 "W") s c (fun s c => m (part 5 "D") s c k0))
    = Some (unit_group 5 d (unit_group 3 mo caps))).
  { intros caps. rewrite part_unit_text.
    - apply HW.
    - now do 2 apply part_accepting.
    - reflexivity.
    - now apply absent_unit_text. }
  set (t := unit_text y "Y" +:+ unit_text mo "M" +:+ unit_text d "D").
  assert (Hm : m PATTERN (String "P" t) ∅ k0 = Some (period_groups y mo d)).
  { unfold PATTERN. cbn [m].
    change (in_class sign_class "P") with false. cbv iota.
    change (Ascii.eqb "P" "P") with true. cbv iota.
    change (consumed (String "P" t) (String "P" t))
      with (consumed ("" +:+ String "P" t) (String "P" t)).
    rewrite consumed_app. unfold t.
    rewrite part_unit_text.
    - now rewrite HM.
    - now do 3 apply part_accepting.
    - reflexivity.
    - unfold absent. rewrite all_chars_app.
      fold (absent "Y" (unit_text mo "M")). fold (absent "Y" (unit_text d "D")).
      now rewrite !absent_unit_text. }
  cbn [exec]. fold k0. now rewrite Hm.
Qed.

Lemma period_groups_lookup y mo d :
  period_groups y mo d !! 1%nat = Some "" /\
  period_groups y mo d !! 2%nat
    = (if y =? 0 then None else Some (number_to_string y)) /\
  period_groups y mo d !! 3%nat
    = (if mo =? 0 then None else Some (number_to_string mo)) /\
  period_groups y mo d !! 4%nat = None /\
  period_groups y mo d !! 5%nat
    = (if d =? 0 then None else Some (number_to_string d)).
Proof.
  unfold period_groups, unit_group.
  destruct (y =? 0), (mo =? 0), (d =? 0); repeat split; by simplify_map_eq.
Qed.

(** [_parseNumber] on the group of a unit gives the unit back. *)
Lemma parseNumber_unit text v :
  is_int v ->
  _parseNumber text (if v =? 0 then None else Some (number_to_string v)) 1
  = Return v.
Proof.
  intros Hv. destruct (Z.eqb_spec v 0) as [-> | Hne]; [reflexivity|].
  unfold _parseNumber.
  rewrite (parseInt_numeral _ v) by
    (auto using numeral_value_number_to_string).
  simpl. rewrite safeMultiply_int; rewrite ?Z.mul_1_r; auto.
  unfold is_int. lia.
Qed.

(** Parsing the text of the units [y], [mo], [d], not all 0, creates the
    period of these units. *)
Lemma parse_units y mo d st :
  is_int y -> is_int mo -> is_int d -> ~ (y = 0 /\ mo = 0 /\ d = 0) ->
  parse
    (String "P" (unit_text y "Y" +:+ unit_text mo "M" +:+ unit_text d "D")) st
  = create y mo d st.
Proof.
  intros Hy Hm Hd Hnz.
  assert (H0 : is_int 0) by (unfold is_int; lia).
  unfold parse, _parse. rewrite exec_units.
  destruct (period_groups_lookup y mo d) as (-> & -> & -> & -> & ->).
  rewrite decide_False by discriminate.
  assert (Hany : defined (if y =? 0 then None else Some (number_to_string y))
                 || defined (if mo =? 0 then None else Some (number_to_string mo))
                 || defined (@None string)
                 || defined (if d =? 0 then None else Some (number_to_string d))
                 = true).
  { destruct (Z.eqb_spec y 0), (Z.eqb_spec mo 0), (Z.eqb_spec d 0);
      try reflexivity. tauto. }
  rewrite Hany.
  rewrite !parseNumber_unit by assumption.
  change (_parseNumber _ None 1) with (Return (A := Z) 0).
  unfold mbind, eval_bind, lift.
  rewrite (safeMultiply_int 0 7) by (auto; unfold is_int; lia).
  rewrite (safeAdd_int d (0 * 7)) by (rewrite ?Z.add_0_r; auto).
  rewrite Z.add_0_r.
  unfold create. rewrite new_Period_int by assumption.
  now destruct (decide (y = 0 /\ mo = 0 /\ d = 0)).
Qed.

Lemma parse_P0D st : parse "P0D" st = Return (ZERO, S st).
Proof.
  assert (H0 : is_int 0) by (unfold is_int; lia).
  unfold parse, _parse.
  replace (exec PATTERN "P0D") with (Some (<[5%nat := "0"]> (<[1%nat := ""]> (∅ : captures))))
    by (now vm_compute).
  assert (Hl : forall i : nat,
    (<[5%nat := "0"]> (<[1%nat := ""]> (∅ : captures))) !! i
    = if decide (i = 5%nat) then Some "0"
      else if decide (i = 1%nat) then Some "" else None).
  { intros i. repeat case_decide; by simplify_map_eq. }
  rewrite !Hl. simpl.
  unfold mbind, eval_bind, lift. cbn [_parseNumber].
  rewrite (parseInt_numeral "0" 0) by auto.
  simpl. rewrite (safeMultiply_int 0 1) by auto.
  rewrite (safeMultiply_int 0 7) by auto.
  rewrite (safeAdd_int (0 * 1) (0 * 7)) by auto.
  unfold create. now rewrite new_Period_int.
Qed.

Lemma equals_units a b y mo d :
  equals (mk_period a y mo d) (mk_period b y mo d) = true.
Proof.
  unfold equals. destruct (same _ _); [reflexivity|]. simpl.
  now rewrite !Z.eqb_refl.
Qed.

(** The round trip for a period made by [create] from [int]s. *)
Lemma create_roundtrip y mo d st p st1 :
  is_int y -> is_int mo -> is_int d -> initialised st ->
  create y mo d st = Return (p, st1) ->
  exists p' st2,
    parse (toString p) st1 = Return (p', st2) /\
    equals p' p = true /\
    (p = ZERO -> toString p = "P0D" /\ p' = ZERO) /\
    (years p' = years p /\ months p' = months p /\ days p' = days p).
Proof.
  intros Hy Hm Hd Hst Hp. unfold create in Hp.
  rewrite new_Period_int in Hp by assumption.
  unfold initialised, initial_store in Hst.
  destruct (decide (y = 0 /\ mo = 0 /\ d = 0)) as [Hz | Hnz];
    inversion Hp; subst p st1; clear Hp.
  - exists ZERO, (S (S st)). rewrite toString_ZERO, parse_P0D.
    split; [reflexivity|]. split; [reflexivity|]. split; [auto|]. now cbn.
  - assert (Hsame : same (mk_period st y mo d) ZERO = false).
    { unfold same. simpl. apply Nat.eqb_neq. lia. }
    exists (mk_period (S st) y mo d), (S (S st)).
    rewrite toString_units by exact Hsame. cbn [_years _months _days].
    rewrite parse_units by assumption.
    unfold create. rewrite new_Period_int by assumption.
    rewrite decide_False by assumption.
    split; [reflexivity|]. split; [apply equals_units|].
    split; [|now cbn].
    intros Heq. inversion Heq. lia.
Qed.

(** C9.  For a period [p] obtained from [Period.of], [ofYears],
    [ofMonths], [ofWeeks] or [ofDays] with units in the [int] range,
    [Period.parse(p.toString()).equals(p)] holds: the zero period prints as
    ["P0D"] and parses back to [Period.ZERO], and the units of any other
    period, negative ones included, come back from its text unchanged. *)
Theorem Period_parse_toString_roundtrip (f : factory) (st st1 : store)
    (p : period) :
  in_range f -> initialised st ->
  call f st = Return (p, st1) ->
  exists p' st2,
    parse (toString p) st1 = Return (p', st2) /\
    equals p' p = true /\
    (p = ZERO -> toString p = "P0D" /\ p' = ZERO) /\
    (years p' = years p /\ months p' = months p /\ days p' = days p).
Proof.
  assert (H0 : is_int 0) by (unfold is_int; lia).
  intros Hr Hst Hp. destruct f as [y mo d | y | mo | w | d]; simpl in Hr, Hp.
  - destruct Hr as (Hy & Hm & Hd). now apply (create_roundtrip y mo d st).
  - now apply (create_roundtrip y 0 0 st).
  - now apply (create_roundtrip 0 mo 0 st).
  - destruct Hr as (Hw & Hw7). unfold ofWeeks in Hp.
    unfold mbind, eval_bind, lift in Hp.
    rewrite safeMultiply_int in Hp by (auto; unfold is_int; lia).
    now apply (create_roundtrip 0 0 (w * 7) st).
  - now apply (create_roundtrip 0 0 d st).
Qed.

End PeriodText.

Lemma Period_parse_toString_roundtrip_witness :
  exists p' st2,
    @Period.parse int_MathUtil
      (Period.toString (Period.mk_period 1 (-3) 0 14)) 2%nat
    = Return (p', st2) /\
    Period.equals p' (Period.mk_period 1 (-3) 0 14) = true /\
    (Period.mk_period 1 (-3) 0 14 = Period.ZERO ->
       Period.toString (Period.mk_period 1 (-3) 0 14) = "P0D" /\
       p' = Period.ZERO) /\
    (Period.years p' = -3 /\ Period.months p' = 0 /\ Period.days p' = 14).
Proof.
  apply (@Period_parse_toString_roundtrip int_MathUtil int_MathUtil_contract
           (Of (-3) 0 14) Period.initial_store 2%nat
           (Period.mk_period 1 (-3) 0 14)).
  - simpl. unfold is_int. lia.
  - unfold Period.initialised. lia.
  - reflexivity.
Defined.

(** ** DateTimeFormatter *)

Lemma bitnot_bitnot e : 0 <= e < 2 ^ 31 -> bitnot (bitnot e) = e.
Proof.
  intros He. unfold bitnot.
  rewrite (toInt32_small e) by lia.
  rewrite toInt32_small by (unfold Z.lnot; lia).
  apply Z.lnot_involutive.
Qed.

Lemma bitnot_negative e : 0 <= e < 2 ^ 31 -> bitnot e < 0.
Proof.
  intros He. unfold bitnot. rewrite toInt32_small by lia.
  unfold Z.lnot. lia.
Qed.

Section Facade.
Context {T : Types} {C : DateTimeFormatter.Collaborators}
        {CH : DateTimeFormatter.Chronologies}.
Import DateTimeFormatter.

(** C4.  [parseUnresolved(text, position)], the tree's parse method
    having returned [pos], a position or the complement of an error
    position: when [pos] is negative the result is [null], [errorIndex]
    is set to the complement of [pos], which is not negative, and [index]
    is as before; otherwise the result is the parsed bindings, [index] is
    set to [pos], and [errorIndex] is as before. *)
Theorem parseUnresolved_position_contract
    (this : formatter) (text : string) (position : ParsePosition)
    (context : ParseContext) (pos : Z) :
  pp_parse (_printerParser this) (new_DateTimeParseContext this) text
    (getIndex position) = Return (context, pos) ->
  cursor_result pos ->
  exists result position',
    parseUnresolved this text position = Return (result, position') /\
    (pos < 0 ->
       result = None /\
       getErrorIndex position' = bitnot pos /\
       0 <= getErrorIndex position' /\
       getIndex position' = getIndex position) /\
    (0 <= pos ->
       result = Some (toParsed context) /\
       getIndex position' = pos /\
       getErrorIndex position' = getErrorIndex position).
Proof.
  intros Hparse Hpos.
  unfold parseUnresolved, _parseUnresolved0. rewrite Hparse. cbn.
  destruct (Z.ltb_spec pos 0) as [Hneg | Hnonneg].
  - eexists _, _. split; [reflexivity|]. split; [|lia].
    intros _. cbn. repeat split.
    destruct Hpos as [Hp | (e & He & ->)]; [lia|].
    rewrite bitnot_bitnot; lia.
  - eexists _, _. split; [reflexivity|]. split; [lia|].
    intros _. cbn. auto.
Qed.

Lemma abbreviate_substr text :
  abbreviate "substr" text = Return (abbreviated text).
Proof.
  unfold abbreviate, abbreviated.
  destruct (Z.gtb_spec (string_length text) 64) as [Hlong | Hshort];
    [|reflexivity].
  change (invoke text "substr" 0 64) with (Return (substr text 0 64)).
  cbn. unfold substr. cbn.
  pose proof (Nat2Z.is_nonneg (String.length text)) as Hlen.
  fold (string_length text) in Hlen.
  replace (Z.min 0 (string_length text)) with 0 by lia.
  replace (Z.to_nat (Z.max 0 (Z.min 64 (string_length text - 0))))
    with 64%nat by lia.
  reflexivity.
Qed.

(** [_parseToBuilder(text, null)] after a parse that stopped short. *)
Lemma parseToBuilder_unparsed this text context N :
  pp_parse (_printerParser this) (new_DateTimeParseContext this) text 0
    = Return (context, N) ->
  0 <= N < string_length text ->
  _parseToBuilder this text None =
    Throw (DateTimeParseException
             ("Text '" +:+ abbreviated text
              +:+ "' could not be parsed, unparsed text found at index "
              +:+ number_to_string N)
             text N None).
Proof.
  intros Hparse HN.
  unfold _parseToBuilder, _parseUnresolved0. cbn. rewrite Hparse. cbn.
  destruct (Z.ltb_spec N 0) as [Hneg | _]; [lia|]. cbn.
  destruct (Z.ltb_spec N (string_length text)) as [_ | Hge]; [|lia]. cbn.
  rewrite abbreviate_substr. reflexivity.
Qed.

(** [_parseToBuilder(text, null)] returns only after the whole text. *)
Lemma parseToBuilder_returns this text b position :
  _parseToBuilder this text None = Return (b, position) ->
  exists context N,
    pp_parse (_printerParser this) (new_DateTimeParseContext this) text 0
      = Return (context, N) /\
    string_length text <= N.
Proof.
  unfold _parseToBuilder, _parseUnresolved0. cbn.
  destruct (pp_parse _ _ text 0) as [[context N] | e]; cbn; [|discriminate].
  intros H. exists context, N. split; [reflexivity|].
  destruct (Z.ltb_spec N 0) as [Hneg | Hnonneg]; cbn in H.
  - destruct (abbreviate "substr" text); cbn in H; [|discriminate].
    destruct (bitnot N >=? 0); discriminate.
  - destruct (Z.ltb_spec N (string_length text)) as [Hlt | Hge]; [|exact Hge].
    cbn in H.
    destruct (abbreviate "substr" text); cbn in H; discriminate.
Qed.

Lemma rethrow_parse_error {A} text ex :
  instanceof_DateTimeParseException ex = true ->
  rethrow (A := A) text (Throw ex) = Throw ex.
Proof. intros H. unfold rethrow. now rewrite H. Qed.

Lemma rethrow_returns {A} text (c : completion A) v :
  rethrow text c = Return v -> c = Return v.
Proof.
  unfold rethrow. destruct c as [a | ex]; [easy|].
  destruct (instanceof_DateTimeParseException ex); [discriminate|].
  destruct (_createError text ex); discriminate.
Qed.

(** C5.  [parse(text)], with or without a type: when the tree's parse
    method succeeds with a final index [N] below the length of the text, a
    [DateTimeParseException] is thrown whose message ends in "unparsed
    text found at index N"; and a value is returned only when the parse
    succeeded with a final index not below the length of the text. *)
Theorem parse_requires_whole_text
    (this : formatter) (text : string) (type : option Query) :
  (forall context N,
     pp_parse (_printerParser this) (new_DateTimeParseContext this) text 0
       = Return (context, N) ->
     0 <= N < string_length text ->
     parse this text type =
       Throw (DateTimeParseException
                ("Text '" +:+ abbreviated text
                 +:+ "' could not be parsed, unparsed text found at index "
                 +:+ number_to_string N)
                text N None)) /\
  (forall v,
     parse this text type = Return v ->
     exists context N,
       pp_parse (_printerParser this) (new_DateTimeParseContext this) text 0
         = Return (context, N) /\
       string_length text <= N).
Proof.
  split.
  - intros context N Hparse HN.
    pose proof (parseToBuilder_unparsed this text context N Hparse HN) as Hb.
    unfold parse, parse1, parse2.
    destruct type as [type|]; rewrite Hb; reflexivity.
  - intros v Hv. unfold parse in Hv.
    assert (Hb : exists b position,
              _parseToBuilder this text None = Return (b, position)).
    { destruct type as [type|].
      - destruct (parse2 this text type) as [r|] eqn:E; [|discriminate].
        unfold parse2 in E. apply rethrow_returns in E.
        destruct (_parseToBuilder this text None) as [[b p]|];
          [eauto | discriminate].
      - destruct (parse1 this text) as [r|] eqn:E; [|discriminate].
        unfold parse1 in E. apply rethrow_returns in E.
        destruct (_parseToBuilder this text None) as [[b p]|];
          [eauto | discriminate]. }
    destruct Hb as (b & position & Hb).
    eapply parseToBuilder_returns; eauto.
Qed.

(** *** Errors that are not parse errors *)

(** A text of up to 64 characters: the error is wrapped, with the whole
    text in the message. *)
Lemma rethrow_short_text {A} text ex :
  string_length text <= 64 ->
  instanceof_DateTimeParseException ex = false ->
  rethrow (A := A) text (Throw ex) =
    Throw (DateTimeParseException
             ("Text '" +:+ text +:+ "' could not be parsed: "
              +:+ message_of ex)
             text 0 (Some ex)).
Proof.
  intros Hlen Hex. unfold rethrow, _createError, abbreviate.
  rewrite Hex.
  destruct (Z.gtb_spec (string_length text) 64) as [Hlong | _]; [lia|].
  reflexivity.
Qed.

(** A longer text: [_createError] calls [text.subString], which no string
    has, and the [TypeError] of that call is what [parse] throws. *)
Lemma rethrow_long_text {A} text ex :
  64 < string_length text ->
  instanceof_DateTimeParseException ex = false ->
  rethrow (A := A) text (Throw ex) =
    Throw (TypeError "text.subString is not a function").
Proof.
  intros Hlen Hex. unfold rethrow, _createError, abbreviate.
  rewrite Hex.
  destruct (Z.gtb_spec (string_length text) 64) as [_ | Hshort]; [|lia].
  reflexivity.
Qed.

(** [parse(text)] of a text longer than 64 characters that parses to the
    end and then fails to resolve. *)
Lemma parse_long_text_resolver_failure this text b position ex :
  64 < string_length text ->
  _parseToBuilder this text None = Return (b, position) ->
  resolve b (_resolverStyle this) (_resolverFields this) = Throw ex ->
  instanceof_DateTimeParseException ex = false ->
  parse this text None = Throw (TypeError "text.subString is not a function").
Proof.
  intros Hlen Hb Hr Hex. unfold parse, parse1. rewrite Hb. cbn.
  rewrite Hr. now rewrite rethrow_long_text.
Qed.

(** *** withChronology *)

Lemma constructor_fields pp l ds rs rf (c : jsval Chronology) z :
  c <> undefined ->
  constructor pp l ds rs rf c z =
    {| _printerParser := pp; _locale := l; _decimalStyle := ds;
       _resolverStyle := rs; _resolverFields := rf; _chrono := c;
       _zone := z |}.
Proof. intros Hc. unfold constructor. now destruct c. Qed.

(** C7.  [f.withChronology(c)] for a chronology [c] (an argument, so not
    [undefined]): when the override chronology of [f] is not null and
    equals [c], the result is [f] itself and the heap is as before;
    otherwise the result is a new object whose chronology is [c] and whose
    other six fields are those of [f], and every object that was in the
    heap, [f] among them, is as before. *)
Theorem withChronology_copy
    (h : heap) (f : ref) (o : formatter) (c : jsval Chronology) :
  h !! f = Some o ->
  c <> undefined ->
  exists r h',
    withChronology h f c = Some (r, h') /\
    (same_chronology o c = true -> r = f /\ h' = h) /\
    (same_chronology o c = false ->
       h !! r = None /\
       (exists o',
          h' !! r = Some o' /\
          chronology o' = c /\
          _printerParser o' = _printerParser o /\
          _locale o' = _locale o /\
          _decimalStyle o' = _decimalStyle o /\
          _resolverStyle o' = _resolverStyle o /\
          _resolverFields o' = _resolverFields o /\
          _zone o' = _zone o) /\
       h' !! f = Some o /\
       (forall r', r' <> r -> h' !! r' = h !! r')).
Proof.
  intros Hf Hc. unfold withChronology. rewrite Hf. cbn.
  destruct (same_chronology o c) eqn:Hsame.
  - exists f, h. split; [reflexivity|]. split; [auto | discriminate].
  - unfold new_DateTimeFormatter.
    set (r := fresh (dom h)).
    assert (Hfresh : h !! r = None).
    { apply not_elem_of_dom. apply is_fresh. }
    eexists r, _. split; [reflexivity|]. split; [discriminate|].
    intros _. split; [exact Hfresh|].
    rewrite constructor_fields by exact Hc.
    split; [|split].
    + eexists. split; [apply lookup_insert_eq|]. cbn. repeat split.
    + rewrite lookup_insert_ne; [exact Hf|]. intros ->. congruence.
    + intros r' Hr'. now rewrite lookup_insert_ne.
Qed.

(** *** The two queries *)

(** On a temporal object that is not a [DateTimeBuilder] the query of
    [parsedExcessDays()] gives [Period.ZERO] and the query of
    [parsedLeapSecond()] gives [false]; neither result is null. *)
Lemma parsed_queries_default (t : temporal) :
  instanceof_DateTimeBuilder t = false ->
  parsedExcessDays t = object Period.ZERO /\
  parsedLeapSecond t = object false /\
  not_null (parsedExcessDays t) = true /\
  not_null (parsedLeapSecond t) = true.
Proof.
  intros Ht. destruct t as [b | other]; [discriminate|].
  repeat split.
Qed.

(** On a [DateTimeBuilder] the two queries give the fields [excessDays]
    and [leapSecond] as they are. *)
Lemma parsed_queries_of_builder (b : DateTimeBuilder) :
  parsedExcessDays (a_DateTimeBuilder b) = excessDays b /\
  parsedLeapSecond (a_DateTimeBuilder b) = leapSecond b.
Proof. split; reflexivity. Qed.

(** *** toString *)

Lemma indexOf_head c s :
  (indexOf (String c s) "[" =? 0) = bool_decide (c = "["%char).
Proof.
  unfold indexOf. cbn [String.index String.prefix].
  destruct (ascii_dec "[" c) as [<- | Hne].
  - destruct s; reflexivity.
  - rewrite bool_decide_eq_false_2 by congruence.
    destruct (String.index 0 "[" s); [|reflexivity].
    apply Z.eqb_neq. lia.
Qed.

Lemma substring_prefix (s t : string) :
  String.substring 0 (String.length s) (s +:+ t) = s.
Proof.
  induction s as [|c s IH]; simpl.
  - now destruct t.
  - now rewrite IH.
Qed.

Lemma substring_inner c inner c' :
  substring (String c (inner +:+ String c' ""))
    1 (string_length (String c (inner +:+ String c' "")) - 1) = inner.
Proof.
  unfold substring, string_length. cbn [String.length].
  rewrite string_length_app. cbn [String.length].
  set (n := String.length inner).
  replace (Z.max 0 (Z.min 1 (Z.of_nat (S (n + 1))))) with 1 by lia.
  replace (Z.max 0 (Z.min (Z.of_nat (S (n + 1)) - 1) (Z.of_nat (S (n + 1)))))
    with (Z.of_nat n + 1) by lia.
  replace (Z.to_nat (Z.min 1 (Z.of_nat n + 1))) with 1%nat by lia.
  replace (Z.to_nat (Z.max 1 (Z.of_nat n + 1) - Z.min 1 (Z.of_nat n + 1)))
    with n by lia.
  cbn [String.substring]. apply substring_prefix.
Qed.

(** A printed tree in brackets other than the square ones of an optional
    group loses its first and its last character. *)
Lemma toString_strips this c inner c' :
  pp_toString (_printerParser this) = String c (inner +:+ String c' "") ->
  c <> "["%char ->
  toString this = inner.
Proof.
  intros Hp Hc. unfold toString. rewrite Hp, indexOf_head.
  rewrite bool_decide_eq_false_2 by exact Hc.
  apply substring_inner.
Qed.

(** A printed tree that starts with a square bracket is left as it is. *)
Lemma toString_keeps_optional this s :
  pp_toString (_printerParser this) = String "[" s ->
  toString this = String "[" s.
Proof.
  intros Hp. unfold toString. rewrite Hp, indexOf_head.
  now rewrite bool_decide_eq_true_2.
Qed.

End Facade.

(** ** The engine: reduced values *)

Section ReducedValues.
Import Engine.

Lemma digit_value_range c d : digit_value c = Some d -> 0 <= d <= 9.
Proof.
  unfold digit_value.
  destruct (Z.leb_spec 48 (Z.of_nat (nat_of_ascii c)));
    destruct (Z.leb_spec (Z.of_nat (nat_of_ascii c)) 57); cbn;
    intros [= <-]; lia.
Qed.

(** [n] characters write a number below [10^n]. *)
Lemma digits_value_bound n : forall s acc,
  0 <= acc ->
  0 <= digits_value n s acc < (acc + 1) * 10 ^ Z.of_nat n.
Proof.
  induction n as [|n IH]; intros s acc Hacc.
  - cbn. lia.
  - rewrite Nat2Z.inj_succ, Z.pow_succ_r by lia.
    pose proof (Z.pow_pos_nonneg 10 (Z.of_nat n) ltac:(lia) ltac:(lia)) as Hp.
    destruct s as [|c s]; cbn; [nia|].
    destruct (digit_value c) as [d|] eqn:Hd; [|nia].
    apply digit_value_range in Hd.
    specialize (IH s (acc * 10 + d) ltac:(lia)). nia.
Qed.

(** The candidate in the base cycle, moved up one cycle when below the
    base, lies in the window that starts at the base. *)
Lemma reduced_value_in_window width base d :
  0 <= d < 10 ^ Z.of_nat width ->
  base <= reduced_value width base d < base + 10 ^ Z.of_nat width.
Proof.
  intros Hd. unfold reduced_value.
  pose proof (Z.pow_pos_nonneg 10 (Z.of_nat width) ltac:(lia) ltac:(lia)) as Hp.
  pose proof (Z.mod_pos_bound base (10 ^ Z.of_nat width) Hp) as Hm.
  destruct (Z.ltb_spec (base - base mod 10 ^ Z.of_nat width + d) base); lia.
Qed.

(** What [setParsedField] leaves bound when it succeeds. *)
Lemma setParsedField_bound ctx field value errorPos successPos ctx' pos :
  setParsedField ctx field value errorPos successPos = (ctx', pos) ->
  0 <= errorPos < 2 ^ 31 -> 0 <= pos ->
  currentParsed ctx' !! field = Some value.
Proof.
  unfold setParsedField. intros H He Hpos.
  destruct (currentParsed ctx !! field) as [old|] eqn:Hold.
  - destruct (Z.eqb_spec old value) as [-> | Hne]; inversion H; subst.
    + exact Hold.
    + pose proof (bitnot_negative errorPos He). lia.
  - inversion H; subst. unfold currentParsed. cbn.
    apply lookup_insert_eq.
Qed.

End ReducedValues.

Section ReducedValueWindow.
Import Engine.

Lemma parse_ReducedValue_window field width maxWidth base ctx text position
    ctx' pos' :
  0 <= position < 2 ^ 31 ->
  parse (ReducedValue field width maxWidth base) ctx text position
    = (ctx', pos') ->
  0 <= pos' ->
  exists v,
    currentParsed ctx' !! field = Some v /\
    base_year base <= v < base_year base + 10 ^ Z.of_nat width.
Proof.
  intros Hposition Hparse Hpos'. cbn in Hparse.
  unfold parse_ReducedValue in Hparse.
  destruct (digit_run width _ <? width)%nat.
  - inversion Hparse; subst.
    pose proof (bitnot_negative position Hposition). lia.
  - eexists. split.
    + eapply setParsedField_bound; eauto.
    + apply reduced_value_in_window.
      pose proof (digits_value_bound width
                    (skip (Z.to_nat position) text) 0 ltac:(lia)).
      lia.
Qed.

(** C3.  A value that [ReducedValue(field, width, maxWidth, base)] parses
    successfully, from a cursor position, lies in the window [[base, base
    + 10^width)]; and [ReducedValue(Year,2,2,2000)] parses "12" to 2012
    and "99" to 2099. *)
Theorem reduced_value_window :
  (forall field width maxWidth base ctx text position ctx' pos',
     0 <= position < 2 ^ 31 ->
     parse (ReducedValue field width maxWidth base) ctx text position
       = (ctx', pos') ->
     0 <= pos' ->
     exists v,
       currentParsed ctx' !! field = Some v /\
       base_year base <= v < base_year base + 10 ^ Z.of_nat width) /\
  (exists cal position,
     unresolved reduced_year_builder "12" = Return (Some cal, position) /\
     cal !! YEAR = Some 2012) /\
  (exists cal position,
     unresolved reduced_year_builder "99" = Return (Some cal, position) /\
     cal !! YEAR = Some 2099).
Proof.
  split; [|split].
  - intros. eapply parse_ReducedValue_window; eauto.
  - eexists _, _. split; [vm_compute; reflexivity|]. now vm_compute.
  - eexists _, _. split; [vm_compute; reflexivity|]. now vm_compute.
Qed.

End ReducedValueWindow.

Lemma reduced_value_window_witness :
  exists v,
    Engine.currentParsed
      (fst (Engine.parse (Engine.ReducedValue Engine.YEAR 2 2
                            (Engine.BaseValue 1950))
              Engine.new_context "x49" 1))
      !! Engine.YEAR = Some v /\
    1950 <= v < 1950 + 10 ^ Z.of_nat 2.
Proof.
  apply (proj1 reduced_value_window Engine.YEAR 2%nat 2%nat
           (Engine.BaseValue 1950) Engine.new_context "x49" 1 _ 3).
  - lia.
  - reflexivity.
  - lia.
Defined.

(** ** The engine: adjacent values *)

(** C1.  The formatter of [appendValue(MonthOfYear,1,2,NORMAL)
    .appendValue(DayOfMonth,2)]: [parseUnresolved] from index 0 binds
    MonthOfYear to 1 and DayOfMonth to 23 on "123", with final index 3,
    and binds the same on "0123". *)
Theorem adjacent_month_day_parse :
  (exists cal position,
     unresolved month_day_builder "123" = Return (Some cal, position) /\
     cal !! Engine.MONTH_OF_YEAR = Some 1 /\
     cal !! Engine.DAY_OF_MONTH = Some 23 /\
     getIndex position = 3) /\
  (exists cal position,
     unresolved month_day_builder "0123" = Return (Some cal, position) /\
     cal !! Engine.MONTH_OF_YEAR = Some 1 /\
     cal !! Engine.DAY_OF_MONTH = Some 23).
Proof.
  split.
  - eexists _, _. split; [vm_compute; reflexivity|]. now vm_compute.
  - eexists _, _. split; [vm_compute; reflexivity|]. now vm_compute.
Qed.

(** How the builder marks the month, and how the digits are shared out:
    the month takes the run less the two digits of the day. *)
Lemma adjacent_month_day_widths :
  (exists b,
     month_day_builder = Return b /\
     Engine.frame_nodes (Engine.active b) =
       [Engine.Value Engine.MONTH_OF_YEAR 1 2 Engine.NORMAL 2;
        Engine.Value Engine.DAY_OF_MONTH 2 2 Engine.NOT_NEGATIVE 0]) /\
  snd (Engine.parse (Engine.Value Engine.MONTH_OF_YEAR 1 2 Engine.NORMAL 2)
         Engine.new_context "123" 0) = 1 /\
  snd (Engine.parse (Engine.Value Engine.MONTH_OF_YEAR 1 2 Engine.NORMAL 2)
         Engine.new_context "0123" 0) = 2.
Proof.
  split; [|split]; [|now vm_compute ..].
  eexists. split; reflexivity.
Qed.

(** ** The engine: the text of a formatter *)

(** The text of a composite that is not optional: its nodes' texts in
    round brackets. *)
Lemma toString_Composite ns :
  exists inner, Engine.toString (Engine.Composite ns false)
                = String "(" (inner +:+ ")").
Proof. eexists. cbn. reflexivity. Qed.

(** C6.  [toString()] of a formatter made by a builder is the text of the
    root node without the brackets of the root composite: the text of the
    root is that of the formatter in round brackets.  The empty builder
    gives the empty string, and the pattern "uuuu[-MM[-dd]]" gives
    "Value(Year,4,15,EXCEEDS_PAD)['-'Value(MonthOfYear,2)['-'Value(DayOfMonth,2)]]". *)
Theorem formatter_toString_strips_brackets :
  (forall b style,
     Engine.toString
       (DateTimeFormatter._printerParser (Engine.toFormatter b style))
     = "(" +:+ DateTimeFormatter.toString (Engine.toFormatter b style)
       +:+ ")") /\
  DateTimeFormatter.toString
    (Engine.toFormatter Engine.new_DateTimeFormatterBuilder Engine.SMART)
  = "" /\
  (exists b,
     Engine.appendPattern Engine.new_DateTimeFormatterBuilder "uuuu[-MM[-dd]]"
       = Some (Return b) /\
     DateTimeFormatter.toString (Engine.toFormatter b Engine.SMART)
     = "Value(Year,4,15,EXCEEDS_PAD)['-'Value(MonthOfYear,2)['-'Value(DayOfMonth,2)]]").
Proof.
  split; [|split].
  - intros b style.
    pose proof (toString_Composite
                  (Engine.frame_nodes
                     (Engine.close_all (Engine.active b) (Engine.parents b))))
      as [inner Hinner].
    rewrite (toString_strips (Engine.toFormatter b style) "(" inner ")").
    + exact Hinner.
    + exact Hinner.
    + discriminate.
  - now vm_compute.
  - eexists. split; [vm_compute; reflexivity|]. now vm_compute.
Qed.

(** ** The engine: errors of the resolver *)

(** The short text: the resolver's error is wrapped in a
    [DateTimeParseException] that quotes the whole text. *)
Lemma parse_short_text_wrapped :
  exists b,
    Engine.appendPattern Engine.new_DateTimeFormatterBuilder "uuuu-MM-dd"
      = Some (Return b) /\
    DateTimeFormatter.parse (Engine.toFormatter b Engine.STRICT)
      "2012-13-01" None
    = Throw (DateTimeParseException
               "Text '2012-13-01' could not be parsed: Invalid value for MonthOfYear: 13"
               "2012-13-01" 0
               (Some (DateTimeException "Invalid value for MonthOfYear: 13"))).
Proof. eexists. split; [vm_compute; reflexivity|]. now vm_compute. Qed.

(** C2, on the code.  A text of 70 characters that parses to its end and
    does not resolve: [parse] throws the [TypeError] of the call
    [text.subString(0, 64)] in [_createError], not a
    [DateTimeParseException]. *)
Theorem parse_long_text_throws_TypeError :
  exists b,
    long_date_builder = Some (Return b) /\
    string_length (sixty +:+ "2012-13-01") = 70 /\
    DateTimeFormatter.parse (Engine.toFormatter b Engine.STRICT)
      (sixty +:+ "2012-13-01") None
    = Throw (TypeError "text.subString is not a function") /\
    instanceof_DateTimeParseException
      (TypeError "text.subString is not a function") = false.
Proof.
  eexists. split; [vm_compute; reflexivity|].
  split; [reflexivity|]. split; [now vm_compute | reflexivity].
Qed.


(** ** Instances of the properties of the formatter *)

Lemma parseUnresolved_position_contract_witness :
  exists result position',
    DateTimeFormatter.parseUnresolved
      day_formatter
      "x" (new_ParsePosition 0) = Return (result, position') /\
    (bitnot 0 < 0 ->
       result = None /\
       getErrorIndex position' = bitnot (bitnot 0) /\
       0 <= getErrorIndex position' /\
       getIndex position' = getIndex (new_ParsePosition 0)) /\
    (0 <= bitnot 0 ->
       result = Some (DateTimeFormatter.toParsed Engine.new_context) /\
       getIndex position' = bitnot 0 /\
       getErrorIndex position' = getErrorIndex (new_ParsePosition 0)).
Proof.
  apply (parseUnresolved_position_contract
           day_formatter
           "x" (new_ParsePosition 0) Engine.new_context (bitnot 0)).
  - reflexivity.
  - right. exists 0. split; [lia | reflexivity].
Defined.

Lemma parse_requires_whole_text_witness :
  DateTimeFormatter.parse
    day_formatter
    "30th" None
  = Throw (DateTimeParseException
             ("Text '" +:+ abbreviated "30th"
              +:+ "' could not be parsed, unparsed text found at index "
              +:+ number_to_string 2)
             "30th" 2 None).
Proof.
  eapply (proj1 (parse_requires_whole_text
                   day_formatter
                   "30th" None)).
  - reflexivity.
  - unfold string_length. simpl. lia.
Defined.

Lemma withChronology_copy_witness :
  exists r h',
    DateTimeFormatter.withChronology plain_heap 1%positive iso_chronology
      = Some (r, h') /\
    (DateTimeFormatter.same_chronology plain_formatter iso_chronology = true ->
       r = 1%positive /\ h' = plain_heap) /\
    (DateTimeFormatter.same_chronology plain_formatter iso_chronology = false ->
       plain_heap !! r = None /\
       (exists o',
          h' !! r = Some o' /\
          DateTimeFormatter.chronology o' = iso_chronology /\
          DateTimeFormatter._printerParser o'
            = DateTimeFormatter._printerParser plain_formatter /\
          DateTimeFormatter._locale o'
            = DateTimeFormatter._locale plain_formatter /\
          DateTimeFormatter._decimalStyle o'
            = DateTimeFormatter._decimalStyle plain_formatter /\
          DateTimeFormatter._resolverStyle o'
            = DateTimeFormatter._resolverStyle plain_formatter /\
          DateTimeFormatter._resolverFields o'
            = DateTimeFormatter._resolverFields plain_formatter /\
          DateTimeFormatter._zone o'
            = DateTimeFormatter._zone plain_formatter) /\
       h' !! 1%positive = Some plain_formatter /\
       (forall r', r' <> r -> h' !! r' = plain_heap !! r')).
Proof.
  apply (withChronology_copy plain_heap 1%positive plain_formatter
           iso_chronology).
  - reflexivity.
  - discriminate.
Defined.

(** ** The engine: the position contract *)

Section PositionContract.
Import Engine.

(** Induction on a tree, with the property known of the nodes of a
    composite. *)
Lemma node_nested_ind (P : node -> Prop) :
  (forall literal, P (Literal literal)) ->
  (forall f lo hi s sub, P (Value f lo hi s sub)) ->
  (forall f w mw base, P (ReducedValue f w mw base)) ->
  (forall b, P (ParseCaseSensitive b)) ->
  (forall b, P (ParseStrict b)) ->
  (forall ns optional, Forall P ns -> P (Composite ns optional)) ->
  forall n, P n.
Proof.
  intros HL HV HR HC HS HComp.
  fix IH 1. intros [literal | f lo hi s sub | f w mw base | b | b | ns o].
  - apply HL.
  - apply HV.
  - apply HR.
  - apply HC.
  - apply HS.
  - apply HComp. induction ns as [|n ns IHns]; constructor.
    + apply IH.
    + exact IHns.
Qed.

Lemma parse_Composite ns optional ctx text position :
  parse (Composite ns optional) ctx text position =
    if optional then
      let '(ctx', pos') := parse_sequence ns text (startOptional ctx) position in
      if pos' <? 0 then (endOptional ctx' false, position)
      else (endOptional ctx' true, pos')
    else parse_sequence ns text ctx position.
Proof.
  cbn [parse].
  match goal with
  | |- (if optional then let '(_, _) := ?f ns _ position in _ else _) = _ =>
      assert (Hseq : forall ns ctx pos, f ns ctx pos = parse_sequence ns text ctx pos)
  end.
  { clear. induction ns as [|n ns IH]; intros ctx pos; cbn; [reflexivity|].
    destruct (parse n ctx text pos) as [ctx' pos'].
    destruct (pos' <? 0); [reflexivity | apply IH]. }
  now rewrite !Hseq.
Qed.

Lemma skip_length n s :
  String.length (skip n s) = (String.length s - n)%nat.
Proof.
  revert s. induction n as [|n IH]; intros s; cbn.
  - lia.
  - destruct s as [|c s]; cbn; [reflexivity | apply IH].
Qed.

Lemma literal_at_length cs literal s :
  literal_at cs literal s = true ->
  (String.length literal <= String.length s)%nat.
Proof.
  revert s. induction literal as [|a l IH]; intros s; cbn; [lia|].
  destruct s as [|b s]; [discriminate|].
  intros [_ H]%andb_true_iff. apply IH in H. cbn. lia.
Qed.

Lemma digit_run_length limit s :
  (digit_run limit s <= String.length s)%nat /\ (digit_run limit s <= limit)%nat.
Proof.
  revert s. induction limit as [|limit IH]; intros s; cbn; [lia|].
  destruct s as [|c s]; cbn; [lia|].
  destruct (digit_value c); [|lia].
  specialize (IH s). lia.
Qed.

Lemma setParsedField_result ctx field value errorPos successPos :
  snd (setParsedField ctx field value errorPos successPos) = successPos \/
  snd (setParsedField ctx field value errorPos successPos) = bitnot errorPos.
Proof.
  unfold setParsedField.
  destruct (currentParsed ctx !! field) as [old|]; [|now left].
  destruct (old =? value); [now left | now right].
Qed.

Lemma within_start text position :
  0 <= position <= string_length text ->
  within text position (bitnot position).
Proof. intros H. right. exists position. split; [lia | reflexivity]. Qed.

Lemma within_trans text p q r :
  p <= q -> within text q r -> within text p r.
Proof.
  intros Hpq [Hr | (e & He & ->)]; [left; lia|].
  right. exists e. split; [lia | reflexivity].
Qed.

(** The position contract of the tree walk: from a cursor in a text
    shorter than 2^31 characters, a node returns a cursor further on in
    the text, or the complement of such a cursor. *)
Lemma parse_within n : forall ctx text position,
  string_length text < 2 ^ 31 ->
  0 <= position <= string_length text ->
  within text position (snd (parse n ctx text position)).
Proof.
  induction n as [literal | f lo hi s sub | f w mw base | b | b | ns o IHns]
    using node_nested_ind; intros ctx text position Hlen31 Hp.
  - cbn. unfold parse_Literal.
    destruct (literal_at _ literal _) eqn:Hl; cbn;
      [|now apply within_start].
    apply literal_at_length in Hl. rewrite skip_length in Hl.
    left. unfold string_length in *. lia.
  - cbn. unfold parse_Value.
    pose proof (skip_length (Z.to_nat position) text) as Hlen.
    destruct (skip (Z.to_nat position) text) as [|c after] eqn:Hs;
      [now apply within_start|].
    cbn [String.length] in Hlen.
    set (signed := Ascii.eqb c "-" || Ascii.eqb c "+").
    set (digits := if signed then after else String c after).
    set (run := digit_run (hi + sub) digits).
    destruct (negb _); [now apply within_start|].
    destruct (run <? lo + sub)%nat; [now apply within_start|].
    destruct (_ && _ && _); [now apply within_start|].
    destruct (_ && _ && _); [now apply within_start|].
    match goal with
    | |- within _ _ (snd (setParsedField ?a ?b ?c ?d ?e)) =>
        destruct (setParsedField_result a b c d e) as [-> | ->]
    end; [|now apply within_start].
    left. pose proof (digit_run_length (hi + sub) digits) as [Hrun _].
    fold run in Hrun. unfold string_length in *.
    subst digits. destruct signed; cbn [String.length] in Hrun; lia.
  - cbn. unfold parse_ReducedValue.
    pose proof (skip_length (Z.to_nat position) text) as Hlen.
    pose proof (digit_run_length w (skip (Z.to_nat position) text)) as [Hrun _].
    destruct (Nat.ltb_spec (digit_run w (skip (Z.to_nat position) text)) w);
      [now apply within_start|].
    match goal with
    | |- within _ _ (snd (setParsedField ?a ?b ?c ?d ?e)) =>
        destruct (setParsedField_result a b c d e) as [-> | ->]
    end; [|now apply within_start].
    left. unfold string_length in *. lia.
  - cbn. left. lia.
  - cbn. left. lia.
  - assert (Hseq : forall ctx position,
      0 <= position <= string_length text ->
      within text position (snd (parse_sequence ns text ctx position))).
    { clear ctx position Hp.
      induction IHns as [|n ns Hn _ IH]; intros ctx position Hp; cbn.
      - left. lia.
      - specialize (Hn ctx text position Hlen31 Hp).
        destruct (parse n ctx text position) as [ctx' pos']. cbn in Hn.
        destruct (Z.ltb_spec pos' 0); [exact Hn|].
        destruct Hn as [Hn | (e & He & ->)].
        + eapply within_trans; [|apply IH]; lia.
        + pose proof (bitnot_negative e ltac:(lia)). lia. }
    rewrite parse_Composite. destruct o; [|apply Hseq, Hp].
    specialize (Hseq (startOptional ctx) position Hp).
    destruct (parse_sequence ns text (startOptional ctx) position)
      as [ctx' pos'].
    cbn in Hseq. destruct (Z.ltb_spec pos' 0); cbn; [left; lia | exact Hseq].
Qed.

(** The trees of the engine honour the contract that the formatter relies
    on, on a text shorter than 2^31 characters. *)
Lemma parse_cursor_result n ctx text position :
  string_length text < 2 ^ 31 ->
  0 <= position <= string_length text ->
  cursor_result (snd (parse n ctx text position)).
Proof.
  intros Hlen Hp.
  destruct (parse_within n ctx text position Hlen Hp) as [Hr | (e & He & Hr)].
  - left. lia.
  - right. exists e. split; [lia | exact Hr].
Qed.

End PositionContract.

(** The position contract of [parseUnresolved] on the engine (section 8):
    on failure the result is [null], [errorIndex] is a position in the
    text from the cursor on, and [index] is as before; on success [index]
    has moved on within the text and [errorIndex] is as before. *)
Lemma engine_position_contract
    (f : DateTimeFormatter.formatter) (text : string)
    (position : ParsePosition) :
  string_length text < 2 ^ 31 ->
  0 <= getIndex position <= string_length text ->
  exists result position',
    DateTimeFormatter.parseUnresolved f text position
      = Return (result, position') /\
    (result = None ->
       getIndex position <= getErrorIndex position' <= string_length text /\
       getIndex position' = getIndex position) /\
    (result <> None ->
       getIndex position <= getIndex position' <= string_length text /\
       getErrorIndex position' = getErrorIndex position).
Proof.
  intros Hlen Hp.
  unfold DateTimeFormatter.parseUnresolved, DateTimeFormatter._parseUnresolved0.
  cbn.
  pose proof (parse_within (DateTimeFormatter._printerParser f)
                Engine.new_context text (getIndex position) Hlen Hp) as Hw.
  destruct (Engine.parse _ Engine.new_context text (getIndex position))
    as [ctx pos].
  cbn in Hw.
  destruct (Z.ltb_spec pos 0) as [Hneg | Hnonneg].
  - eexists _, _. split; [reflexivity|]. split; [|congruence].
    intros _. cbn. destruct Hw as [Hw | (e & He & ->)]; [lia|].
    rewrite bitnot_bitnot by lia. unfold getIndex in *. lia.
  - eexists _, _. split; [reflexivity|]. split; [discriminate|].
    intros _. cbn. unfold getIndex, getErrorIndex in *.
    destruct Hw as [Hw | (e & He & ->)]; [lia|].
    pose proof (bitnot_negative e ltac:(lia)). lia.
Qed.
(** ** Period: the texts that parse reads *)


Lemma uint_of_char_digit a d u :
  uint_of_char a d = Some u -> is_digit a = true.
Proof.
  destruct d as [d|]; [|discriminate].
  destruct a as [[] [] [] [] [] [] [] []]; simpl; try discriminate;
    reflexivity.
Qed.

(** The strings that [uint_of_string] reads are runs of digits. *)
Lemma uint_of_string_digits s u :
  NilEmpty.uint_of_string s = Some u -> all_chars is_digit s = true.
Proof.
  revert u. induction s as [|a s IH]; intros u; simpl; [reflexivity|].
  intros H. rewrite (uint_of_char_digit _ _ _ H).
  destruct (NilEmpty.uint_of_string s) as [u'|]; [now rewrite (IH u')|].
  discriminate.
Qed.

(** A numeral is an optional sign and a non-empty run of digits. *)
Lemma numeral_shape n v :
  numeral_value n = Some v ->
  exists sg c ds,
    n = sg +:+ String c ds /\ sign_text sg /\
    is_digit c = true /\ all_chars is_digit ds = true.
Proof.
  unfold numeral_value, sign_text. destruct n as [|a s]; [discriminate|].
  destruct (Ascii.eqb_spec a "-") as [-> | Hm].
  { destruct s as [|c ds]; [discriminate|].
    destruct (NilEmpty.uint_of_string (String c ds)) as [u|] eqn:E;
      [|discriminate].
    intros _. apply uint_of_string_digits in E. simpl in E.
    apply andb_true_iff in E as [Hc Hds].
    exists "-", c, ds. auto. }
  destruct (Ascii.eqb_spec a "+") as [-> | Hp].
  { destruct s as [|c ds]; [discriminate|].
    destruct (NilEmpty.uint_of_string (String c ds)) as [u|] eqn:E;
      [|discriminate].
    intros _. apply uint_of_string_digits in E. simpl in E.
    apply andb_true_iff in E as [Hc Hds].
    exists "+", c, ds. auto. }
  destruct (NilEmpty.uint_of_string (String a s)) as [u|] eqn:E;
    [|discriminate].
  intros _. apply uint_of_string_digits in E. simpl in E.
  apply andb_true_iff in E as [Hc Hds].
  exists "", a, s. auto.
Qed.

Section SectionFacts.
Import RegExp.
Context {R : Type}.

#[local] Arguments in_class : simpl never.

(** After a run of digits that a letter other than [x] follows, the
    continuation that wants [x] fails wherever [[0-9]*] stops. *)
Lemma star_other_letter x ds l rest (f : string -> captures)
    (k : string -> captures -> option R) :
  all_chars is_digit ds = true -> is_digit l = false ->
  is_digit x = false -> l <> x ->
  star Period.digit_class (ds +:+ String l rest)
    (fun s'' => m (Chr x) s'' (f s'') k) = None.
Proof.
  intros Hds Hl Hx Hlx. induction ds as [|d ds IH]; cbn [String.append star].
  - fold (is_digit l). rewrite Hl. cbn [m].
    destruct (Ascii.eqb_spec l x); [congruence | reflexivity].
  - cbn [all_chars] in Hds. apply andb_true_iff in Hds as [Hd Hds].
    fold (is_digit d). rewrite Hd, (IH Hds). cbn [m].
    destruct (Ascii.eqb_spec d x); [congruence | reflexivity].
Qed.

(** A part of the pattern is skipped on a numeral that another letter
    follows. *)
Lemma part_skip_other i x sg c ds l rest caps
    (k : string -> captures -> option R) :
  sign_text sg ->
  is_digit c = true -> all_chars is_digit ds = true ->
  is_digit l = false -> is_digit x = false -> l <> x ->
  m (Period.part i x) ((sg +:+ String c ds) +:+ String l rest) caps k
  = k ((sg +:+ String c ds) +:+ String l rest) caps.
Proof.
  intros Hsg Hc Hds Hl Hx Hlx. unfold Period.part.
  set (s := (sg +:+ String c ds) +:+ String l rest).
  change (m (Opt ?r) s caps k)
    with (match m r s caps k with Some res => Some res | None => k s caps end).
  assert (Hrun : forall caps0,
    star Period.digit_class (ds +:+ String l rest)
      (fun s'' => m (Chr x) s'' (<[i := consumed s s'']> caps0) k) = None).
  { intros caps0.
    exact (star_other_letter x ds l rest
             (fun s'' => <[i := consumed s s'']> caps0) k Hds Hl Hx Hlx). }
  pose proof (digit_not_sign c Hc) as Hnosign.
  unfold is_digit in Hc.
  assert (E : m (Seq (Grp i (Seq (Opt (Cls Period.sign_class))
                                (Plus Period.digit_class))) (Chr x))
                s caps k = None).
  { destruct Hsg as [-> | [-> | ->]]; subst s; simpl in *.
    - now rewrite Hnosign, Hc, Hrun.
    - change (in_class Period.sign_class "-") with true. cbv iota.
      rewrite Hc, Hrun.
      change (in_class Period.digit_class "-") with false. reflexivity.
    - change (in_class Period.sign_class "+") with true. cbv iota.
      rewrite Hc, Hrun.
      change (in_class Period.digit_class "+") with false. reflexivity. }
  now rewrite E.
Qed.

(** A part of the pattern is skipped on a text that does not begin with a
    digit or a sign. *)
Lemma part_skip_start i x s caps (k : string -> captures -> option R) :
  no_numeral_start s = true -> m (Period.part i x) s caps k = k s caps.
Proof.
  intros Hs. unfold Period.part.
  change (m (Opt ?r) s caps k)
    with (match m r s caps k with Some res => Some res | None => k s caps end).
  destruct s as [|c s']; [reflexivity|].
  simpl in Hs. apply andb_true_iff in Hs as [Hd Hg].
  apply negb_true_iff in Hd, Hg. unfold is_digit, is_sign in *.
  simpl. now rewrite Hg, Hd.
Qed.

Lemma part_skip_not_for i x s caps (k : string -> captures -> option R) :
  is_digit x = false -> not_for x s ->
  m (Period.part i x) s caps k = k s caps.
Proof.
  intros Hx [Hs | (sg & c & ds & l & rest & -> & Hsg & Hc & Hds & Hl & Hlx)].
  - now apply part_skip_start.
  - now apply part_skip_other.
Qed.

(** A part of the pattern takes a numeral, with any of the signs, that
    its letter follows, and captures the numeral. *)
Lemma part_match_signed i x sg c ds rest caps
    (k : string -> captures -> option R) res :
  sign_text sg ->
  is_digit c = true -> all_chars is_digit ds = true -> is_digit x = false ->
  k rest (<[i := sg +:+ String c ds]> caps) = Some res ->
  m (Period.part i x) ((sg +:+ String c ds) +:+ String x rest) caps k
  = Some res.
Proof.
  intros Hsg Hc Hds Hx Hk.
  destruct Hsg as [-> | [-> | ->]];
    [apply part_match; auto | apply part_match; auto |].
  unfold Period.part.
  set (s := ("+" +:+ String c ds) +:+ String x rest).
  assert (Hr : star Period.digit_class (ds +:+ String x rest)
      (fun s'' => m (Chr x) s'' (<[i := consumed s s'']> caps) k)
    = Some res).
  { apply star_run; [exact Hds | exact Hx |].
    simpl. rewrite Ascii.eqb_refl.
    unfold s. now rewrite consumed_app. }
  unfold is_digit in Hc. subst s. simpl in *.
  change (in_class Period.sign_class "+") with true. cbv iota.
  now rewrite Hc, Hr.
Qed.

(** A part of the pattern on its section: the numeral is captured when
    the section is there; the group stays undefined when it is not and
    the text that follows is not for this part. *)
Lemma part_section i x o rest caps (k : string -> captures -> option R) :
  accepting k -> is_digit x = false -> numeral_or_none o ->
  (o = None -> not_for x rest) ->
  m (Period.part i x) (section_text o x +:+ rest) caps k
  = k rest (section_group i o caps).
Proof.
  intros Hk Hx Ho Hrest. destruct o as [n|]; simpl.
  - destruct Ho as [v Hv].
    destruct (numeral_shape n v Hv) as (sg & c & ds & -> & Hsg & Hc & Hds).
    rewrite string_app_assoc. simpl.
    destruct (Hk rest (<[i := sg +:+ String c ds]> caps)) as [res Hres].
    rewrite Hres. now apply part_match_signed.
  - apply part_skip_not_for; auto.
Qed.

End SectionFacts.

(** What follows a section of another letter is not for the part of
    [x]. *)
Lemma not_for_section x o l rest :
  numeral_or_none o -> is_digit l = false -> l <> x ->
  (o = None -> not_for x rest) -> not_for x (section_text o l +:+ rest).
Proof.
  intros Ho Hl Hlx Hrest. destruct o as [n|]; [|now apply Hrest].
  destruct Ho as [v Hv].
  destruct (numeral_shape n v Hv) as (sg & c & ds & -> & Hsg & Hc & Hds).
  right. exists sg, c, ds, l, rest. simpl.
  rewrite !string_app_assoc. simpl. auto 10.
Qed.

Section PeriodParse.
Context {MU : MathUtil} {MUC : MathUtilContract MU}.
Import RegExp Period.

#[local] Arguments in_class : simpl never.

(** The head of the pattern, [([-+]?)P], on a sign and a [P]: group 1 is
    the sign, and the rest of the pattern goes on after the [P]. *)
Lemma sign_P_match {R} body sg t caps (k : string -> captures -> option R) :
  sign_text sg ->
  m (Seq (Grp 1 (Opt (Cls sign_class))) (Seq (Chr "P") body))
    (sg +:+ String "P" t) caps k
  = m body t (<[1%nat := sg]> caps) k.
Proof.
  intros [-> | [-> | ->]]; cbn [m String.append].
  - change (in_class sign_class "P") with false. cbv iota.
    change (Ascii.eqb "P" "P") with true. cbv iota.
    change (consumed (String "P" t) (String "P" t))
      with (consumed ("" +:+ String "P" t) (String "P" t)).
    now rewrite consumed_app.
  - change (in_class sign_class "-") with true. cbv iota.
    change (Ascii.eqb "P" "P") with true. cbv iota.
    change (Ascii.eqb "-" "P") with false. cbv iota.
    change (consumed (String "-" (String "P" t)) (String "P" t))
      with (consumed ("-" +:+ String "P" t) (String "P" t)).
    rewrite consumed_app. now destruct (m body t _ k).
  - change (in_class sign_class "+") with true. cbv iota.
    change (Ascii.eqb "P" "P") with true. cbv iota.
    change (Ascii.eqb "+" "P") with false. cbv iota.
    change (consumed (String "+" (String "P" t)) (String "P" t))
      with (consumed ("+" +:+ String "P" t) (String "P" t)).
    rewrite consumed_app. now destruct (m body t _ k).
Qed.

(** The head of the pattern fails at a character that is not [P], unless
    it is a sign that a [P] follows. *)
Lemma sign_P_none {R} body c rest caps (k : string -> captures -> option R) :
  c <> "P"%char ->
  (is_sign c = true ->
   match rest with String c' _ => c' <> "P"%char | EmptyString => True end) ->
  m (Seq (Grp 1 (Opt (Cls sign_class))) (Seq (Chr "P") body))
    (String c rest) caps k = None.
Proof.
  intros Hc Hrest. cbn [m]. fold (is_sign c).
  destruct (Ascii.eqb_spec c "P") as [E | _]; [congruence|].
  destruct (is_sign c); [|reflexivity].
  specialize (Hrest eq_refl). destruct rest as [|c' rest']; [reflexivity|].
  destruct (Ascii.eqb_spec c' "P") as [E | _]; [congruence | reflexivity].
Qed.

Lemma exec_match r text caps :
  m r text ∅ (fun _ c => Some c) = Some caps -> exec r text = Some caps.
Proof. intros H. destruct text; cbn [exec]; now rewrite H. Qed.

(** [exec] passes over the characters in front of the match: no [P]
    among them, and the last of them no sign in front of a [P]. *)
Lemma exec_skip pre t :
  absent "P" pre = true ->
  (ends_with_sign pre = true ->
   match t with String c' _ => c' <> "P"%char | EmptyString => True end) ->
  exec PATTERN (pre +:+ t) = exec PATTERN t.
Proof.
  induction pre as [|c pre IH]; intros Hp He; [reflexivity|].
  cbn [absent all_chars] in Hp. unfold absent in Hp. cbn [all_chars] in Hp.
  apply andb_true_iff in Hp as [Hc Hp].
  apply negb_true_iff, Ascii.eqb_neq in Hc.
  cbn [String.append exec]. unfold PATTERN at 1.
  rewrite sign_P_none.
  - apply IH; [exact Hp|]. intros Hs. apply He.
    destruct pre; [discriminate | exact Hs].
  - exact Hc.
  - intros Hs. destruct pre as [|c' pre'].
    + simpl. apply He. exact Hs.
    + simpl. unfold absent in Hp. cbn [all_chars] in Hp.
      apply andb_true_iff in Hp as [Hc' _].
      now apply negb_true_iff, Ascii.eqb_neq in Hc'.
Qed.

Lemma exec_none text : absent "P" text = true -> exec PATTERN text = None.
Proof.
  intros Hp. rewrite <- (string_app_nil_r text).
  rewrite exec_skip; [reflexivity | exact Hp | easy].
Qed.

(** [PATTERN] on a sign, a [P], four sections and what follows. *)
Lemma match_sections sg oy om ow od junk :
  sign_text sg ->
  numeral_or_none oy -> numeral_or_none om ->
  numeral_or_none ow -> numeral_or_none od ->
  (od = None -> no_numeral_start junk = true) ->
  m PATTERN (sg +:+ String "P" (sections_text oy om ow od +:+ junk)) ∅
    (fun _ caps => Some caps)
  = Some (text_groups sg oy om ow od).
Proof.
  intros Hsg Hy Hm Hw Hd Hjunk.
  set (k0 := fun (_ : string) (caps : captures) => Some caps).
  assert (Hk0 : accepting k0) by (intros s c; unfold k0; eauto).
  set (tD := section_text od "D" +:+ junk).
  set (tW := section_text ow "W" +:+ tD).
  set (tM := section_text om "M" +:+ tW).
  assert (ND : forall x, x <> "D"%char -> not_for x tD).
  { intros x Hx. apply not_for_section; auto.
    intros E. left. auto. }
  assert (NW : forall x, x <> "D"%char -> x <> "W"%char -> not_for x tW).
  { intros x HxD HxW. apply not_for_section; auto. }
  assert (NM : forall x, x <> "D"%char -> x <> "W"%char -> x <> "M"%char ->
                         not_for x tM).
  { intros x HxD HxW HxM. apply not_for_section; auto. }
  assert (HD : forall caps,
    m (part 5 "D") tD caps k0 = Some (section_group 5 od caps)).
  { intros caps. unfold tD. rewrite part_section; auto.
    intros E. left. auto. }
  assert (HW : forall caps,
    m (part 4 "W") tW caps (fun s c => m (part 5 "D") s c k0)
    = Some (section_group 5 od (section_group 4 ow caps))).
  { intros caps. unfold tW. rewrite part_section; auto.
    now apply part_accepting. }
  assert (HM : forall caps,
    m (part 3 "M") tM caps
      (fun s c => m (part 4 "W") s c (fun s c => m (part 5 "D") s c k0))
    = Some (section_group 5 od
              (section_group 4 ow (section_group 3 om caps)))).
  { intros caps. unfold tM. rewrite part_section; auto.
    now do 2 apply part_accepting. }
  unfold sections_text. rewrite !string_app_assoc.
  fold tD. fold tW. fold tM.
  unfold PATTERN. rewrite sign_P_match by exact Hsg.
  cbn [m]. rewrite part_section; auto.
  now do 3 apply part_accepting.
Qed.

Lemma text_groups_lookup sg oy om ow od :
  text_groups sg oy om ow od !! 1%nat = Some sg /\
  text_groups sg oy om ow od !! 2%nat = oy /\
  text_groups sg oy om ow od !! 3%nat = om /\
  text_groups sg oy om ow od !! 4%nat = ow /\
  text_groups sg oy om ow od !! 5%nat = od.
Proof.
  unfold text_groups, section_group.
  destruct oy, om, ow, od; repeat split; by simplify_map_eq.
Qed.

Lemma sign_factor_unit sg : sign_factor sg = 1 \/ sign_factor sg = -1.
Proof. unfold sign_factor. destruct (String.eqb sg "-"); auto. Qed.

Lemma is_int_signed v sg : is_int v -> is_int (v * sign_factor sg).
Proof.
  unfold is_int. destruct (sign_factor_unit sg) as [-> | ->]; lia.
Qed.

(** [_parseNumber] on the group of a section gives the number of the
    section, with the sign of the text. *)
Lemma parseNumber_section text o v sg :
  section_value o = Some v -> is_int v ->
  _parseNumber text o (sign_factor sg) = Return (v * sign_factor sg).
Proof.
  intros Ho Hv. destruct o as [n|]; simpl in Ho.
  - unfold _parseNumber. rewrite (parseInt_numeral n v) by assumption.
    simpl. apply safeMultiply_int; auto using is_int_signed.
    unfold is_int. destruct (sign_factor_unit sg) as [-> | ->]; lia.
  - inversion Ho. reflexivity.
Qed.

(** [parse] on a text in which [PATTERN] finds a sign and four
    sections, one of them at least there. *)
Lemma parse_groups text sg oy om ow od vy vm vw vd st :
  exec PATTERN text = Some (text_groups sg oy om ow od) ->
  section_value oy = Some vy -> section_value om = Some vm ->
  section_value ow = Some vw -> section_value od = Some vd ->
  is_int vy -> is_int vm -> is_int vw -> is_int vd ->
  is_int (vw * sign_factor sg * 7) ->
  is_int (vd * sign_factor sg + vw * sign_factor sg * 7) ->
  defined oy || defined om || defined ow || defined od = true ->
  parse text st
  = create (vy * sign_factor sg) (vm * sign_factor sg)
      (vd * sign_factor sg + vw * sign_factor sg * 7) st.
Proof.
  intros He Hy Hm Hw Hd Iy Im Iw Id Iw7 Isum Hany.
  unfold parse, _parse. rewrite He.
  destruct (text_groups_lookup sg oy om ow od) as (-> & -> & -> & -> & ->).
  rewrite Hany.
  replace (if decide (Some sg = Some "-") then -1 else 1)
    with (sign_factor sg).
  2:{ unfold sign_factor. destruct (String.eqb_spec sg "-") as [-> | Hne].
      - now rewrite decide_True.
      - rewrite decide_False; [reflexivity | congruence]. }
  rewrite (parseNumber_section text oy vy sg Hy Iy).
  rewrite (parseNumber_section text om vm sg Hm Im).
  rewrite (parseNumber_section text ow vw sg Hw Iw).
  rewrite (parseNumber_section text od vd sg Hd Id).
  unfold mbind, eval_bind, lift.
  rewrite (safeMultiply_int (vw * sign_factor sg) 7)
    by (auto using is_int_signed; unfold is_int; lia).
  rewrite (safeAdd_int (vd * sign_factor sg) (vw * sign_factor sg * 7))
    by (auto using is_int_signed).
  unfold create.
  rewrite new_Period_int by (auto using is_int_signed).
  now destruct (decide _).
Qed.

Lemma exec_sections pre sg oy om ow od junk :
  absent "P" pre = true -> (ends_with_sign pre = true -> sg <> "") ->
  sign_text sg ->
  numeral_or_none oy -> numeral_or_none om ->
  numeral_or_none ow -> numeral_or_none od ->
  (od = None -> no_numeral_start junk = true) ->
  exec PATTERN
    (pre +:+ sg +:+ String "P" (sections_text oy om ow od +:+ junk))
  = Some (text_groups sg oy om ow od).
Proof.
  intros Hpre Hend Hsg Hy Hm Hw Hd Hjunk.
  rewrite exec_skip.
  - now apply exec_match, match_sections.
  - exact Hpre.
  - intros He. specialize (Hend He).
    destruct Hsg as [-> | [-> | ->]]; simpl; congruence.
Qed.

Lemma section_value_numeral o v : section_value o = Some v -> numeral_or_none o.
Proof. destruct o; simpl; eauto. Qed.

(** X1. [Period.parse] does not anchor its pattern and reads what the
    pattern finds: in front of the text, characters without a [P] (the last
    of them a sign only when the text has its own); then the sign, the [P]
    and the sections of years, months, weeks and days, each a numeral and
    its letter or nothing, one at least there; after a section of days
    anything, and else something that does not begin with a digit or a sign.
    The result is what [Period.create] makes of the numbers with the sign of
    the text, the weeks counted as seven days each. *)
Theorem Period_parse_text (pre sg : string) (oy om ow od : option string)
    (junk : string) (vy vm vw vd : Z) (st : store) :
  absent "P" pre = true -> (ends_with_sign pre = true -> sg <> "") ->
  sign_text sg ->
  section_value oy = Some vy -> section_value om = Some vm ->
  section_value ow = Some vw -> section_value od = Some vd ->
  is_int vy -> is_int vm -> is_int vw -> is_int vd ->
  is_int (vw * sign_factor sg * 7) ->
  is_int (vd * sign_factor sg + vw * sign_factor sg * 7) ->
  defined oy || defined om || defined ow || defined od = true ->
  (od = None -> no_numeral_start junk = true) ->
  parse (pre +:+ sg +:+ String "P" (sections_text oy om ow od +:+ junk)) st
  = create (vy * sign_factor sg) (vm * sign_factor sg)
      (vd * sign_factor sg + vw * sign_factor sg * 7) st.
Proof.
  intros Hpre Hend Hsg Hy Hm Hw Hd Iy Im Iw Id Iw7 Isum Hany Hjunk.
  apply (parse_groups _ sg oy om ow od vy vm vw vd); auto.
  apply exec_sections; eauto using section_value_numeral.
Qed.

(** X2. [Period.parse] throws a [DateTimeParseException] at index 0 on a
    text without a capital [P]; a small [p] does not do. *)
Theorem Period_parse_without_P (text : string) (st : store) :
  absent "P" text = true ->
  parse text st
  = Throw (DateTimeParseException "Text cannot be parsed to a Period"
             text 0 None).
Proof.
  intros Hp. unfold parse, _parse. now rewrite exec_none.
Qed.

(** X3. [Period.parse] throws a [DateTimeParseException] at index 0 on a
    text whose [P] no section follows: on ["P"] and ["-P"], and on a [P]
    with something else behind it, as in ["PT1H"]. *)
Theorem Period_parse_without_sections (pre sg junk : string) (st : store) :
  absent "P" pre = true -> (ends_with_sign pre = true -> sg <> "") ->
  sign_text sg -> no_numeral_start junk = true ->
  parse (pre +:+ sg +:+ String "P" junk) st
  = Throw (DateTimeParseException "Text cannot be parsed to a Period"
             (pre +:+ sg +:+ String "P" junk) 0 None).
Proof.
  intros Hpre Hend Hsg Hjunk.
  pose proof (exec_sections pre sg None None None None junk
                Hpre Hend Hsg I I I I (fun _ => Hjunk)) as He.
  change (sections_text None None None None +:+ junk) with junk in He.
  unfold parse, _parse. rewrite He.
  destruct (text_groups_lookup sg None None None None)
    as (_ & -> & -> & -> & ->).
  reflexivity.
Qed.

End PeriodParse.

(** ** Period: the operations *)

Lemma int_MathUtilArith_contract : MathUtilArithContract int_MathUtilArith.
Proof.
  split; [|reflexivity..].
  intros a b _ _ H. now apply checked_int_int.
Qed.

Lemma is_int_opp z : is_int z -> is_int (- z).
Proof. unfold is_int. lia. Qed.

Lemma is_int_small z : -12 <= z <= 12 -> is_int z.
Proof. unfold is_int. lia. Qed.

Lemma is_int_negated z : is_int z -> is_int (z * -1).
Proof. unfold is_int. lia. Qed.

Lemma is_int_minus_one : is_int (-1).
Proof. unfold is_int. lia. Qed.

Section PeriodOperations.
Context {MU : MathUtil} {MUC : MathUtilContract MU}.
Context {MA : MathUtilArith} {MAC : MathUtilArithContract MA}.
Import Period PeriodOps.

(** What [Period.create] returns on [int]s: the units are the arguments;
    the object is [Period.ZERO] when they are all 0 and a new one of the
    store when not. *)
Lemma create_result y mo d st :
  is_int y -> is_int mo -> is_int d ->
  exists p st',
    create y mo d st = Return (p, st') /\ has_units p y mo d /\
    (st <= st')%nat /\
    (initialised st -> allocated st' p) /\
    (y = 0 /\ mo = 0 /\ d = 0 -> p = ZERO).
Proof.
  intros Hy Hm Hd. unfold create. rewrite new_Period_int by assumption.
  destruct (decide (y = 0 /\ mo = 0 /\ d = 0)) as [(-> & -> & ->) | Hnz].
  - exists ZERO, (S st). unfold has_units, allocated. cbn. auto 10.
  - exists (mk_period st y mo d), (S st).
    unfold has_units, allocated, initialised, initial_store. cbn.
    split; [reflexivity|]. split; [auto|]. split; [lia|].
    split; [|tauto]. intros Hst. right. split; [lia | exact Hnz].
Qed.

Lemma equals_same_units a b :
  _years a = _years b -> _months a = _months b -> _days a = _days b ->
  equals a b = true.
Proof.
  intros Hy Hm Hd. unfold equals. destruct (same a b); [reflexivity|].
  rewrite Hy, Hm, Hd, !Z.eqb_refl. reflexivity.
Qed.

Lemma same_ZERO st p : allocated st p -> same p ZERO = true -> p = ZERO.
Proof.
  intros [-> | [Ho _]] Hs; [reflexivity|].
  unfold same in Hs. apply Nat.eqb_eq in Hs. cbn in Hs. lia.
Qed.

(** Running an evaluation: the binds of the two monads. *)
Ltac run := unfold mbind, eval_bind, mret, eval_ret, lift; cbn beta iota.

(** X6. [p.plus(q).minus(q)] has the units of [p], for periods whose units
    and sums of units are [int]s. *)
Theorem plus_minus_inverse (p q : period) (st : store) :
  valid p -> valid q ->
  is_int (_years p + _years q) -> is_int (_months p + _months q) ->
  is_int (_days p + _days q) ->
  exists r st1 r' st2,
    plus p (a_Period q) st = Return (r, st1) /\
    minus r (a_Period q) st1 = Return (r', st2) /\
    has_units r (_years p + _years q) (_months p + _months q)
      (_days p + _days q) /\
    has_units r' (_years p) (_months p) (_days p) /\
    equals r' p = true.
Proof.
  intros (Py & Pm & Pd) (Qy & Qm & Qd) Sy Sm Sd.
  destruct (create_result _ _ _ st Sy Sm Sd)
    as (r & st1 & Hr & (Ry & Rm & Rd) & _).
  assert (Dy : _years r - _years q = _years p) by lia.
  assert (Dm : _months r - _months q = _months p) by lia.
  assert (Dd : _days r - _days q = _days p) by lia.
  destruct (create_result _ _ _ st1 Py Pm Pd)
    as (r' & st2 & Hr' & (Ry' & Rm' & Rd') & _).
  exists r, st1, r', st2.
  split.
  { unfold plus, from. run. rewrite !safeAdd_int by assumption. exact Hr. }
  split.
  { unfold minus, from. run.
    rewrite !safeSubtract_int
      by (rewrite ?Dy, ?Dm, ?Dd, ?Ry, ?Rm, ?Rd; assumption).
    rewrite Dy, Dm, Dd. exact Hr'. }
  split; [unfold has_units; auto|].
  split; [unfold has_units; auto|].
  now apply equals_same_units.
Qed.

(** X7. [p.minus(q)] has the units of [p.plus(q.negated())]. *)
Theorem minus_is_plus_negated (p q : period) (st : store) :
  valid p -> valid q -> allocated st q ->
  is_int (_years p - _years q) -> is_int (_months p - _months q) ->
  is_int (_days p - _days q) ->
  exists r1 st1 nq st2 r2 st3,
    minus p (a_Period q) st = Return (r1, st1) /\
    negated q st1 = Return (nq, st2) /\
    plus p (a_Period nq) st2 = Return (r2, st3) /\
    has_units r1 (_years p - _years q) (_months p - _months q)
      (_days p - _days q) /\
    equals r1 r2 = true.
Proof.
  intros (Py & Pm & Pd) (Qy & Qm & Qd) Hq Sy Sm Sd.
  destruct (create_result _ _ _ st Sy Sm Sd)
    as (r1 & st1 & Hr1 & (Ry & Rm & Rd) & _).
  assert (Hminus : minus p (a_Period q) st = Return (r1, st1)).
  { unfold minus, from. run. rewrite !safeSubtract_int by assumption.
    exact Hr1. }
  assert (Hneg : exists nq st2,
    negated q st1 = Return (nq, st2) /\
    has_units nq (- _years q) (- _months q) (- _days q)).
  { unfold negated, multipliedBy.
    destruct (same q ZERO) eqn:Hs.
    - apply (same_ZERO st) in Hs; [|exact Hq]. subst q.
      exists ZERO, st1. cbn. unfold has_units. cbn. auto.
    - change (-1 =? 1) with false. cbn [orb]. run.
      rewrite !safeMultiply_int
        by auto using is_int_negated, is_int_minus_one.
      destruct (create_result (_years q * -1) (_months q * -1)
                  (_days q * -1) st1)
        as (nq & st2 & Hnq & (Ny & Nm & Nd) & _);
        auto using is_int_negated.
      exists nq, st2. split; [exact Hnq|]. unfold has_units. lia. }
  destruct Hneg as (nq & st2 & Hnq & (Ny & Nm & Nd)).
  assert (Ey : _years p + _years nq = _years p - _years q) by lia.
  assert (Em : _months p + _months nq = _months p - _months q) by lia.
  assert (Ed : _days p + _days nq = _days p - _days q) by lia.
  destruct (create_result _ _ _ st2 Sy Sm Sd)
    as (r2 & st3 & Hr2 & (Ry2 & Rm2 & Rd2) & _).
  exists r1, st1, nq, st2, r2, st3.
  split; [exact Hminus|]. split; [exact Hnq|].
  split.
  { unfold plus, from. run.
    rewrite !safeAdd_int
      by (rewrite ?Ny, ?Nm, ?Nd, ?Ey, ?Em, ?Ed; auto using is_int_opp).
    rewrite Ey, Em, Ed. exact Hr2. }
  split; [unfold has_units; auto|].
  apply equals_same_units; congruence.
Qed.

End PeriodOperations.

(** Quotient and remainder by 12, as [normalized] uses them. *)
Lemma quot_rem_12 a :
  a = Z.quot a 12 * 12 + Z.rem a 12 /\
  Z.abs (Z.rem a 12) < 12 /\
  0 <= Z.quot a 12 * Z.rem a 12.
Proof.
  pose proof (Z.quot_rem' a 12) as E.
  pose proof (Z.rem_bound_abs a 12 ltac:(lia)) as B.
  split; [lia|]. split; [lia|].
  destruct (Z.le_gt_cases 0 a) as [Ha | Ha].
  - pose proof (Z.rem_bound_pos a 12 Ha ltac:(lia)).
    pose proof (Z.quot_pos a 12 Ha ltac:(lia)). nia.
  - assert (Hq : Z.quot a 12 = - Z.quot (- a) 12)
      by (rewrite Z.quot_opp_l; lia).
    assert (Hr : Z.rem a 12 = - Z.rem (- a) 12)
      by (rewrite Z.rem_opp_l; lia).
    pose proof (Z.rem_bound_pos (- a) 12 ltac:(lia) ltac:(lia)).
    pose proof (Z.quot_pos (- a) 12 ltac:(lia) ltac:(lia)).
    rewrite Hq, Hr. nia.
Qed.

Section PeriodScaling.
Context {MU : MathUtil} {MUC : MathUtilContract MU}.
Context {MA : MathUtilArith} {MAC : MathUtilArithContract MA}.
Import Period PeriodOps.

Ltac run := unfold mbind, eval_bind, mret, eval_ret, lift; cbn beta iota.

Lemma allocated_mono st st' p :
  allocated st p -> (st <= st')%nat -> allocated st' p.
Proof. intros [-> | [Ho Hnz]] Hle; [now left | right; split; [lia | exact Hnz]]. Qed.

Lemma same_ZERO_false p : (0 < oid p)%nat -> same p ZERO = false.
Proof. intros Ho. unfold same. apply Nat.eqb_neq. cbn. lia. Qed.

(** [multipliedBy] on a period object of the store: the units are
    multiplied, whichever way the result is obtained. *)
Lemma multipliedBy_units p k st :
  allocated st p -> valid p -> is_int k ->
  is_int (_years p * k) -> is_int (_months p * k) -> is_int (_days p * k) ->
  exists r st',
    multipliedBy p k st = Return (r, st') /\
    has_units r (_years p * k) (_months p * k) (_days p * k) /\
    allocated st' r /\ (st <= st')%nat.
Proof.
  intros Hp (Py & Pm & Pd) Hk Sy Sm Sd. unfold multipliedBy.
  destruct Hp as [-> | [Ho Hnz]].
  { exists ZERO, st. cbn. unfold has_units, allocated. cbn. auto 10. }
  assert (Hp : allocated st p) by (right; auto).
  rewrite (same_ZERO_false p) by lia. cbn [orb].
  destruct (Z.eqb_spec k 1) as [-> | Hk1].
  { exists p, st. unfold has_units. rewrite !Z.mul_1_r. auto 10. }
  run. rewrite !safeMultiply_int by assumption.
  destruct (create_result _ _ _ st Sy Sm Sd)
    as (r & st' & Hr & Hu & Hle & Ha & _).
  exists r, st'. split; [exact Hr|]. split; [exact Hu|].
  split; [|exact Hle]. apply Ha. unfold initialised, initial_store. lia.
Qed.

(** X8. [p.negated().negated()] has the units of [p]; the negation of
    [Period.ZERO] is [Period.ZERO] itself. *)
Theorem negated_involution (p : period) (st : store) :
  allocated st p -> valid p ->
  exists r1 st1 r2 st2,
    negated p st = Return (r1, st1) /\
    negated r1 st1 = Return (r2, st2) /\
    has_units r1 (- _years p) (- _months p) (- _days p) /\
    equals r2 p = true /\
    (isZero p = true -> r1 = ZERO /\ r2 = ZERO).
Proof.
  intros Hp Hv. pose proof Hv as (Py & Pm & Pd).
  destruct (multipliedBy_units p (-1) st)
    as (r1 & st1 & H1 & (Ry & Rm & Rd) & Ha1 & _);
    auto using is_int_negated, is_int_minus_one.
  assert (Hv1 : valid r1).
  { unfold valid. rewrite Ry, Rm, Rd. auto using is_int_negated. }
  destruct (multipliedBy_units r1 (-1) st1)
    as (r2 & st2 & H2 & (Ry2 & Rm2 & Rd2) & _);
    auto using is_int_minus_one;
    try (rewrite ?Ry, ?Rm, ?Rd; auto using is_int_negated).
  exists r1, st1, r2, st2. unfold negated.
  split; [exact H1|]. split; [exact H2|].
  split; [unfold has_units; lia|].
  split; [apply equals_same_units; lia|].
  intros Hz. unfold isZero in Hz. apply (same_ZERO st) in Hz; [|exact Hp].
  subst p. cbn in H1. inversion H1; subst r1 st1.
  cbn in H2. inversion H2. auto.
Qed.

(** X9. [p.multipliedBy(a).multipliedBy(b)] has the units of
    [p.multipliedBy(a * b)]. *)
Theorem multipliedBy_compose (p : period) (a b : Z) (st : store) :
  allocated st p -> valid p -> is_int a -> is_int b -> is_int (a * b) ->
  is_int (_years p * a) -> is_int (_months p * a) -> is_int (_days p * a) ->
  is_int (_years p * (a * b)) -> is_int (_months p * (a * b)) ->
  is_int (_days p * (a * b)) ->
  exists r1 st1 r2 st2 r3 st3,
    multipliedBy p a st = Return (r1, st1) /\
    multipliedBy r1 b st1 = Return (r2, st2) /\
    multipliedBy p (a * b) st2 = Return (r3, st3) /\
    has_units r2 (_years p * (a * b)) (_months p * (a * b))
      (_days p * (a * b)) /\
    equals r2 r3 = true.
Proof.
  intros Hp Hv Ha Hb Hab Ay Am Ad By Bm Bd.
  destruct (multipliedBy_units p a st)
    as (r1 & st1 & H1 & (Ry & Rm & Rd) & Ha1 & Hle1); auto.
  assert (Hv1 : valid r1) by (unfold valid; rewrite Ry, Rm, Rd; auto).
  destruct (multipliedBy_units r1 b st1)
    as (r2 & st2 & H2 & (Ry2 & Rm2 & Rd2) & _ & Hle2); auto;
    try (rewrite ?Ry, ?Rm, ?Rd, <- Z.mul_assoc; assumption).
  destruct (multipliedBy_units p (a * b) st2)
    as (r3 & st3 & H3 & (Ry3 & Rm3 & Rd3) & _); auto.
  { eapply allocated_mono; [exact Hp | lia]. }
  exists r1, st1, r2, st2, r3, st3.
  split; [exact H1|]. split; [exact H2|]. split; [exact H3|].
  split; [unfold has_units; rewrite Ry2, Rm2, Rd2, Ry, Rm, Rd; lia|].
  apply equals_same_units; rewrite ?Ry2, ?Rm2, ?Rd2, ?Ry, ?Rm, ?Rd; lia.
Qed.

(** X10. [p.multipliedBy(0)] is [Period.ZERO] itself: [Period.ZERO] returns
    itself, and for another period the constructor, called with three
    zeros, returns [Period.ZERO] in place of the object it has made. *)
Theorem multipliedBy_zero (p : period) (st : store) :
  allocated st p -> valid p ->
  multipliedBy p 0 st = Return (ZERO, if isZero p then st else S st).
Proof.
  intros Hp (Py & Pm & Pd). unfold multipliedBy, isZero.
  destruct Hp as [-> | [Ho Hnz]]; [reflexivity|].
  rewrite (same_ZERO_false p) by lia. cbn [orb Z.eqb]. run.
  rewrite !safeMultiply_int
    by (rewrite ?Z.mul_0_r; auto; apply is_int_small; lia).
  rewrite !Z.mul_0_r. unfold create.
  rewrite new_Period_int by (apply is_int_small; lia).
  now rewrite decide_True.
Qed.

(** X11. [p.normalized()] keeps the total of months and the days, leaves
    fewer than 12 months, of the sign of the years, and is returned as it is
    when normalized again. *)
Theorem normalized_canonical (p : period) (st : store) :
  valid p -> is_int (Z.quot (toTotalMonths p) 12) ->
  exists r st',
    normalized p st = Return (r, st') /\
    toTotalMonths r = toTotalMonths p /\
    _days r = _days p /\
    Z.abs (_months r) < 12 /\
    0 <= _years r * _months r /\
    normalized r st' = Return (r, st').
Proof.
  intros (Py & Pm & Pd) Hq.
  destruct (quot_rem_12 (toTotalMonths p)) as (E & Habs & Hsign).
  assert (Hfix : forall r st',
    _years r = Z.quot (toTotalMonths p) 12 ->
    _months r = Z.rem (toTotalMonths p) 12 ->
    toTotalMonths r = toTotalMonths p /\
    normalized r st' = Return (r, st')).
  { intros r st' Hy Hm.
    assert (Et : toTotalMonths r = toTotalMonths p).
    { unfold toTotalMonths at 1. rewrite Hy, Hm. lia. }
    split; [exact Et|]. unfold normalized.
    rewrite intDiv_quot, intMod_rem, Et, Hy, Hm, !Z.eqb_refl by lia.
    reflexivity. }
  unfold normalized at 1. rewrite intDiv_quot, intMod_rem by lia.
  destruct (Z.eqb_spec (Z.quot (toTotalMonths p) 12) (_years p)) as [Ey | Ny];
    [destruct (Z.eqb_spec (Z.rem (toTotalMonths p) 12) (_months p))
       as [Em | Nm]|]; cbn [andb].
  - exists p, st. destruct (Hfix p st) as (Ht & Hn); auto.
    split; [reflexivity|]. split; [reflexivity|]. split; [reflexivity|].
    rewrite <- Ey, <- Em. auto.
  - run. rewrite safeToInt_int by assumption.
    destruct (create_result (Z.quot (toTotalMonths p) 12)
                (Z.rem (toTotalMonths p) 12) (_days p) st)
      as (r & st' & Hr & (Ry & Rm & Rd) & _); auto.
    { apply is_int_small. lia. }
    exists r, st'. destruct (Hfix r st' Ry Rm) as (Ht & Hn).
    rewrite Ry, Rm. auto 10.
  - run. rewrite safeToInt_int by assumption.
    destruct (create_result (Z.quot (toTotalMonths p) 12)
                (Z.rem (toTotalMonths p) 12) (_days p) st)
      as (r & st' & Hr & (Ry & Rm & Rd) & _); auto.
    { apply is_int_small. lia. }
    exists r, st'. destruct (Hfix r st' Ry Rm) as (Ht & Hn).
    rewrite Ry, Rm. auto 10.
Qed.

End PeriodScaling.

Section PeriodUnits.
Context {MU : MathUtil} {MUC : MathUtilContract MU}.
Context {MA : MathUtilArith} {MAC : MathUtilArithContract MA}.
Import Period PeriodOps.

Ltac run := unfold mbind, eval_bind, mret, eval_ret, lift; cbn beta iota.

(** X12. [withYears], [withMonths] and [withDays] set their unit and keep
    the other two; the period itself is returned when the unit has that
    amount already. *)
Theorem with_sets_one_unit (p : period) (v : Z) (st : store) :
  valid p -> is_int v ->
  (exists r st',
     withYears p v st = Return (r, st') /\
     has_units r v (_months p) (_days p) /\
     (v = _years p -> r = p /\ st' = st)) /\
  (exists r st',
     withMonths p v st = Return (r, st') /\
     has_units r (_years p) v (_days p) /\
     (v = _months p -> r = p /\ st' = st)) /\
  (exists r st',
     withDays p v st = Return (r, st') /\
     has_units r (_years p) (_months p) v /\
     (v = _days p -> r = p /\ st' = st)).
Proof.
  intros (Py & Pm & Pd) Hv.
  split; [|split].
  - unfold withYears. destruct (Z.eqb_spec v (_years p)) as [-> | Hne].
    + exists p, st. unfold has_units. auto.
    + destruct (create_result v (_months p) (_days p) st)
        as (r & st' & Hr & Hu & _); auto.
      exists r, st'. split; [exact Hr|]. split; [exact Hu | congruence].
  - unfold withMonths. destruct (Z.eqb_spec v (_months p)) as [-> | Hne].
    + exists p, st. unfold has_units. auto.
    + destruct (create_result (_years p) v (_days p) st)
        as (r & st' & Hr & Hu & _); auto.
      exists r, st'. split; [exact Hr|]. split; [exact Hu | congruence].
  - unfold withDays. destruct (Z.eqb_spec v (_days p)) as [-> | Hne].
    + exists p, st. unfold has_units. auto.
    + destruct (create_result (_years p) (_months p) v st)
        as (r & st' & Hr & Hu & _); auto.
      exists r, st'. split; [exact Hr|]. split; [exact Hu | congruence].
Qed.

Lemma plusYears_units p n st :
  valid p -> is_int n -> is_int (_years p + n) ->
  exists r st',
    plusYears p n st = Return (r, st') /\
    has_units r (_years p + n) (_months p) (_days p) /\
    (n = 0 -> r = p).
Proof.
  intros (Py & Pm & Pd) Hn Hs. unfold plusYears.
  destruct (Z.eqb_spec n 0) as [-> | Hne].
  - exists p, st. unfold has_units. rewrite Z.add_0_r. auto.
  - run. rewrite safeAdd_int by assumption. cbn.
    rewrite safeToInt_int by assumption.
    destruct (create_result (_years p + n) (_months p) (_days p) st)
      as (r & st' & Hr & Hu & _); auto.
    exists r, st'. split; [exact Hr|]. split; [exact Hu | congruence].
Qed.

Lemma plusMonths_units p n st :
  valid p -> is_int n -> is_int (_months p + n) ->
  exists r st',
    plusMonths p n st = Return (r, st') /\
    has_units r (_years p) (_months p + n) (_days p) /\
    (n = 0 -> r = p).
Proof.
  intros (Py & Pm & Pd) Hn Hs. unfold plusMonths.
  destruct (Z.eqb_spec n 0) as [-> | Hne].
  - exists p, st. unfold has_units. rewrite Z.add_0_r. auto.
  - run. rewrite safeAdd_int by assumption. cbn.
    rewrite safeToInt_int by assumption.
    destruct (create_result (_years p) (_months p + n) (_days p) st)
      as (r & st' & Hr & Hu & _); auto.
    exists r, st'. split; [exact Hr|]. split; [exact Hu | congruence].
Qed.

Lemma plusDays_units p n st :
  valid p -> is_int n -> is_int (_days p + n) ->
  exists r st',
    plusDays p n st = Return (r, st') /\
    has_units r (_years p) (_months p) (_days p + n) /\
    (n = 0 -> r = p).
Proof.
  intros (Py & Pm & Pd) Hn Hs. unfold plusDays.
  destruct (Z.eqb_spec n 0) as [-> | Hne].
  - exists p, st. unfold has_units. rewrite Z.add_0_r. auto.
  - run. rewrite safeAdd_int by assumption. cbn.
    rewrite safeToInt_int by assumption.
    destruct (create_result (_years p) (_months p) (_days p + n) st)
      as (r & st' & Hr & Hu & _); auto.
    exists r, st'. split; [exact Hr|]. split; [exact Hu | congruence].
Qed.

Lemma is_int_minus n : is_int n -> is_int (-1 * n).
Proof. unfold is_int. lia. Qed.

(** X13. Adding an amount to one unit and subtracting it again gives the
    units of the period back: [p.plusYears(n).minusYears(n)], and the same
    for months and for days. With the amount 0 both calls return the period
    itself. *)
Theorem plus_unit_minus_unit (p : period) (n : Z) (st : store) :
  valid p -> is_int n ->
  (is_int (_years p + n) ->
   exists r st1 r' st2,
     plusYears p n st = Return (r, st1) /\
     minusYears r n st1 = Return (r', st2) /\
     has_units r (_years p + n) (_months p) (_days p) /\
     equals r' p = true /\ (n = 0 -> r' = p)) /\
  (is_int (_months p + n) ->
   exists r st1 r' st2,
     plusMonths p n st = Return (r, st1) /\
     minusMonths r n st1 = Return (r', st2) /\
     has_units r (_years p) (_months p + n) (_days p) /\
     equals r' p = true /\ (n = 0 -> r' = p)) /\
  (is_int (_days p + n) ->
   exists r st1 r' st2,
     plusDays p n st = Return (r, st1) /\
     minusDays r n st1 = Return (r', st2) /\
     has_units r (_years p) (_months p) (_days p + n) /\
     equals r' p = true /\ (n = 0 -> r' = p)).
Proof.
  intros Hv Hn. pose proof Hv as (Py & Pm & Pd).
  pose proof (is_int_minus n Hn) as Hn'.
  split; [|split]; intros Hs.
  - destruct (plusYears_units p n st Hv Hn Hs)
      as (r & st1 & Hr & (Ry & Rm & Rd) & Hr0).
    destruct (plusYears_units r (-1 * n) st1)
      as (r' & st2 & Hr' & (Ry' & Rm' & Rd') & Hr0'); auto.
    { unfold valid. rewrite Ry, Rm, Rd. auto. }
    { rewrite Ry. replace (_years p + n + -1 * n) with (_years p) by lia.
      exact Py. }
    exists r, st1, r', st2. unfold minusYears.
    split; [exact Hr|]. split; [exact Hr'|].
    split; [unfold has_units; auto|].
    split; [apply equals_same_units; lia|].
    intros ->. rewrite Hr0' by reflexivity. now apply Hr0.
  - destruct (plusMonths_units p n st Hv Hn Hs)
      as (r & st1 & Hr & (Ry & Rm & Rd) & Hr0).
    destruct (plusMonths_units r (-1 * n) st1)
      as (r' & st2 & Hr' & (Ry' & Rm' & Rd') & Hr0'); auto.
    { unfold valid. rewrite Ry, Rm, Rd. auto. }
    { rewrite Rm. replace (_months p + n + -1 * n) with (_months p) by lia.
      exact Pm. }
    exists r, st1, r', st2. unfold minusMonths.
    split; [exact Hr|]. split; [exact Hr'|].
    split; [unfold has_units; auto|].
    split; [apply equals_same_units; lia|].
    intros ->. rewrite Hr0' by reflexivity. now apply Hr0.
  - destruct (plusDays_units p n st Hv Hn Hs)
      as (r & st1 & Hr & (Ry & Rm & Rd) & Hr0).
    destruct (plusDays_units r (-1 * n) st1)
      as (r' & st2 & Hr' & (Ry' & Rm' & Rd') & Hr0'); auto.
    { unfold valid. rewrite Ry, Rm, Rd. auto. }
    { rewrite Rd. replace (_days p + n + -1 * n) with (_days p) by lia.
      exact Pd. }
    exists r, st1, r', st2. unfold minusDays.
    split; [exact Hr|]. split; [exact Hr'|].
    split; [unfold has_units; auto|].
    split; [apply equals_same_units; lia|].
    intros ->. rewrite Hr0' by reflexivity. now apply Hr0.
Qed.

(** X14. [Period.from] returns a period as it is, and makes of an amount
    that answers [units()] and [get(unit)] as the period [p] does a period
    with the units of [p]. *)
Theorem from_period_amount (a : amount_object) (p : period) (st : store) :
  valid p ->
  amount_units a = units p ->
  (forall u v, get p u = inr v -> amount_get a u = Return v) ->
  from (a_Period p) st = Return (p, st) /\
  exists r st',
    from (an_amount a) st = Return (r, st') /\
    has_units r (_years p) (_months p) (_days p) /\
    equals r p = true.
Proof.
  intros (Py & Pm & Pd) Hu Hg. split; [reflexivity|].
  destruct (create_result (_years p) (_months p) (_days p) st)
    as (r & st' & Hr & (Ry & Rm & Rd) & _); auto.
  exists r, st'. split.
  - unfold from. rewrite Hu. cbn [units from_units].
    rewrite (Hg YEARS _ eq_refl), (Hg MONTHS _ eq_refl), (Hg DAYS _ eq_refl).
    cbn. rewrite !safeToInt_int by assumption. cbn. exact Hr.
  - split; [unfold has_units; auto|]. now apply equals_same_units.
Qed.



(** X5. The constructor's test for zero comes before the validation, and
    it is a test on 32 bits: [Period.of] returns [Period.ZERO], in place of
    the object that the constructor has made, for units that are multiples
    of 2^32, whatever [MathUtil.safeToInt] would say of them. *)
Theorem of_multiples_of_2_32 (a b c : Z) (st : store) :
  of_ (2 ^ 32 * a) (2 ^ 32 * b) (2 ^ 32 * c) st = Return (ZERO, S st).
Proof.
  assert (H : forall k, toInt32 (2 ^ 32 * k) = 0).
  { intros k. unfold toInt32.
    replace (2 ^ 32 * k + 2 ^ 31) with (2 ^ 31 + k * 2 ^ 32) by lia.
    rewrite Z.mod_add by lia. reflexivity. }
  unfold of_, create, new_Period, bitor. rewrite !H. reflexivity.
Qed.

End PeriodUnits.

Section PeriodTemporal.
Context {MU : MathUtil} {MUC : MathUtilContract MU}.
Context {Temporal : Type} {TO : TemporalOps Temporal}.
Import Period PeriodOps.

(** X16. For temporal objects whose [minus(n, unit)] is [plus(-n, unit)],
    [p.subtractFrom(t)] is [p.negated().addTo(t)]. *)
Theorem subtractFrom_is_addTo_negated (p : period) (t : Temporal)
    (st : store) :
  (forall t' n u, temporal_minus t' n u = temporal_plus t' (- n) u) ->
  allocated st p -> valid p ->
  exists np st',
    negated p st = Return (np, st') /\
    subtractFrom p t = addTo np t.
Proof.
  intros Hminus Hp Hv. pose proof Hv as (Py & Pm & Pd).
  destruct (multipliedBy_units p (-1) st)
    as (np & st' & Hn & (Ny & Nm & Nd) & _);
    auto using is_int_negated, is_int_minus_one.
  exists np, st'. split; [exact Hn|].
  unfold subtractFrom, addTo, toTotalMonths.
  rewrite Ny, Nm, Nd, !Hminus.
  replace (_years p * -1 * 12 + _months p * -1)
    with (- (_years p * 12 + _months p)) by lia.
  replace (_years p * -1) with (- _years p) by lia.
  replace (_months p * -1) with (- _months p) by lia.
  replace (_days p * -1) with (- _days p) by lia.
  assert (E : forall z, (- z =? 0) = (z =? 0)).
  { intros z. destruct (Z.eqb_spec z 0), (Z.eqb_spec (- z) 0); lia. }
  rewrite !E.
  destruct (_years p =? 0), (_months p =? 0), (_days p =? 0);
    cbn [negb]; cbn; rewrite ?Hminus; try reflexivity;
    match goal with
    | |- context [temporal_plus t ?n ?u] => destruct (temporal_plus t n u)
    end; cbn; rewrite ?Hminus; reflexivity.
Qed.

End PeriodTemporal.

Section PeriodNegatedText.
Context {MU : MathUtil} {MUC : MathUtilContract MU}.
Import Period PeriodOps.

(** The text of a unit is a section of the text of a period. *)
Lemma unit_text_section v letter :
  unit_text v letter
  = section_text (if v =? 0 then None else Some (number_to_string v)) letter.
Proof. unfold unit_text. now destruct (v =? 0). Qed.

Lemma section_value_unit v :
  section_value (if v =? 0 then None else Some (number_to_string v)) = Some v.
Proof.
  destruct (Z.eqb_spec v 0) as [-> | Hne]; [reflexivity|].
  apply numeral_value_number_to_string.
Qed.

(** X4. A minus sign in front of the text of a period negates it:
    [Period.parse("-" + p.toString())] has the units of [p.negated()]. *)
Theorem parse_minus_toString_negated (y mo d : Z) (st st1 : store)
    (p : period) :
  is_int y -> is_int mo -> is_int d -> initialised st ->
  create y mo d st = Return (p, st1) ->
  exists r st2 np st3,
    parse (String "-" (toString p)) st1 = Return (r, st2) /\
    negated p st2 = Return (np, st3) /\
    has_units r (- y) (- mo) (- d) /\
    equals r np = true.
Proof.
  intros Hy Hm Hd Hst Hp.
  assert (H0 : is_int 0) by (apply is_int_small; lia).
  destruct (create_result y mo d st Hy Hm Hd)
    as (p0 & st0 & Hp0 & (Uy & Um & Ud) & Hle & Hal & Hzero).
  rewrite Hp in Hp0. inversion Hp0; subst p0 st0. clear Hp0.
  specialize (Hal Hst).
  assert (Hv : valid p) by (unfold valid; rewrite Uy, Um, Ud; auto).
  (* what the text parses to *)
  assert (Hparse : parse (String "-" (toString p)) st1
                   = create (y * -1) (mo * -1) (d * -1) st1).
  { destruct Hal as [-> | [Ho Hnz]].
    - cbn in Uy, Um, Ud. subst y mo d. rewrite toString_ZERO.
      rewrite (parse_groups "-P0D" "-" None None None (Some "0") 0 0 0 0);
        auto; try (apply is_int_small; cbn; lia).
    - rewrite toString_units by (apply same_ZERO_false; lia).
      rewrite Uy, Um, Ud, !unit_text_section.
      set (oy := if y =? 0 then None else Some (number_to_string y)).
      set (om := if mo =? 0 then None else Some (number_to_string mo)).
      set (od := if d =? 0 then None else Some (number_to_string d)).
      assert (Et : String "-" (String "P"
                     (section_text oy "Y" +:+ section_text om "M"
                      +:+ section_text od "D"))
                   = "" +:+ "-" +:+ String "P"
                       (sections_text oy om None od +:+ "")).
      { unfold sections_text. cbn. rewrite !string_app_assoc.
        now rewrite string_app_nil_r. }
      rewrite Et.
      assert (Hexec : RegExp.exec PATTERN
                ("" +:+ "-" +:+ String "P"
                   (sections_text oy om None od +:+ ""))
              = Some (text_groups "-" oy om None od)).
      { apply exec_sections; unfold sign_text;
          eauto using section_value_numeral, section_value_unit; easy. }
      assert (Hw7 : is_int (0 * sign_factor "-" * 7))
        by (apply is_int_small; cbn; lia).
      assert (Hsum : is_int (d * sign_factor "-" + 0 * sign_factor "-" * 7)).
      { change (sign_factor "-") with (-1).
        replace (d * -1 + 0 * -1 * 7) with (d * -1) by lia.
        now apply is_int_negated. }
      assert (Hany : defined oy || defined om || defined (@None string)
                     || defined od = true).
      { rewrite Uy, Um, Ud in Hnz. unfold oy, om, od.
        destruct (Z.eqb_spec y 0), (Z.eqb_spec mo 0), (Z.eqb_spec d 0);
          try reflexivity. tauto. }
      rewrite (parse_groups _ "-" oy om None od y mo 0 d st1 Hexec
                 (section_value_unit y) (section_value_unit mo) eq_refl
                 (section_value_unit d) Hy Hm H0 Hd Hw7 Hsum Hany).
      change (sign_factor "-") with (-1).
      replace (d * -1 + 0 * -1 * 7) with (d * -1) by lia. reflexivity. }
  destruct (create_result (y * -1) (mo * -1) (d * -1) st1)
    as (r & st2 & Hr & (Ry & Rm & Rd) & Hle2 & _);
    auto using is_int_negated.
  destruct (multipliedBy_units p (-1) st2)
    as (np & st3 & Hn & (Ny & Nm & Nd) & _);
    rewrite ?Uy, ?Um, ?Ud; auto using is_int_negated, is_int_minus_one.
  { eapply allocated_mono; eauto. }
  exists r, st2, np, st3. unfold negated.
  split; [now rewrite Hparse|]. split; [exact Hn|].
  split; [unfold has_units; lia|].
  apply equals_same_units; lia.
Qed.

End PeriodNegatedText.

(** ** DateTimeFormatter: parsing to the end, and the error index *)

Section FacadeParse.
Context {T : Types} {C : DateTimeFormatter.Collaborators}
        {CH : DateTimeFormatter.Chronologies}.
Import DateTimeFormatter.

(** [_parseToBuilder(text, null)] after a parse that failed. *)
Lemma parseToBuilder_failed this text context e :
  pp_parse (_printerParser this) (new_DateTimeParseContext this) text 0
    = Return (context, bitnot e) ->
  0 <= e < 2 ^ 31 ->
  _parseToBuilder this text None =
    Throw (DateTimeParseException
             ("Text '" +:+ abbreviated text
              +:+ "' could not be parsed at index " +:+ number_to_string e)
             text e None).
Proof.
  intros Hparse He.
  pose proof (bitnot_negative e He) as Hneg.
  unfold _parseToBuilder, _parseUnresolved0. cbn. rewrite Hparse. cbn.
  destruct (Z.ltb_spec (bitnot e) 0) as [_ | Hge]; [|lia]. cbn.
  rewrite abbreviate_substr, bitnot_bitnot by exact He. cbn.
  destruct (Z.geb_spec e 0) as [_ | Hlt]; [reflexivity | lia].
Qed.

(** [_parseToBuilder(text, null)] after a parse that reached the end of
    the text. *)
Lemma parseToBuilder_whole this text context N :
  pp_parse (_printerParser this) (new_DateTimeParseContext this) text 0
    = Return (context, N) ->
  string_length text <= N ->
  _parseToBuilder this text None =
    Return (toBuilder (toParsed context), setIndex (new_ParsePosition 0) N).
Proof.
  intros Hparse HN.
  pose proof (Nat2Z.is_nonneg (String.length text)) as Hlen.
  fold (string_length text) in Hlen.
  unfold _parseToBuilder, _parseUnresolved0. cbn. rewrite Hparse. cbn.
  destruct (Z.ltb_spec N 0) as [Hneg | _]; [lia|]. cbn.
  destruct (Z.ltb_spec N (string_length text)) as [Hlt | _]; [lia|].
  reflexivity.
Qed.

(** X17. [parse(text)], with or without a type: when the tree's parse method
    fails at the position [e], a [DateTimeParseException] is thrown whose
    message ends in "could not be parsed at index e" and whose error index
    is [e]. *)
Theorem parse_reports_error_index
    (this : formatter) (text : string) (type : option Query)
    (context : ParseContext) (e : Z) :
  pp_parse (_printerParser this) (new_DateTimeParseContext this) text 0
    = Return (context, bitnot e) ->
  0 <= e < 2 ^ 31 ->
  parse this text type =
    Throw (DateTimeParseException
             ("Text '" +:+ abbreviated text
              +:+ "' could not be parsed at index " +:+ number_to_string e)
             text e None).
Proof.
  intros Hparse He.
  pose proof (parseToBuilder_failed this text context e Hparse He) as Hb.
  unfold parse, parse1, parse2.
  destruct type as [type|]; rewrite Hb; reflexivity.
Qed.

(** X18. [parse(text)] after a parse that reached the end of the text
    returns the builder that [resolve] returns, and [parse(text, type)] what
    [build(type)] makes of that builder. *)
Theorem parse_whole_text_resolved
    (this : formatter) (text : string) (context : ParseContext) (N : Z)
    (b : DateTimeBuilder) :
  pp_parse (_printerParser this) (new_DateTimeParseContext this) text 0
    = Return (context, N) ->
  string_length text <= N ->
  resolve (toBuilder (toParsed context)) (_resolverStyle this)
    (_resolverFields this) = Return b ->
  parse this text None = Return (inl b) /\
  (forall type v,
     build b type = Return v ->
     parse this text (Some type) = Return (inr v)).
Proof.
  intros Hparse HN Hres.
  pose proof (parseToBuilder_whole this text context N Hparse HN) as Hb.
  unfold parse, parse1, parse2. rewrite Hb. cbn. rewrite Hres. cbn.
  split; [reflexivity|]. intros type v Hv. now rewrite Hv.
Qed.

Lemma rethrow_short_text_error {A} text (c : completion A) ex :
  string_length text <= 64 ->
  rethrow text c = Throw ex ->
  instanceof_DateTimeParseException ex = true.
Proof.
  intros Hlen. destruct c as [v | e]; [discriminate|].
  destruct (instanceof_DateTimeParseException e) eqn:He.
  - rewrite rethrow_parse_error by exact He. now intros [= <-].
  - rewrite rethrow_short_text by assumption. now intros [= <-].
Qed.

(** X19. [parse(text)] and [parse(text, type)] for a string [text] of at
    most 64 characters and a [type] that is an object, so that the
    [requireNonNull] calls in front of the [try] pass: whatever is thrown
    is a [DateTimeParseException].  The errors of the tree, of [resolve]
    and of [build] that are not are caught and wrapped in one by
    [_createError]. *)
Theorem parse_short_text_errors
    (this : formatter) (text : string) (type : option Query) (ex : error) :
  string_length text <= 64 ->
  parse this text type = Throw ex ->
  instanceof_DateTimeParseException ex = true.
Proof.
  intros Hlen. unfold parse, parse1, parse2.
  destruct type as [type|].
  - destruct (rethrow text _) as [v | e] eqn:E; cbn; [discriminate|].
    intros [= <-]. eapply rethrow_short_text_error; eauto.
  - destruct (rethrow text _) as [v | e] eqn:E; cbn; [discriminate|].
    intros [= <-]. eapply rethrow_short_text_error; eauto.
Qed.

(** X20. [withChronology] with the chronology that the formatter has got
    from it returns that formatter: a second call makes no second copy. *)
Theorem withChronology_twice
    (h h1 : heap) (this r : ref) (c : Chronology) :
  chrono_equals c (object c) = true ->
  withChronology h this (object c) = Some (r, h1) ->
  withChronology h1 r (object c) = Some (r, h1).
Proof.
  intros Heq. unfold withChronology.
  destruct (h !! this) as [o|] eqn:Ho; cbn; [|discriminate].
  destruct (same_chronology o (object c)) eqn:Hs; intros H; inversion H.
  - subst r h1. rewrite Ho. cbn. now rewrite Hs.
  - unfold new_DateTimeFormatter in *. cbn in *. subst r h1.
    rewrite lookup_insert_eq. cbn. unfold same_chronology. cbn.
    now rewrite Heq.
Qed.

End FacadeParse.

(** ** Instances of the properties of Period and of the formatter *)

Lemma Period_parse_text_witness :
  @Period.parse int_MathUtil "x-P1Y+2W3DT" 1%nat
  = @Period.create int_MathUtil (-1) 0 (-17) 1%nat.
Proof.
  apply (@Period_parse_text int_MathUtil int_MathUtil_contract
           "x" "-" (Some "1") None (Some "+2") (Some "3") "T" 1 0 2 3 1%nat);
    try reflexivity; try discriminate; try (right; left; reflexivity);
    unfold is_int; cbn; lia.
Defined.

Lemma Period_parse_without_P_witness :
  @Period.parse int_MathUtil "p1d" 1%nat
  = Throw (DateTimeParseException "Text cannot be parsed to a Period"
             "p1d" 0 None).
Proof.
  apply (@Period_parse_without_P int_MathUtil "p1d" 1%nat). reflexivity.
Defined.

Lemma Period_parse_without_sections_witness :
  @Period.parse int_MathUtil "-PT1H" 1%nat
  = Throw (DateTimeParseException "Text cannot be parsed to a Period"
             "-PT1H" 0 None).
Proof.
  apply (@Period_parse_without_sections int_MathUtil "" "-" "T1H" 1%nat);
    try reflexivity; try discriminate.
  unfold sign_text. auto.
Defined.

Lemma sample_period_valid : valid sample_period.
Proof. unfold valid, is_int. cbn. lia. Qed.

Lemma other_period_valid : valid other_period.
Proof. unfold valid, is_int. cbn. lia. Qed.

Lemma sample_period_allocated : allocated 4 sample_period.
Proof.
  right. cbn. split; [lia|]. intros (H & _). discriminate.
Qed.

Lemma other_period_allocated : allocated 4 other_period.
Proof.
  right. cbn. split; [lia|]. intros (H & _). discriminate.
Qed.

Lemma parse_minus_toString_negated_witness :
  exists r st2 np st3,
    @Period.parse int_MathUtil
      (String "-" (Period.toString sample_period)) 4%nat
    = Return (r, st2) /\
    @PeriodOps.negated int_MathUtil sample_period st2 = Return (np, st3) /\
    has_units r (- 1) (- -25) (- 4) /\
    Period.equals r np = true.
Proof.
  apply (@parse_minus_toString_negated int_MathUtil int_MathUtil_contract
           1 (-25) 4 3%nat 4%nat sample_period);
    try reflexivity; try (unfold Period.initialised, Period.initial_store; lia);
    unfold is_int; lia.
Defined.

Lemma plus_minus_inverse_witness :
  exists r st1 r' st2,
    @PeriodOps.plus int_MathUtil sample_period (a_Period other_period) 4%nat
    = Return (r, st1) /\
    @PeriodOps.minus int_MathUtil int_MathUtilArith r (a_Period other_period)
      st1 = Return (r', st2) /\
    has_units r (1 + -2) (-25 + 5) (4 + 6) /\
    has_units r' 1 (-25) 4 /\
    Period.equals r' sample_period = true.
Proof.
  apply (@plus_minus_inverse int_MathUtil int_MathUtil_contract
           int_MathUtilArith int_MathUtilArith_contract
           sample_period other_period 4%nat);
    try apply sample_period_valid; try apply other_period_valid;
    unfold is_int; cbn; lia.
Defined.

Lemma minus_is_plus_negated_witness :
  exists r1 st1 nq st2 r2 st3,
    @PeriodOps.minus int_MathUtil int_MathUtilArith sample_period
      (a_Period other_period) 4%nat = Return (r1, st1) /\
    @PeriodOps.negated int_MathUtil other_period st1 = Return (nq, st2) /\
    @PeriodOps.plus int_MathUtil sample_period (a_Period nq) st2
    = Return (r2, st3) /\
    has_units r1 (1 - -2) (-25 - 5) (4 - 6) /\
    Period.equals r1 r2 = true.
Proof.
  apply (@minus_is_plus_negated int_MathUtil int_MathUtil_contract
           int_MathUtilArith int_MathUtilArith_contract
           sample_period other_period 4%nat);
    try apply sample_period_valid; try apply other_period_valid;
    try apply other_period_allocated;
    unfold is_int; cbn; lia.
Defined.

Lemma negated_involution_witness :
  exists r1 st1 r2 st2,
    @PeriodOps.negated int_MathUtil sample_period 4%nat = Return (r1, st1) /\
    @PeriodOps.negated int_MathUtil r1 st1 = Return (r2, st2) /\
    has_units r1 (- 1) (- -25) (- 4) /\
    Period.equals r2 sample_period = true /\
    (Period.isZero sample_period = true ->
     r1 = Period.ZERO /\ r2 = Period.ZERO).
Proof.
  apply (@negated_involution int_MathUtil int_MathUtil_contract
           sample_period 4%nat).
  - apply sample_period_allocated.
  - apply sample_period_valid.
Defined.

Lemma multipliedBy_compose_witness :
  exists r1 st1 r2 st2 r3 st3,
    @PeriodOps.multipliedBy int_MathUtil sample_period (-2) 4%nat
    = Return (r1, st1) /\
    @PeriodOps.multipliedBy int_MathUtil r1 3 st1 = Return (r2, st2) /\
    @PeriodOps.multipliedBy int_MathUtil sample_period (-2 * 3) st2
    = Return (r3, st3) /\
    has_units r2 (1 * (-2 * 3)) (-25 * (-2 * 3)) (4 * (-2 * 3)) /\
    Period.equals r2 r3 = true.
Proof.
  apply (@multipliedBy_compose int_MathUtil int_MathUtil_contract
           sample_period (-2) 3 4%nat);
    try apply sample_period_allocated; try apply sample_period_valid;
    unfold is_int; cbn; lia.
Defined.

Lemma multipliedBy_zero_witness :
  @PeriodOps.multipliedBy int_MathUtil sample_period 0 4%nat
  = Return (Period.ZERO, 5%nat).
Proof.
  apply (@multipliedBy_zero int_MathUtil int_MathUtil_contract
           sample_period 4%nat).
  - apply sample_period_allocated.
  - apply sample_period_valid.
Defined.

Lemma normalized_canonical_witness :
  exists r st',
    @PeriodOps.normalized int_MathUtil int_MathUtilArith sample_period 4%nat
    = Return (r, st') /\
    PeriodOps.toTotalMonths r = PeriodOps.toTotalMonths sample_period /\
    Period._days r = 4 /\
    Z.abs (Period._months r) < 12 /\
    0 <= Period._years r * Period._months r /\
    @PeriodOps.normalized int_MathUtil int_MathUtilArith r st'
    = Return (r, st').
Proof.
  apply (@normalized_canonical int_MathUtil int_MathUtil_contract
           int_MathUtilArith int_MathUtilArith_contract sample_period 4%nat).
  - apply sample_period_valid.
  - unfold is_int. vm_compute. split; reflexivity.
Defined.

Lemma with_sets_one_unit_witness :
  (exists r st',
     @PeriodOps.withYears int_MathUtil sample_period 7 4%nat
     = Return (r, st') /\
     has_units r 7 (-25) 4 /\
     (7 = 1 -> r = sample_period /\ st' = 4%nat)) /\
  (exists r st',
     @PeriodOps.withMonths int_MathUtil sample_period 7 4%nat
     = Return (r, st') /\
     has_units r 1 7 4 /\
     (7 = -25 -> r = sample_period /\ st' = 4%nat)) /\
  (exists r st',
     @PeriodOps.withDays int_MathUtil sample_period 7 4%nat
     = Return (r, st') /\
     has_units r 1 (-25) 7 /\
     (7 = 4 -> r = sample_period /\ st' = 4%nat)).
Proof.
  apply (@with_sets_one_unit int_MathUtil int_MathUtil_contract
           sample_period 7 4%nat).
  - apply sample_period_valid.
  - unfold is_int. lia.
Defined.

Lemma plus_unit_minus_unit_witness :
  (is_int (1 + 7) ->
   exists r st1 r' st2,
     @PeriodOps.plusYears int_MathUtil sample_period 7 4%nat
     = Return (r, st1) /\
     @PeriodOps.minusYears int_MathUtil r 7 st1 = Return (r', st2) /\
     has_units r (1 + 7) (-25) 4 /\
     Period.equals r' sample_period = true /\ (7 = 0 -> r' = sample_period)) /\
  (is_int (-25 + 7) ->
   exists r st1 r' st2,
     @PeriodOps.plusMonths int_MathUtil sample_period 7 4%nat
     = Return (r, st1) /\
     @PeriodOps.minusMonths int_MathUtil r 7 st1 = Return (r', st2) /\
     has_units r 1 (-25 + 7) 4 /\
     Period.equals r' sample_period = true /\ (7 = 0 -> r' = sample_period)) /\
  (is_int (4 + 7) ->
   exists r st1 r' st2,
     @PeriodOps.plusDays int_MathUtil sample_period 7 4%nat
     = Return (r, st1) /\
     @PeriodOps.minusDays int_MathUtil r 7 st1 = Return (r', st2) /\
     has_units r 1 (-25) (4 + 7) /\
     Period.equals r' sample_period = true /\ (7 = 0 -> r' = sample_period)).
Proof.
  apply (@plus_unit_minus_unit int_MathUtil int_MathUtil_contract
           sample_period 7 4%nat).
  - apply sample_period_valid.
  - unfold is_int. lia.
Defined.

Lemma from_period_amount_witness :
  @PeriodOps.from int_MathUtil (a_Period sample_period) 4%nat
  = Return (sample_period, 4%nat) /\
  exists r st',
    @PeriodOps.from int_MathUtil (an_amount sample_amount) 4%nat
    = Return (r, st') /\
    has_units r 1 (-25) 4 /\
    Period.equals r sample_period = true.
Proof.
  apply (@from_period_amount int_MathUtil int_MathUtil_contract
           sample_amount sample_period 4%nat).
  - apply sample_period_valid.
  - reflexivity.
  - intros [| | |name] v H; inversion H; reflexivity.
Defined.


Lemma subtractFrom_is_addTo_negated_witness :
  exists np st',
    @PeriodOps.negated int_MathUtil sample_period 4%nat = Return (np, st') /\
    @PeriodOps.subtractFrom Z day_count sample_period 1000
    = @PeriodOps.addTo Z day_count np 1000.
Proof.
  apply (@subtractFrom_is_addTo_negated int_MathUtil int_MathUtil_contract
           Z day_count sample_period 1000 4%nat).
  - reflexivity.
  - apply sample_period_allocated.
  - apply sample_period_valid.
Defined.

Lemma parse_reports_error_index_witness :
  DateTimeFormatter.parse day_formatter "x" None
  = Throw (DateTimeParseException
             ("Text '" +:+ abbreviated "x"
              +:+ "' could not be parsed at index " +:+ number_to_string 0)
             "x" 0 None).
Proof.
  apply (parse_reports_error_index day_formatter "x" None
           Engine.new_context 0).
  - reflexivity.
  - lia.
Defined.

Lemma parse_whole_text_resolved_witness :
  exists b,
    DateTimeFormatter.parse day_formatter "30" None = Return (inl b) /\
    (forall type v,
       DateTimeFormatter.build b type = Return v ->
       DateTimeFormatter.parse day_formatter "30" (Some type)
       = Return (inr v)).
Proof.
  eexists.
  eapply (parse_whole_text_resolved day_formatter "30").
  - reflexivity.
  - unfold string_length. simpl. lia.
  - reflexivity.
Defined.

Lemma withChronology_twice_witness :
  DateTimeFormatter.withChronology iso_heap 2%positive iso_chronology
  = Some (2%positive, iso_heap).
Proof.
  apply (withChronology_twice plain_heap iso_heap 1%positive 2%positive tt).
  - reflexivity.
  - vm_compute. reflexivity.
Defined.

Lemma parse_short_text_errors_witness :
  instanceof_DateTimeParseException
    (DateTimeParseException
       ("Text '" +:+ "13" +:+ "' could not be parsed: "
        +:+ "Invalid value for MonthOfYear: 13")
       "13" 0 (Some (DateTimeException "Invalid value for MonthOfYear: 13")))
  = true.
Proof.
  apply (parse_short_text_errors strict_month_formatter "13" None).
  - unfold string_length. simpl. lia.
  - vm_compute. reflexivity.
Defined.
